(** * Phantom Portfolio Grid: coordinate mapping, camera and interaction engine

    A shallow embedding of the interactive grid of
    [components/InteractiveGrid] (hooks [hookUtils], [useInteraction],
    [useAnimationLoop], [useVideoManager], [useEventHandlers], [useUniforms],
    [textureUtils], [config]) and of the fragment shader of [shaders.ts].

    Numbers.  A JavaScript [number] and a GLSL [float] are modelled as a real
    number: arithmetic is exact, rounding is not modelled, and [x / 0] is the
    total division of [R].  [Math.floor] is [Zfloor]; the remainder operator
    [%] on integral values is [Z.rem] (sign of the dividend).  Counters are
    [nat].  [NaN] and the infinities appear in [Float] only, where the
    project lookup is modelled on numbers that need not be finite.

    State.  The hooks share one mutable [ThreeContext]; it is threaded
    through every function together with the React state.  A handler that
    throws returns [None].

    Asynchrony.  The async function [setVideoState] is cut at its [await]s:
    a call runs to its first [await] and leaves a suspended request, which
    the event loop resumes later, in any order. *)

From Stdlib Require Import Reals Lra Lia ZArith List Bool String Psatz.
From Stdlib Require Import Zfloor.
Import ListNotations.
Local Open Scope R_scope.

(** ** Comparisons of numbers as booleans *)

Definition Rltb (a b : R) : bool := if Rlt_dec a b then true else false.
Definition Rgtb (a b : R) : bool := Rltb b a.
Definition Reqb (a b : R) : bool := if Req_dec_T a b then true else false.

(** ** THREE.Vector2 (the methods the hooks call) *)

Module Vector2.

Record t : Type := mk { x : R; y : R }.

(** [new THREE.Vector2()] *)
Definition zero : t := mk 0 0.

Definition add (a b : t) : t := mk (x a + x b) (y a + y b).
Definition sub (a b : t) : t := mk (x a - x b) (y a - y b).
Definition addScalar (a : t) (s : R) : t := mk (x a + s) (y a + s).
Definition multiply (a b : t) : t := mk (x a * x b) (y a * y b).
Definition multiplyScalar (a : t) (s : R) : t := mk (x a * s) (y a * s).

(** [length()] is [Math.sqrt(x*x + y*y)]. *)
Definition length (a : t) : R := sqrt (x a * x a + y a * y a).

(** [lerp(v, alpha)]: [this.x += (v.x - this.x) * alpha], same for y. *)
Definition lerp (a v : t) (alpha : R) : t :=
  mk (x a + (x v - x a) * alpha) (y a + (y v - y a) * alpha).

(** [equals(v)]: [v.x === this.x && v.y === this.y]. *)
Definition equals (a v : t) : bool := Reqb (x v) (x a) && Reqb (y v) (y a).

End Vector2.

Abbreviation Vec2 := Vector2.t.
Abbreviation vec2 := Vector2.mk.

(** ** config.ts *)

Module AnimationConfig.
Definition springStiffness : R := 5 / 100.
Definition damping : R := 75 / 100.
Definition lerpFactor : R := 1 / 10.
Definition scrollSpeed : R := 1 / 1000.
Definition swipeThreshold : R := 50.
Definition tapThreshold : R := 10.
Definition zoomedInLevel : R := 3 / 10.
Definition defaultZoomLevel : R := 1.

Module initialState.
Definition isDragging : bool := false.
Definition isZoomed : bool := false.
Definition zoom : R := 1.
Definition targetZoom : R := 1.
Definition distortion : R := 1.
Definition targetDistortion : R := 1.
Definition zoomProgress : R := 0.
Definition lastZoom : R := 1.
Definition videoNonce : nat := 0.
End initialState.
End AnimationConfig.

(** ** Projects (types.ts, as constants.ts fills it) *)

Record Project : Type := mkProject {
  title : string;
  image : string;
  year : Z;
  href : string;
  video : option string          (* [video?: string] *)
}.

(** What [getProjectByCellId] can evaluate to: [null], a project, or the
    [undefined] of an array read outside its bounds. *)
Inductive lookup : Type :=
| Null
| Undefined
| Found (p : Project).

(** [arr[i]] for an integral [i]: [undefined] outside [0 .. length-1]. *)
Definition array_get {A : Type} (arr : list A) (i : Z) : option A :=
  if (i <? 0)%Z then None else nth_error arr (Z.to_nat i).

(** hookUtils.ts, [getProjectByCellId].  [id] is [null] or a vector,
    [projects] is [null]/[undefined] or an array. *)
Definition getProjectByCellId (id : option Vec2) (projects : option (list Project))
  : lookup :=
  match id, projects with
  | Some id, Some projects =>
      let len := Z.of_nat (List.length projects) in
      if (len =? 0)%Z then Null
      else
        let flatIndex := (Zfloor (Vector2.x id) + Zfloor (Vector2.y id) * 3)%Z in
        let projectIndex := Z.rem (Z.rem flatIndex len + len) len in
        match array_get projects projectIndex with
        | Some p => Found p
        | None => Undefined
        end
  | _, _ => Null
  end.

(** *** The lookup on numbers that are not finite

    The coordinates of a cell are JavaScript numbers.  They are reals in the
    rest of this development; here they may also be [NaN] or one of the two
    infinities (rounding and the sign of zero are left out in both).
    [Math.floor] of a finite number is integral, so the arithmetic that
    follows it is on integers or non-finite numbers. *)
Module Float.

Inductive number (A : Type) : Type :=
| Finite (a : A)
| NaN
| Infinity
| NegInfinity.

Arguments Finite {A} a.
Arguments NaN {A}.
Arguments Infinity {A}.
Arguments NegInfinity {A}.


(** [Math.floor(n)] *)
Definition floor (n : number R) : number Z :=
  match n with
  | Finite r => Finite (Zfloor r)
  | NaN => NaN
  | Infinity => Infinity
  | NegInfinity => NegInfinity
  end.

(** [a + b]: the sum of opposite infinities is [NaN]. *)
Definition add (a b : number Z) : number Z :=
  match a, b with
  | NaN, _ => NaN
  | _, NaN => NaN
  | Finite m, Finite n => Finite (m + n)%Z
  | Infinity, NegInfinity => NaN
  | NegInfinity, Infinity => NaN
  | Infinity, _ => Infinity
  | _, Infinity => Infinity
  | NegInfinity, _ => NegInfinity
  | _, NegInfinity => NegInfinity
  end.

(** The sign of a product with an infinity; zero times an infinity is
    [NaN]. *)
Definition signed (positive : bool) (m : Z) : number Z :=
  if (m =? 0)%Z then NaN
  else if Bool.eqb positive (0 <? m)%Z then Infinity
  else NegInfinity.

(** [a * b] *)
Definition mul (a b : number Z) : number Z :=
  match a, b with
  | NaN, _ => NaN
  | _, NaN => NaN
  | Finite m, Finite n => Finite (m * n)%Z
  | Finite m, Infinity => signed true m
  | Infinity, Finite m => signed true m
  | Finite m, NegInfinity => signed false m
  | NegInfinity, Finite m => signed false m
  | Infinity, Infinity => Infinity
  | NegInfinity, NegInfinity => Infinity
  | Infinity, NegInfinity => NegInfinity
  | NegInfinity, Infinity => NegInfinity
  end.

(** [a % b]: [NaN] when [a] is not finite or [b] is zero or [NaN]; [a] when
    [b] is infinite; the remainder with the sign of [a] otherwise. *)
Definition rem (a b : number Z) : number Z :=
  match a, b with
  | Finite m, Finite n => if (n =? 0)%Z then NaN else Finite (Z.rem m n)
  | Finite m, Infinity => Finite m
  | Finite m, NegInfinity => Finite m
  | _, _ => NaN
  end.

(** A [THREE.Vector2] of such numbers. *)
Record Vector2 : Type := vec2 { x : number R; y : number R }.

(** hookUtils.ts, [getProjectByCellId], on these numbers.  [projects[i]] for
    an [i] that is not a finite number reads a property that no array has:
    [undefined]. *)
Definition getProjectByCellId (id : option Vector2) (projects : option (list Project))
  : lookup :=
  match id, projects with
  | Some id, Some projects =>
      let len := Z.of_nat (List.length projects) in
      if (len =? 0)%Z then Null
      else
        let flatIndex := add (floor (x id)) (mul (floor (y id)) (Finite 3%Z)) in
        let projectIndex :=
          rem (add (rem flatIndex (Finite len)) (Finite len)) (Finite len) in
        match projectIndex with
        | Finite i =>
            match array_get projects i with
            | Some p => Found p
            | None => Undefined
            end
        | _ => Undefined
        end
  | _, _ => Null
  end.

End Float.

(** [project?.video] *)
Definition video_of (l : lookup) : option string :=
  match l with
  | Found p => video p
  | _ => None
  end.

(** [!newSrc]: [undefined] and the empty string are falsy. *)
Definition falsy_src (s : option string) : bool :=
  match s with
  | None => true
  | Some s => if string_dec s EmptyString then true else false
  end.

(** ** The shader material's uniforms, as the hooks read and write them

    [uOffset.value] and [uMousePos.value] are the very objects
    [context.offset] and [context.mousePos] (useThreeSetup builds the uniforms
    from them and they are only mutated in place), so they are read from the
    context and have no field here.  The three texture uniforms and the colour
    uniforms play no part in the interaction logic; the shader receives them
    separately (see [Shader]). *)

Record Uniforms : Type := mkUniforms {
  uResolution : Vec2;
  uCellSize : R;
  uZoom : R;
  uDistortionStrength : R;
  uZoomProgress : R;
  uTime : R;
  uTextureCount : R;
  uHoveredCellId : Vec2;
  uIsVideoActive : bool;
  uHoverEnabled : bool;
  uOptimizeMobile : bool
}.

Definition set_uResolution (v : Vec2) (c : Uniforms) : Uniforms :=
  {| uResolution := v; uCellSize := uCellSize c; uZoom := uZoom c; uDistortionStrength
     := uDistortionStrength c; uZoomProgress := uZoomProgress c; uTime := uTime c;
     uTextureCount := uTextureCount c; uHoveredCellId := uHoveredCellId c;
     uIsVideoActive := uIsVideoActive c; uHoverEnabled := uHoverEnabled c;
     uOptimizeMobile := uOptimizeMobile c |}.
Definition set_uCellSize (v : R) (c : Uniforms) : Uniforms :=
  {| uResolution := uResolution c; uCellSize := v; uZoom := uZoom c; uDistortionStrength
     := uDistortionStrength c; uZoomProgress := uZoomProgress c; uTime := uTime c;
     uTextureCount := uTextureCount c; uHoveredCellId := uHoveredCellId c;
     uIsVideoActive := uIsVideoActive c; uHoverEnabled := uHoverEnabled c;
     uOptimizeMobile := uOptimizeMobile c |}.
Definition set_uZoom (v : R) (c : Uniforms) : Uniforms :=
  {| uResolution := uResolution c; uCellSize := uCellSize c; uZoom := v;
     uDistortionStrength := uDistortionStrength c; uZoomProgress := uZoomProgress c;
     uTime := uTime c; uTextureCount := uTextureCount c; uHoveredCellId :=
     uHoveredCellId c; uIsVideoActive := uIsVideoActive c; uHoverEnabled :=
     uHoverEnabled c; uOptimizeMobile := uOptimizeMobile c |}.
Definition set_uDistortionStrength (v : R) (c : Uniforms) : Uniforms :=
  {| uResolution := uResolution c; uCellSize := uCellSize c; uZoom := uZoom c;
     uDistortionStrength := v; uZoomProgress := uZoomProgress c; uTime := uTime c;
     uTextureCount := uTextureCount c; uHoveredCellId := uHoveredCellId c;
     uIsVideoActive := uIsVideoActive c; uHoverEnabled := uHoverEnabled c;
     uOptimizeMobile := uOptimizeMobile c |}.
Definition set_uZoomProgress (v : R) (c : Uniforms) : Uniforms :=
  {| uResolution := uResolution c; uCellSize := uCellSize c; uZoom := uZoom c;
     uDistortionStrength := uDistortionStrength c; uZoomProgress := v; uTime := uTime c;
     uTextureCount := uTextureCount c; uHoveredCellId := uHoveredCellId c;
     uIsVideoActive := uIsVideoActive c; uHoverEnabled := uHoverEnabled c;
     uOptimizeMobile := uOptimizeMobile c |}.
Definition set_uTime (v : R) (c : Uniforms) : Uniforms :=
  {| uResolution := uResolution c; uCellSize := uCellSize c; uZoom := uZoom c;
     uDistortionStrength := uDistortionStrength c; uZoomProgress := uZoomProgress c;
     uTime := v; uTextureCount := uTextureCount c; uHoveredCellId := uHoveredCellId c;
     uIsVideoActive := uIsVideoActive c; uHoverEnabled := uHoverEnabled c;
     uOptimizeMobile := uOptimizeMobile c |}.
Definition set_uTextureCount (v : R) (c : Uniforms) : Uniforms :=
  {| uResolution := uResolution c; uCellSize := uCellSize c; uZoom := uZoom c;
     uDistortionStrength := uDistortionStrength c; uZoomProgress := uZoomProgress c;
     uTime := uTime c; uTextureCount := v; uHoveredCellId := uHoveredCellId c;
     uIsVideoActive := uIsVideoActive c; uHoverEnabled := uHoverEnabled c;
     uOptimizeMobile := uOptimizeMobile c |}.
Definition set_uHoveredCellId (v : Vec2) (c : Uniforms) : Uniforms :=
  {| uResolution := uResolution c; uCellSize := uCellSize c; uZoom := uZoom c;
     uDistortionStrength := uDistortionStrength c; uZoomProgress := uZoomProgress c;
     uTime := uTime c; uTextureCount := uTextureCount c; uHoveredCellId := v;
     uIsVideoActive := uIsVideoActive c; uHoverEnabled := uHoverEnabled c;
     uOptimizeMobile := uOptimizeMobile c |}.
Definition set_uIsVideoActive (v : bool) (c : Uniforms) : Uniforms :=
  {| uResolution := uResolution c; uCellSize := uCellSize c; uZoom := uZoom c;
     uDistortionStrength := uDistortionStrength c; uZoomProgress := uZoomProgress c;
     uTime := uTime c; uTextureCount := uTextureCount c; uHoveredCellId :=
     uHoveredCellId c; uIsVideoActive := v; uHoverEnabled := uHoverEnabled c;
     uOptimizeMobile := uOptimizeMobile c |}.
Definition set_uHoverEnabled (v : bool) (c : Uniforms) : Uniforms :=
  {| uResolution := uResolution c; uCellSize := uCellSize c; uZoom := uZoom c;
     uDistortionStrength := uDistortionStrength c; uZoomProgress := uZoomProgress c;
     uTime := uTime c; uTextureCount := uTextureCount c; uHoveredCellId :=
     uHoveredCellId c; uIsVideoActive := uIsVideoActive c; uHoverEnabled := v;
     uOptimizeMobile := uOptimizeMobile c |}.
Definition set_uOptimizeMobile (v : bool) (c : Uniforms) : Uniforms :=
  {| uResolution := uResolution c; uCellSize := uCellSize c; uZoom := uZoom c;
     uDistortionStrength := uDistortionStrength c; uZoomProgress := uZoomProgress c;
     uTime := uTime c; uTextureCount := uTextureCount c; uHoveredCellId :=
     uHoveredCellId c; uIsVideoActive := uIsVideoActive c; uHoverEnabled :=
     uHoverEnabled c; uOptimizeMobile := v |}.

(** ** The hidden <video> element: the two attributes the hooks use *)

Record Video : Type := mkVideo {
  src : string;
  paused : bool
}.

(** ** ThreeContext (hooks/types.ts)

    useThreeSetup creates the renderer, the scene, the camera, the plane and
    every vector of the context in one effect; the optional field [plane]
    stands for that whole set, and it is what the hooks test
    ([if (!context.plane) return], [if (!plane || !THREE) return],
    [if (!context.renderer) return]).  [plane] holds
    [plane.material.uniforms]. *)

Record ThreeContext : Type := mkContext {
  plane : option Uniforms;
  videoRef : option Video;
  isDragging : bool;
  isZoomed : bool;
  previousMouse : Vec2;
  clickStart : Vec2;
  offset : Vec2;
  targetOffset : Vec2;
  offsetVelocity : Vec2;
  mousePos : Vec2;
  targetMousePos : Vec2;
  zoom : R;
  targetZoom : R;
  distortion : R;
  targetDistortion : R;
  zoomProgress : R;
  lastOffset : Vec2;
  lastZoom : R;
  videoNonce : nat;
  hoveredCellId : option Vec2;
  zoomedCellId : option Vec2
}.

Definition set_plane (v : option Uniforms) (c : ThreeContext) : ThreeContext :=
  {| plane := v; videoRef := videoRef c; isDragging := isDragging c; isZoomed :=
     isZoomed c; previousMouse := previousMouse c; clickStart := clickStart c; offset :=
     offset c; targetOffset := targetOffset c; offsetVelocity := offsetVelocity c;
     mousePos := mousePos c; targetMousePos := targetMousePos c; zoom := zoom c;
     targetZoom := targetZoom c; distortion := distortion c; targetDistortion :=
     targetDistortion c; zoomProgress := zoomProgress c; lastOffset := lastOffset c;
     lastZoom := lastZoom c; videoNonce := videoNonce c; hoveredCellId := hoveredCellId
     c; zoomedCellId := zoomedCellId c |}.
Definition set_videoRef (v : option Video) (c : ThreeContext) : ThreeContext :=
  {| plane := plane c; videoRef := v; isDragging := isDragging c; isZoomed := isZoomed
     c; previousMouse := previousMouse c; clickStart := clickStart c; offset := offset
     c; targetOffset := targetOffset c; offsetVelocity := offsetVelocity c; mousePos :=
     mousePos c; targetMousePos := targetMousePos c; zoom := zoom c; targetZoom :=
     targetZoom c; distortion := distortion c; targetDistortion := targetDistortion c;
     zoomProgress := zoomProgress c; lastOffset := lastOffset c; lastZoom := lastZoom c;
     videoNonce := videoNonce c; hoveredCellId := hoveredCellId c; zoomedCellId :=
     zoomedCellId c |}.
Definition set_isDragging (v : bool) (c : ThreeContext) : ThreeContext :=
  {| plane := plane c; videoRef := videoRef c; isDragging := v; isZoomed := isZoomed c;
     previousMouse := previousMouse c; clickStart := clickStart c; offset := offset c;
     targetOffset := targetOffset c; offsetVelocity := offsetVelocity c; mousePos :=
     mousePos c; targetMousePos := targetMousePos c; zoom := zoom c; targetZoom :=
     targetZoom c; distortion := distortion c; targetDistortion := targetDistortion c;
     zoomProgress := zoomProgress c; lastOffset := lastOffset c; lastZoom := lastZoom c;
     videoNonce := videoNonce c; hoveredCellId := hoveredCellId c; zoomedCellId :=
     zoomedCellId c |}.
Definition set_isZoomed (v : bool) (c : ThreeContext) : ThreeContext :=
  {| plane := plane c; videoRef := videoRef c; isDragging := isDragging c; isZoomed :=
     v; previousMouse := previousMouse c; clickStart := clickStart c; offset := offset
     c; targetOffset := targetOffset c; offsetVelocity := offsetVelocity c; mousePos :=
     mousePos c; targetMousePos := targetMousePos c; zoom := zoom c; targetZoom :=
     targetZoom c; distortion := distortion c; targetDistortion := targetDistortion c;
     zoomProgress := zoomProgress c; lastOffset := lastOffset c; lastZoom := lastZoom c;
     videoNonce := videoNonce c; hoveredCellId := hoveredCellId c; zoomedCellId :=
     zoomedCellId c |}.
Definition set_previousMouse (v : Vec2) (c : ThreeContext) : ThreeContext :=
  {| plane := plane c; videoRef := videoRef c; isDragging := isDragging c; isZoomed :=
     isZoomed c; previousMouse := v; clickStart := clickStart c; offset := offset c;
     targetOffset := targetOffset c; offsetVelocity := offsetVelocity c; mousePos :=
     mousePos c; targetMousePos := targetMousePos c; zoom := zoom c; targetZoom :=
     targetZoom c; distortion := distortion c; targetDistortion := targetDistortion c;
     zoomProgress := zoomProgress c; lastOffset := lastOffset c; lastZoom := lastZoom c;
     videoNonce := videoNonce c; hoveredCellId := hoveredCellId c; zoomedCellId :=
     zoomedCellId c |}.
Definition set_clickStart (v : Vec2) (c : ThreeContext) : ThreeContext :=
  {| plane := plane c; videoRef := videoRef c; isDragging := isDragging c; isZoomed :=
     isZoomed c; previousMouse := previousMouse c; clickStart := v; offset := offset c;
     targetOffset := targetOffset c; offsetVelocity := offsetVelocity c; mousePos :=
     mousePos c; targetMousePos := targetMousePos c; zoom := zoom c; targetZoom :=
     targetZoom c; distortion := distortion c; targetDistortion := targetDistortion c;
     zoomProgress := zoomProgress c; lastOffset := lastOffset c; lastZoom := lastZoom c;
     videoNonce := videoNonce c; hoveredCellId := hoveredCellId c; zoomedCellId :=
     zoomedCellId c |}.
Definition set_offset (v : Vec2) (c : ThreeContext) : ThreeContext :=
  {| plane := plane c; videoRef := videoRef c; isDragging := isDragging c; isZoomed :=
     isZoomed c; previousMouse := previousMouse c; clickStart := clickStart c; offset :=
     v; targetOffset := targetOffset c; offsetVelocity := offsetVelocity c; mousePos :=
     mousePos c; targetMousePos := targetMousePos c; zoom := zoom c; targetZoom :=
     targetZoom c; distortion := distortion c; targetDistortion := targetDistortion c;
     zoomProgress := zoomProgress c; lastOffset := lastOffset c; lastZoom := lastZoom c;
     videoNonce := videoNonce c; hoveredCellId := hoveredCellId c; zoomedCellId :=
     zoomedCellId c |}.
Definition set_targetOffset (v : Vec2) (c : ThreeContext) : ThreeContext :=
  {| plane := plane c; videoRef := videoRef c; isDragging := isDragging c; isZoomed :=
     isZoomed c; previousMouse := previousMouse c; clickStart := clickStart c; offset :=
     offset c; targetOffset := v; offsetVelocity := offsetVelocity c; mousePos :=
     mousePos c; targetMousePos := targetMousePos c; zoom := zoom c; targetZoom :=
     targetZoom c; distortion := distortion c; targetDistortion := targetDistortion c;
     zoomProgress := zoomProgress c; lastOffset := lastOffset c; lastZoom := lastZoom c;
     videoNonce := videoNonce c; hoveredCellId := hoveredCellId c; zoomedCellId :=
     zoomedCellId c |}.
Definition set_offsetVelocity (v : Vec2) (c : ThreeContext) : ThreeContext :=
  {| plane := plane c; videoRef := videoRef c; isDragging := isDragging c; isZoomed :=
     isZoomed c; previousMouse := previousMouse c; clickStart := clickStart c; offset :=
     offset c; targetOffset := targetOffset c; offsetVelocity := v; mousePos := mousePos
     c; targetMousePos := targetMousePos c; zoom := zoom c; targetZoom := targetZoom c;
     distortion := distortion c; targetDistortion := targetDistortion c; zoomProgress :=
     zoomProgress c; lastOffset := lastOffset c; lastZoom := lastZoom c; videoNonce :=
     videoNonce c; hoveredCellId := hoveredCellId c; zoomedCellId := zoomedCellId c |}.
Definition set_mousePos (v : Vec2) (c : ThreeContext) : ThreeContext :=
  {| plane := plane c; videoRef := videoRef c; isDragging := isDragging c; isZoomed :=
     isZoomed c; previousMouse := previousMouse c; clickStart := clickStart c; offset :=
     offset c; targetOffset := targetOffset c; offsetVelocity := offsetVelocity c;
     mousePos := v; targetMousePos := targetMousePos c; zoom := zoom c; targetZoom :=
     targetZoom c; distortion := distortion c; targetDistortion := targetDistortion c;
     zoomProgress := zoomProgress c; lastOffset := lastOffset c; lastZoom := lastZoom c;
     videoNonce := videoNonce c; hoveredCellId := hoveredCellId c; zoomedCellId :=
     zoomedCellId c |}.
Definition set_targetMousePos (v : Vec2) (c : ThreeContext) : ThreeContext :=
  {| plane := plane c; videoRef := videoRef c; isDragging := isDragging c; isZoomed :=
     isZoomed c; previousMouse := previousMouse c; clickStart := clickStart c; offset :=
     offset c; targetOffset := targetOffset c; offsetVelocity := offsetVelocity c;
     mousePos := mousePos c; targetMousePos := v; zoom := zoom c; targetZoom :=
     targetZoom c; distortion := distortion c; targetDistortion := targetDistortion c;
     zoomProgress := zoomProgress c; lastOffset := lastOffset c; lastZoom := lastZoom c;
     videoNonce := videoNonce c; hoveredCellId := hoveredCellId c; zoomedCellId :=
     zoomedCellId c |}.
Definition set_zoom (v : R) (c : ThreeContext) : ThreeContext :=
  {| plane := plane c; videoRef := videoRef c; isDragging := isDragging c; isZoomed :=
     isZoomed c; previousMouse := previousMouse c; clickStart := clickStart c; offset :=
     offset c; targetOffset := targetOffset c; offsetVelocity := offsetVelocity c;
     mousePos := mousePos c; targetMousePos := targetMousePos c; zoom := v; targetZoom
     := targetZoom c; distortion := distortion c; targetDistortion := targetDistortion
     c; zoomProgress := zoomProgress c; lastOffset := lastOffset c; lastZoom := lastZoom
     c; videoNonce := videoNonce c; hoveredCellId := hoveredCellId c; zoomedCellId :=
     zoomedCellId c |}.
Definition set_targetZoom (v : R) (c : ThreeContext) : ThreeContext :=
  {| plane := plane c; videoRef := videoRef c; isDragging := isDragging c; isZoomed :=
     isZoomed c; previousMouse := previousMouse c; clickStart := clickStart c; offset :=
     offset c; targetOffset := targetOffset c; offsetVelocity := offsetVelocity c;
     mousePos := mousePos c; targetMousePos := targetMousePos c; zoom := zoom c;
     targetZoom := v; distortion := distortion c; targetDistortion := targetDistortion
     c; zoomProgress := zoomProgress c; lastOffset := lastOffset c; lastZoom := lastZoom
     c; videoNonce := videoNonce c; hoveredCellId := hoveredCellId c; zoomedCellId :=
     zoomedCellId c |}.
Definition set_distortion (v : R) (c : ThreeContext) : ThreeContext :=
  {| plane := plane c; videoRef := videoRef c; isDragging := isDragging c; isZoomed :=
     isZoomed c; previousMouse := previousMouse c; clickStart := clickStart c; offset :=
     offset c; targetOffset := targetOffset c; offsetVelocity := offsetVelocity c;
     mousePos := mousePos c; targetMousePos := targetMousePos c; zoom := zoom c;
     targetZoom := targetZoom c; distortion := v; targetDistortion := targetDistortion
     c; zoomProgress := zoomProgress c; lastOffset := lastOffset c; lastZoom := lastZoom
     c; videoNonce := videoNonce c; hoveredCellId := hoveredCellId c; zoomedCellId :=
     zoomedCellId c |}.
Definition set_targetDistortion (v : R) (c : ThreeContext) : ThreeContext :=
  {| plane := plane c; videoRef := videoRef c; isDragging := isDragging c; isZoomed :=
     isZoomed c; previousMouse := previousMouse c; clickStart := clickStart c; offset :=
     offset c; targetOffset := targetOffset c; offsetVelocity := offsetVelocity c;
     mousePos := mousePos c; targetMousePos := targetMousePos c; zoom := zoom c;
     targetZoom := targetZoom c; distortion := distortion c; targetDistortion := v;
     zoomProgress := zoomProgress c; lastOffset := lastOffset c; lastZoom := lastZoom c;
     videoNonce := videoNonce c; hoveredCellId := hoveredCellId c; zoomedCellId :=
     zoomedCellId c |}.
Definition set_zoomProgress (v : R) (c : ThreeContext) : ThreeContext :=
  {| plane := plane c; videoRef := videoRef c; isDragging := isDragging c; isZoomed :=
     isZoomed c; previousMouse := previousMouse c; clickStart := clickStart c; offset :=
     offset c; targetOffset := targetOffset c; offsetVelocity := offsetVelocity c;
     mousePos := mousePos c; targetMousePos := targetMousePos c; zoom := zoom c;
     targetZoom := targetZoom c; distortion := distortion c; targetDistortion :=
     targetDistortion c; zoomProgress := v; lastOffset := lastOffset c; lastZoom :=
     lastZoom c; videoNonce := videoNonce c; hoveredCellId := hoveredCellId c;
     zoomedCellId := zoomedCellId c |}.
Definition set_lastOffset (v : Vec2) (c : ThreeContext) : ThreeContext :=
  {| plane := plane c; videoRef := videoRef c; isDragging := isDragging c; isZoomed :=
     isZoomed c; previousMouse := previousMouse c; clickStart := clickStart c; offset :=
     offset c; targetOffset := targetOffset c; offsetVelocity := offsetVelocity c;
     mousePos := mousePos c; targetMousePos := targetMousePos c; zoom := zoom c;
     targetZoom := targetZoom c; distortion := distortion c; targetDistortion :=
     targetDistortion c; zoomProgress := zoomProgress c; lastOffset := v; lastZoom :=
     lastZoom c; videoNonce := videoNonce c; hoveredCellId := hoveredCellId c;
     zoomedCellId := zoomedCellId c |}.
Definition set_lastZoom (v : R) (c : ThreeContext) : ThreeContext :=
  {| plane := plane c; videoRef := videoRef c; isDragging := isDragging c; isZoomed :=
     isZoomed c; previousMouse := previousMouse c; clickStart := clickStart c; offset :=
     offset c; targetOffset := targetOffset c; offsetVelocity := offsetVelocity c;
     mousePos := mousePos c; targetMousePos := targetMousePos c; zoom := zoom c;
     targetZoom := targetZoom c; distortion := distortion c; targetDistortion :=
     targetDistortion c; zoomProgress := zoomProgress c; lastOffset := lastOffset c;
     lastZoom := v; videoNonce := videoNonce c; hoveredCellId := hoveredCellId c;
     zoomedCellId := zoomedCellId c |}.
Definition set_videoNonce (v : nat) (c : ThreeContext) : ThreeContext :=
  {| plane := plane c; videoRef := videoRef c; isDragging := isDragging c; isZoomed :=
     isZoomed c; previousMouse := previousMouse c; clickStart := clickStart c; offset :=
     offset c; targetOffset := targetOffset c; offsetVelocity := offsetVelocity c;
     mousePos := mousePos c; targetMousePos := targetMousePos c; zoom := zoom c;
     targetZoom := targetZoom c; distortion := distortion c; targetDistortion :=
     targetDistortion c; zoomProgress := zoomProgress c; lastOffset := lastOffset c;
     lastZoom := lastZoom c; videoNonce := v; hoveredCellId := hoveredCellId c;
     zoomedCellId := zoomedCellId c |}.
Definition set_hoveredCellId (v : option Vec2) (c : ThreeContext) : ThreeContext :=
  {| plane := plane c; videoRef := videoRef c; isDragging := isDragging c; isZoomed :=
     isZoomed c; previousMouse := previousMouse c; clickStart := clickStart c; offset :=
     offset c; targetOffset := targetOffset c; offsetVelocity := offsetVelocity c;
     mousePos := mousePos c; targetMousePos := targetMousePos c; zoom := zoom c;
     targetZoom := targetZoom c; distortion := distortion c; targetDistortion :=
     targetDistortion c; zoomProgress := zoomProgress c; lastOffset := lastOffset c;
     lastZoom := lastZoom c; videoNonce := videoNonce c; hoveredCellId := v;
     zoomedCellId := zoomedCellId c |}.
Definition set_zoomedCellId (v : option Vec2) (c : ThreeContext) : ThreeContext :=
  {| plane := plane c; videoRef := videoRef c; isDragging := isDragging c; isZoomed :=
     isZoomed c; previousMouse := previousMouse c; clickStart := clickStart c; offset :=
     offset c; targetOffset := targetOffset c; offsetVelocity := offsetVelocity c;
     mousePos := mousePos c; targetMousePos := targetMousePos c; zoom := zoom c;
     targetZoom := targetZoom c; distortion := distortion c; targetDistortion :=
     targetDistortion c; zoomProgress := zoomProgress c; lastOffset := lastOffset c;
     lastZoom := lastZoom c; videoNonce := videoNonce c; hoveredCellId := hoveredCellId
     c; zoomedCellId := v |}.

Definition on_plane (f : Uniforms -> Uniforms) (c : ThreeContext) : ThreeContext :=
  set_plane (option_map f (plane c)) c.

Definition on_video (f : Video -> Video) (c : ThreeContext) : ThreeContext :=
  set_videoRef (option_map f (videoRef c)) c.

(** ** hookUtils.ts, [screenToWorld] *)

Definition screenToWorld (screenPos : Vec2) (context : ThreeContext) : Vec2 :=
  match plane context with
  | None => Vector2.zero
  | Some uniforms =>
      let res := uResolution uniforms in
      let ndc :=
        vec2 (Vector2.x screenPos / Vector2.x res * 2 - 1)
             (- (Vector2.y screenPos / Vector2.y res) * 2 + 1) in
      let distorted :=
        Vector2.multiplyScalar ndc
          (1 - distortion context * (8 / 100) * Vector2.length ndc * Vector2.length ndc) in
      let aspect := vec2 (Vector2.x res / Vector2.y res) 1 in
      Vector2.add
        (Vector2.multiplyScalar (Vector2.multiply distorted aspect) (zoom context))
        (offset context)
  end.

(** [Math.floor] of a number, as a number. *)
Definition floor (r : R) : R := IZR (Zfloor r).

(** The cell under a screen position, as both useInteraction ([tappedCellId])
    and useAnimationLoop ([currentCellId]) compute it:
    [new THREE.Vector2(Math.floor(worldCoord.x / currentCellSize),
                       Math.floor(worldCoord.y / currentCellSize))]. *)
Definition cellIdAt (screenPos : Vec2) (context : ThreeContext) (uniforms : Uniforms)
  : Vec2 :=
  let worldCoord := screenToWorld screenPos context in
  let currentCellSize := uCellSize uniforms in
  vec2 (floor (Vector2.x worldCoord / currentCellSize))
       (floor (Vector2.y worldCoord / currentCellSize)).

(** [Math.sign] *)
Definition sign (r : R) : R :=
  if Rlt_dec 0 r then 1 else if Rlt_dec r 0 then -1 else 0.

(** ** The state outside the context

    [zoomedProject] and [cursor] are React state; [pending] holds the calls of
    the async function [setVideoState] that are suspended at an [await];
    [warnings] is what [console.warn] has printed. *)

Inductive Cursor : Type := grab | grabbing.

Inductive AwaitPoint : Type :=
| AwaitLoad          (* [await videoRef.load()] *)
| AwaitPlay.         (* [await videoRef.play()] *)

(** A suspended call: the locals its continuation reads. *)
Record VideoRequest : Type := mkRequest {
  currentNonce : nat;
  cellId : option Vec2;
  newSrc : string;
  awaiting : AwaitPoint
}.

Record World : Type := mkWorld {
  context : ThreeContext;
  zoomedProject : lookup;
  cursor : Cursor;
  pending : list VideoRequest;
  warnings : list string
}.

Definition on_context (f : ThreeContext -> ThreeContext) (w : World) : World :=
  {| context := f (context w); zoomedProject := zoomedProject w; cursor := cursor w;
     pending := pending w; warnings := warnings w |}.

Definition setZoomedProject (p : lookup) (w : World) : World :=
  {| context := context w; zoomedProject := p; cursor := cursor w;
     pending := pending w; warnings := warnings w |}.

Definition setCursor (k : Cursor) (w : World) : World :=
  {| context := context w; zoomedProject := zoomedProject w; cursor := k;
     pending := pending w; warnings := warnings w |}.

Definition suspend (r : VideoRequest) (w : World) : World :=
  {| context := context w; zoomedProject := zoomedProject w; cursor := cursor w;
     pending := r :: pending w; warnings := warnings w |}.

Definition set_pending (l : list VideoRequest) (w : World) : World :=
  {| context := context w; zoomedProject := zoomedProject w; cursor := cursor w;
     pending := l; warnings := warnings w |}.

Definition console_warn (msg : string) (w : World) : World :=
  {| context := context w; zoomedProject := zoomedProject w; cursor := cursor w;
     pending := pending w; warnings := msg :: warnings w |}.

(** [videoRef.pause()], [videoRef.play()] (the attribute it sets at once) and
    [videoRef.src = newSrc; videoRef.load()] on an element that is paused. *)
Definition pause (v : Video) : Video := {| src := src v; paused := true |}.
Definition play (v : Video) : Video := {| src := src v; paused := false |}.
Definition load (newSrc : string) (v : Video) : Video :=
  {| src := newSrc; paused := paused v |}.

Section Hooks.

(** [props.projects] *)
Variable projects : option (list Project).

(** *** useVideoManager.ts, [setVideoState]

    The async function is cut at its two [await]s.  [startPlayback] is the
    stretch from [uHoveredCellId.value.copy(cellId)] to [await
    videoRef.play()]; a [null] cellId makes [copy] throw inside the [try],
    and the [catch] warns (the error is no AbortError). *)
Definition startPlayback (r : VideoRequest) (w : World) : World :=
  match cellId r with
  | None => console_warn (newSrc r) w
  | Some c =>
      let w := on_context (on_plane (set_uHoveredCellId c)) w in
      let w := on_context (on_video play) w in
      suspend {| currentNonce := currentNonce r; cellId := cellId r;
                 newSrc := newSrc r; awaiting := AwaitPlay |} w
  end.

(** The call itself, up to its first [await] or its [return]. *)
Definition setVideoState (cellId : option Vec2) (w : World) : World :=
  let currentNonce := S (videoNonce (context w)) in
  let w := on_context (set_videoNonce currentNonce) w in
  match videoRef (context w), plane (context w) with
  | Some videoRef, Some _ =>
      let project := getProjectByCellId cellId projects in
      let newSrc := video_of project in
      let w := on_context (on_plane (set_uIsVideoActive false)) w in
      let w := if paused videoRef then w else on_context (on_video pause) w in
      match newSrc with
      | None => w
      | Some s =>
          if falsy_src newSrc then w
          else if negb (currentNonce =? videoNonce (context w))%nat then w
          else
            let r := {| currentNonce := currentNonce; cellId := cellId;
                        newSrc := s; awaiting := AwaitLoad |} in
            if String.eqb (src videoRef) s
            then startPlayback r w
            else suspend r (on_context (on_video (load s)) w)
      end
  | _, _ => w
  end.

(** The continuation after [await videoRef.load()]. *)
Definition loadResolved (r : VideoRequest) (w : World) : World :=
  startPlayback r w.

(** The continuation after [await videoRef.play()] resolved: the final
    check on the nonce. *)
Definition playResolved (r : VideoRequest) (w : World) : World :=
  if (currentNonce r =? videoNonce (context w))%nat
  then on_context (on_plane (set_uIsVideoActive true)) w
  else w.

(** The [catch], entered when [videoRef.play()] rejected with an error
    named [name]. *)
Definition playRejected (name : string) (r : VideoRequest) (w : World) : World :=
  if String.eqb name "AbortError" then w else console_warn (newSrc r) w.

(** The continuation after [await videoRef.load()] is a microtask ([load]
    returns [undefined]): it runs when the task that made the call ends,
    before any other task.  [microtasksDone] says that none is waiting. *)
Definition microtasksDone (w : World) : Prop :=
  Forall (fun r => awaiting r = AwaitPlay) (pending w).

(** One suspended call is resumed.  The promise of [play()] settles when the
    browser decides; a rejection carries the name of its error. *)
Inductive resume : World -> World -> Prop :=
| resume_load : forall w before r after,
    pending w = before ++ r :: after ->
    awaiting r = AwaitLoad ->
    resume w (loadResolved r (set_pending (before ++ after) w))
| resume_play : forall w before r after,
    pending w = before ++ r :: after ->
    awaiting r = AwaitPlay ->
    resume w (playResolved r (set_pending (before ++ after) w))
| resume_play_error : forall w before r after name,
    pending w = before ++ r :: after ->
    awaiting r = AwaitPlay ->
    resume w (playRejected name r (set_pending (before ++ after) w)).

(** Any number of resumptions. *)
Inductive resumes : World -> World -> Prop :=
| resumes_refl : forall w, resumes w w
| resumes_step : forall w w' w'', resumes w w' -> resume w' w'' -> resumes w w''.

(** *** useInteraction.ts *)

Definition navigateToCell (cellId : Vec2) (isInitialZoom : bool) (w : World) : World :=
  match plane (context w) with
  | None => w
  | Some _ =>
      let project := getProjectByCellId (Some cellId) projects in
      let w := setZoomedProject project w in
      let w := setVideoState (Some cellId) w in
      let w :=
        if isInitialZoom then
          on_context (fun c =>
            let c := set_lastOffset (targetOffset c) c in
            let c := set_lastZoom (targetZoom c) c in
            let c := set_targetZoom AnimationConfig.zoomedInLevel c in
            let c := set_targetDistortion 0 c in
            set_isZoomed true c) w
        else w in
      match plane (context w) with
      | None => w
      | Some uniforms =>
          let currentCellSize := uCellSize uniforms in
          on_context (fun c =>
            let c := set_targetOffset
                       (Vector2.multiplyScalar (Vector2.addScalar cellId (1 / 2))
                                               currentCellSize) c in
            set_zoomedCellId (Some cellId) c) w
      end
  end.

Definition unzoom (w : World) : World :=
  let w := on_context (fun c =>
             let c := set_targetOffset (lastOffset c) c in
             let c := set_targetZoom (lastZoom c) c in
             let c := set_targetDistortion 1 c in
             let c := set_isZoomed false c in
             set_zoomedCellId None c) w in
  let w := setVideoState None w in
  setZoomedProject Null w.

(** [delta.length() < AnimationConfig.tapThreshold] and
    [delta.length() > AnimationConfig.swipeThreshold] *)
Definition isTap (delta : Vec2) : bool :=
  Rltb (Vector2.length delta) AnimationConfig.tapThreshold.
Definition isSwipe (delta : Vec2) : bool :=
  Rgtb (Vector2.length delta) AnimationConfig.swipeThreshold.

(** [Some] of the state the handler leaves, [None] when it throws (reading
    [zoomedCellId.x] of a [null] zoomedCellId). *)
Definition handleInteraction (clickPos delta : Vec2) (w : World) : option World :=
  let context := context w in
  match plane context with
  | None => Some w
  | Some uniforms =>
      let tappedCellId := cellIdAt clickPos context uniforms in
      let isTap := isTap delta in
      let isSwipe := isSwipe delta in
      if isZoomed context then
        if isTap then
          match zoomedCellId context with
          | None => None
          | Some zoomedCellId =>
              if Vector2.equals tappedCellId zoomedCellId then Some (unzoom w)
              else Some (navigateToCell tappedCellId false w)
          end
        else if isSwipe then
          match zoomedCellId context with
          | None => None
          | Some zoomedCellId =>
              let nextCell :=
                if Rgtb (Rabs (Vector2.x delta)) (Rabs (Vector2.y delta))
                then vec2 (Vector2.x zoomedCellId - sign (Vector2.x delta))
                          (Vector2.y zoomedCellId)
                else vec2 (Vector2.x zoomedCellId)
                          (Vector2.y zoomedCellId + sign (Vector2.y delta)) in
              Some (navigateToCell nextCell false w)
          end
        else Some w
      else if isTap then Some (navigateToCell tappedCellId true w)
      else Some w
  end.

(** *** useAnimationLoop.ts, [animate]: one frame *)

(** 1. Spring physics on the camera offset. *)
Definition integrateOffset (c : ThreeContext) : ThreeContext :=
  let force :=
    Vector2.multiplyScalar (Vector2.sub (targetOffset c) (offset c))
                           AnimationConfig.springStiffness in
  let velocity :=
    Vector2.multiplyScalar (Vector2.add (offsetVelocity c) force)
                           AnimationConfig.damping in
  set_offset (Vector2.add (offset c) velocity) (set_offsetVelocity velocity c).

(** The four lerps toward the targets. *)
Definition lerpTowardTargets (c : ThreeContext) : ThreeContext :=
  let lerpFactor := AnimationConfig.lerpFactor in
  let c := set_mousePos (Vector2.lerp (mousePos c) (targetMousePos c) lerpFactor) c in
  let c := set_zoom (zoom c + (targetZoom c - zoom c) * lerpFactor) c in
  let c := set_distortion
             (distortion c + (targetDistortion c - distortion c) * lerpFactor) c in
  set_zoomProgress
    (zoomProgress c + ((if isZoomed c then 1 else 0) - zoomProgress c) * lerpFactor) c.

(** 2. The hovered cell, when not zoomed. *)
Definition detectHover (uniforms : Uniforms) (w : World) : World :=
  let c := context w in
  if isZoomed c then w
  else
    let currentCellId := cellIdAt (targetMousePos c) c uniforms in
    let changed :=
      match hoveredCellId c with
      | None => true
      | Some h => negb (Vector2.equals currentCellId h)
      end in
    if changed
    then setVideoState (Some currentCellId)
           (on_context (set_hoveredCellId (Some currentCellId)) w)
    else w.

(** Panning while dragging. *)
Definition dragPan (uniforms : Uniforms) (c : ThreeContext) : ThreeContext :=
  let res := uResolution uniforms in
  if isDragging c && negb (isZoomed c) && Rgtb (Vector2.y res) 0 then
    let delta := Vector2.sub (targetMousePos c) (previousMouse c) in
    let moveSpeed := 2 / Vector2.y res in
    let aspect := Vector2.x res / Vector2.y res in
    let c := set_targetOffset
               (vec2 (Vector2.x (targetOffset c)
                        - Vector2.x delta * moveSpeed * zoom c * aspect)
                     (Vector2.y (targetOffset c)
                        + Vector2.y delta * moveSpeed * zoom c)) c in
    set_previousMouse (targetMousePos c) c
  else c.

(** 3. [Object.assign(plane.material.uniforms, { uZoom, uDistortionStrength,
    uZoomProgress, uTime })]. *)
Definition pushUniforms (c : ThreeContext) : ThreeContext :=
  on_plane (fun u =>
    let u := set_uZoom (zoom c) u in
    let u := set_uDistortionStrength (distortion c) u in
    let u := set_uZoomProgress (zoomProgress c) u in
    set_uTime (uTime u + 16 / 1000) u) c.

(** The frame.  The effect installs [animate] only once the scene is
    initialized, so it never runs without a plane. *)
Definition animate (w : World) : World :=
  match plane (context w) with
  | None => w
  | Some _ =>
      let w := on_context integrateOffset w in
      let w := on_context lerpTowardTargets w in
      let w := match plane (context w) with
               | Some uniforms => detectHover uniforms w
               | None => w
               end in
      let w := match plane (context w) with
               | Some uniforms => on_context (dragPan uniforms) w
               | None => w
               end in
      on_context pushUniforms w
  end.

(** *** useEventHandlers.ts *)

Definition onPointerDown (clientX clientY : R) (w : World) : World :=
  match plane (context w) with
  | None => w
  | Some _ =>
      let w := on_context (set_isDragging true) w in
      let w := setCursor grabbing w in
      let w := on_context (set_previousMouse (vec2 clientX clientY)) w in
      on_context (set_clickStart (vec2 clientX clientY)) w
  end.

Definition onPointerUp (clientX clientY : R) (w : World) : option World :=
  match plane (context w) with
  | None => Some w
  | Some _ =>
      let clickEnd := vec2 clientX clientY in
      let delta := Vector2.sub clickEnd (clickStart (context w)) in
      match handleInteraction clickEnd delta w with
      | None => None
      | Some w => Some (setCursor grab (on_context (set_isDragging false) w))
      end
  end.

Definition onPointerMove (clientX clientY : R) (w : World) : World :=
  match plane (context w) with
  | None => w
  | Some _ => on_context (set_targetMousePos (vec2 clientX clientY)) w
  end.

Definition onPointerLeave (clientX clientY : R) (w : World) : option World :=
  match plane (context w) with
  | None => Some w
  | Some _ => if isDragging (context w) then onPointerUp clientX clientY w else Some w
  end.

(** [deltaMode] 1 counts lines, 2 counts pages of the window. *)
Definition onWheel (deltaX deltaY : R) (deltaMode : nat) (innerWidth innerHeight : R)
                   (w : World) : World :=
  let c := context w in
  match plane c with
  | None => w
  | Some uniforms =>
      if isZoomed c then w
      else
        let res := uResolution uniforms in
        let aspectRatio := Vector2.x res / Vector2.y res in
        let '(deltaX, deltaY) :=
          match deltaMode with
          | 1%nat => (deltaX * 18, deltaY * 18)
          | 2%nat => (deltaX * innerWidth, deltaY * innerHeight)
          | _ => (deltaX, deltaY)
          end in
        on_context (set_targetOffset
          (vec2 (Vector2.x (targetOffset c)
                   + deltaX * AnimationConfig.scrollSpeed * zoom c * aspectRatio)
                (Vector2.y (targetOffset c)
                   - deltaY * AnimationConfig.scrollSpeed * zoom c))) w
  end.

(** *** useUniforms.ts (the effect on the scalar uniforms), useResizeObserver.ts
    and the end of useTextureManager.ts *)

Definition useUniforms (cellSize distortionStrength : R) (w : World) : World :=
  on_context (on_plane (fun u =>
    set_uDistortionStrength distortionStrength (set_uCellSize cellSize u))) w.

Definition onResize (clientWidth clientHeight : R) (w : World) : World :=
  on_context (on_plane (set_uResolution (vec2 clientWidth clientHeight))) w.

Definition texturesReady (w : World) : World :=
  match projects with
  | Some (p :: ps) =>
      on_context (on_plane (set_uTextureCount (INR (List.length (p :: ps))))) w
  | _ => w
  end.

(** *** The state useInteractiveGrid and useThreeSetup start from *)

Definition initialUniforms : Uniforms :=
  {| uResolution := Vector2.zero; uCellSize := 75 / 100; uZoom := 1;
     uDistortionStrength := 1; uZoomProgress := 0; uTime := 0; uTextureCount := 0;
     uHoveredCellId := vec2 (-999) (-999); uIsVideoActive := false;
     uHoverEnabled := true; uOptimizeMobile := true |}.

Definition initialContext : ThreeContext :=
  {| plane := Some initialUniforms; videoRef := None;
     isDragging := AnimationConfig.initialState.isDragging;
     isZoomed := AnimationConfig.initialState.isZoomed;
     previousMouse := Vector2.zero; clickStart := Vector2.zero;
     offset := Vector2.zero; targetOffset := Vector2.zero;
     offsetVelocity := Vector2.zero;
     mousePos := vec2 (-1) (-1); targetMousePos := vec2 (-1) (-1);
     zoom := AnimationConfig.initialState.zoom;
     targetZoom := AnimationConfig.initialState.targetZoom;
     distortion := AnimationConfig.initialState.distortion;
     targetDistortion := AnimationConfig.initialState.targetDistortion;
     zoomProgress := AnimationConfig.initialState.zoomProgress;
     lastOffset := Vector2.zero;
     lastZoom := AnimationConfig.initialState.lastZoom;
     videoNonce := AnimationConfig.initialState.videoNonce;
     hoveredCellId := Some (vec2 (-999) (-999));
     zoomedCellId := None |}.

Definition initialWorld : World :=
  {| context := initialContext; zoomedProject := Null; cursor := grab;
     pending := []; warnings := [] |}.

(** useVideoManager's effect: the element is created, looping, muted and
    not playing. *)
Definition createVideo (w : World) : World :=
  on_context (set_videoRef (Some {| src := EmptyString; paused := true |})) w.

(** *** Everything that can happen to a mounted grid

    A suspended call is resumed, or a task runs: a frame, a pointer or wheel
    event, an effect.  Tasks start with no microtask waiting. *)

Inductive step : World -> World -> Prop :=
| step_resume : forall w w', resume w w' -> step w w'
| step_frame : forall w, microtasksDone w -> step w (animate w)
| step_down : forall w px py, microtasksDone w -> step w (onPointerDown px py w)
| step_up : forall w w' px py,
    microtasksDone w -> onPointerUp px py w = Some w' -> step w w'
| step_move : forall w px py, microtasksDone w -> step w (onPointerMove px py w)
| step_leave : forall w w' px py,
    microtasksDone w -> onPointerLeave px py w = Some w' -> step w w'
| step_wheel : forall w dx dy mode iw ih,
    microtasksDone w -> step w (onWheel dx dy mode iw ih w)
| step_props : forall w cellSize distortionStrength,
    microtasksDone w -> step w (useUniforms cellSize distortionStrength w)
| step_resize : forall w cw ch, microtasksDone w -> step w (onResize cw ch w)
| step_textures : forall w, microtasksDone w -> step w (texturesReady w)
| step_video : forall w,
    microtasksDone w -> videoRef (context w) = None -> step w (createVideo w).

Inductive reachable : World -> Prop :=
| reachable_initial : reachable initialWorld
| reachable_step : forall w w', reachable w -> step w w' -> reachable w'.

End Hooks.

(** ** shaders.ts: the fragment shader

    GLSL built-ins are written out with their defining formulas
    ([smoothstep] by its clamp-and-Hermite formula also when the edges are
    given in decreasing order, as the shader does; [pow(x, 2.0)] as [x * x],
    its value for the non-negative [x] the shader passes). *)

Module Shader.

Record vec3 : Type := mk3 { r : R; g : R; b : R }.
Record vec4 : Type := mk4 { rgb : vec3; a : R }.

Definition sampler2D : Type := Vec2 -> vec4.

Definition clamp (v lo hi : R) : R := Rmin (Rmax v lo) hi.
Definition smoothstep (edge0 edge1 v : R) : R :=
  let t := clamp ((v - edge0) / (edge1 - edge0)) 0 1 in
  t * t * (3 - 2 * t).
Definition mix (u v t : R) : R := u * (1 - t) + v * t.
Definition mix3 (u v : vec3) (t : R) : vec3 :=
  mk3 (mix (r u) (r v) t) (mix (g u) (g v) t) (mix (b u) (b v) t).
Definition scale3 (u : vec3) (s : R) : vec3 := mk3 (r u * s) (g u * s) (b u * s).
Definition fract (v : R) : R := v - floor v.
Definition ceil (v : R) : R := - floor (- v).
Definition mod_ (u v : R) : R := u - v * floor (u / v).
Definition texture (s : sampler2D) (uv : Vec2) : vec4 := s uv.

Definition PI : R := 31415926535 / 10000000000.
Definition LINE_WIDTH : R := 5 / 1000.
Definition IMAGE_SIZE : R := 6 / 10.
Definition TEXT_HEIGHT : R := 8 / 100.

(** The uniforms as the program sees them in one draw call. *)
Record uniforms : Type := mkU {
  uOffset : Vec2;
  uResolution : Vec2;
  uMousePos : Vec2;
  uZoom : R;
  uCellSize : R;
  uBorderColor : vec4;
  uHoverColor : vec4;
  uBackgroundColor : vec4;
  uTextureCount : R;
  uImageAtlas : sampler2D;
  uTextAtlas : sampler2D;
  uActiveVideo : sampler2D;
  uDistortionStrength : R;
  uHoveredCellId : Vec2;
  uIsVideoActive : bool;
  uZoomProgress : R;
  uTime : R;
  uIsMobile : bool;
  uHoverEnabled : bool;
  uOptimizeMobile : bool
}.

Section Program.

Variable U : uniforms.

Definition drawGrid (color : vec3) (cellUV mouseWorldCoord cellId : Vec2) : vec3 :=
  let gridMask :=
    smoothstep 0 LINE_WIDTH (Vector2.x cellUV)
    * smoothstep 1 (1 - LINE_WIDTH) (Vector2.x cellUV)
    * smoothstep 0 LINE_WIDTH (Vector2.y cellUV)
    * smoothstep 1 (1 - LINE_WIDTH) (Vector2.y cellUV) in
  let distToMouseHover :=
    Vector2.length
      (Vector2.sub mouseWorldCoord
         (Vector2.multiplyScalar (Vector2.addScalar cellId (1 / 2)) (uCellSize U))) in
  let hoverRadius := uCellSize U * (15 / 10) in
  let s := smoothstep hoverRadius 0 distToMouseHover in
  let hoverIntensity := s * s in
  let isHovered :=
    uHoverEnabled U && Rgtb hoverIntensity 0 && Rgtb (Vector2.x (uMousePos U)) 0 in
  let color :=
    if isHovered
    then mix3 color (rgb (uHoverColor U)) (hoverIntensity * a (uHoverColor U))
    else color in
  mix3 color (rgb (uBorderColor U)) ((1 - gridMask) * a (uBorderColor U)).

(** [texIndex], [atlasSize] and [atlasUV], as drawImage and drawText both
    compute them. *)
Definition atlasUV (cellId uv : Vec2) : Vec2 :=
  let texIndex :=
    mod_ (floor (Vector2.x cellId) + floor (Vector2.y cellId) * 3)
         (uTextureCount U) in
  let atlasSize := ceil (sqrt (uTextureCount U)) in
  vec2 ((mod_ texIndex atlasSize + Vector2.x uv) / atlasSize)
       ((floor (texIndex / atlasSize) + Vector2.y uv) / atlasSize).

Definition drawImage (color : vec3) (cellUV cellId : Vec2)
                     (hoverIntensity effectIntensity : R) : vec3 :=
  let hoverScale := 1 + hoverIntensity * (5 / 100) in
  let imageUV :=
    vec2 ((Vector2.x cellUV - (1 - IMAGE_SIZE * hoverScale) * (1 / 2))
            / (IMAGE_SIZE * hoverScale))
         ((Vector2.y cellUV - (1 - IMAGE_SIZE * hoverScale) * (1 / 2))
            / (IMAGE_SIZE * hoverScale)) in
  let imageAlpha :=
    smoothstep 0 (1 / 100) (Vector2.x imageUV)
    * smoothstep 1 (99 / 100) (Vector2.x imageUV)
    * smoothstep 0 (1 / 100) (Vector2.y imageUV)
    * smoothstep 1 (99 / 100) (Vector2.y imageUV) in
  if Rgtb imageAlpha 0 then
    let isHoveredCell :=
      uIsVideoActive U
      && Reqb (Vector2.x cellId) (Vector2.x (uHoveredCellId U))
      && Reqb (Vector2.y cellId) (Vector2.y (uHoveredCellId U)) in
    let imageColor :=
      if isHoveredCell then rgb (texture (uActiveVideo U) imageUV)
      else
        let uv := atlasUV cellId imageUV in
        let caOffset := if uOptimizeMobile U then 0 else effectIntensity * (1 / 100) in
        mk3 (r (rgb (texture (uImageAtlas U) (Vector2.add uv (vec2 caOffset 0)))))
            (g (rgb (texture (uImageAtlas U) uv)))
            (b (rgb (texture (uImageAtlas U) (Vector2.sub uv (vec2 caOffset 0))))) in
    mix3 color imageColor imageAlpha
  else color.

Definition drawText (color : vec3) (cellUV cellId : Vec2) (hoverIntensity : R)
  : vec3 :=
  if Rgtb (Vector2.x cellUV) (5 / 100) && Rltb (Vector2.x cellUV) (95 / 100)
     && Rgtb (Vector2.y cellUV) (5 / 100)
     && Rltb (Vector2.y cellUV) (5 / 100 + TEXT_HEIGHT)
  then
    let textUV :=
      vec2 ((Vector2.x cellUV - 5 / 100) / (9 / 10))
           ((Vector2.y cellUV - 5 / 100) / TEXT_HEIGHT) in
    let textColor := texture (uTextAtlas U) (atlasUV cellId textUV) in
    let finalTextColor := mix3 (rgb textColor) (mk3 1 1 1) (hoverIntensity * (1 / 2)) in
    mix3 color finalTextColor (a textColor)
  else color.

(** getSceneColor, step 1 and step 2: [screenUV], [radius] and the world
    coordinates of the fragment and of the mouse. *)
Definition screenUV (uv : Vec2) : Vec2 :=
  Vector2.multiplyScalar (Vector2.addScalar uv (- (1 / 2))) 2.

Definition aspectRatio : Vec2 :=
  vec2 (Vector2.x (uResolution U) / Vector2.y (uResolution U)) 1.

Definition mouseWorldCoord : Vec2 :=
  let m := vec2 (Vector2.x (uMousePos U) / Vector2.x (uResolution U) * 2 - 1)
                (Vector2.y (uMousePos U) / Vector2.y (uResolution U) * 2 - 1) in
  let mouseScreenUV := vec2 (Vector2.x m) (- Vector2.y m) in
  Vector2.add
    (Vector2.multiplyScalar (Vector2.multiply mouseScreenUV aspectRatio) (uZoom U))
    (uOffset U).

(** Steps 1 and 3: the distorted, zoomed, panned and rippled world
    coordinate of the fragment. *)
Definition worldCoord (uv : Vec2) : Vec2 :=
  let radius := Vector2.length (screenUV uv) in
  let distortion := 1 - uDistortionStrength U * (8 / 100) * radius * radius in
  let distortedUV := Vector2.multiplyScalar (screenUV uv) distortion in
  let worldCoord := Vector2.multiply distortedUV aspectRatio in
  let worldCoord := Vector2.multiplyScalar worldCoord (uZoom U) in
  let worldCoord := Vector2.add worldCoord (uOffset U) in
  if negb (uOptimizeMobile U) then
    let distToMouseRipple := Vector2.length (Vector2.sub mouseWorldCoord worldCoord) in
    let rippleFalloff := smoothstep (uCellSize U * (15 / 10)) 0 distToMouseRipple in
    let ripple :=
      sin (distToMouseRipple * 12 - uTime U * 3) * rippleFalloff * (2 / 1000) in
    Vector2.addScalar worldCoord ripple
  else worldCoord.

(** Step 4: [cellPos], [cellId = floor(cellPos)], [cellUV = fract(cellPos)]. *)
Definition cellPos (uv : Vec2) : Vec2 :=
  vec2 (Vector2.x (worldCoord uv) / uCellSize U)
       (Vector2.y (worldCoord uv) / uCellSize U).
Definition cellId (uv : Vec2) : Vec2 :=
  vec2 (floor (Vector2.x (cellPos uv))) (floor (Vector2.y (cellPos uv))).
Definition cellUV (uv : Vec2) : Vec2 :=
  vec2 (fract (Vector2.x (cellPos uv))) (fract (Vector2.y (cellPos uv))).

Definition getSceneColor (uv : Vec2) (effectIntensity : R) : vec4 :=
  let radius := Vector2.length (screenUV uv) in
  let distToMouseHover :=
    Vector2.length
      (Vector2.sub mouseWorldCoord
         (Vector2.multiplyScalar (Vector2.addScalar (cellId uv) (1 / 2))
                                 (uCellSize U))) in
  let s := smoothstep (uCellSize U * (15 / 10)) 0 distToMouseHover in
  let hoverIntensity := s * s in
  let color := rgb (uBackgroundColor U) in
  let color := drawGrid color (cellUV uv) mouseWorldCoord (cellId uv) in
  let color := drawImage color (cellUV uv) (cellId uv) hoverIntensity effectIntensity in
  let color := drawText color (cellUV uv) (cellId uv) hoverIntensity in
  mk4 (scale3 color (1 - smoothstep (12 / 10) (18 / 10) radius)) 1.

Definition add4 (u v : vec4) : vec4 :=
  mk4 (mk3 (r (rgb u) + r (rgb v)) (g (rgb u) + g (rgb v)) (b (rgb u) + b (rgb v)))
      (a u + a v).
Definition div4 (u : vec4) (s : R) : vec4 :=
  mk4 (mk3 (r (rgb u) / s) (g (rgb u) / s) (b (rgb u) / s)) (a u / s).
Definition normalize (v : Vec2) : Vec2 :=
  vec2 (Vector2.x v / Vector2.length v) (Vector2.y v / Vector2.length v).

(** [main]: six samples along the blur vector during a zoom transition,
    one sample otherwise. *)
Definition main (vUv : Vec2) : vec4 :=
  let effectIntensity := sin (uZoomProgress U * PI) in
  if Rgtb effectIntensity (1 / 100) && negb (uOptimizeMobile U) then
    let blurVector :=
      Vector2.multiplyScalar (normalize (Vector2.addScalar vUv (- (1 / 2))))
                             (effectIntensity * (3 / 100)) in
    let sample (i : nat) :=
      getSceneColor
        (Vector2.sub vUv (Vector2.multiplyScalar blurVector (INR i / INR (6 - 1))))
        effectIntensity in
    div4 (fold_left (fun acc i => add4 acc (sample i)) (seq 0 6)
                    (mk4 (mk3 0 0 0) 0))
         (INR 6)
  else getSceneColor vUv 0.

End Program.

(** The [vUv] of the fragment at client position [(px, py)]: the plane
    fills the viewport and its texture coordinates run from 0 to 1, y up,
    while client coordinates run y down (the shader's own
    [mouseScreenUV] uses the same correspondence). *)
Definition fragCoord (res screenPos : Vec2) : Vec2 :=
  vec2 (Vector2.x screenPos / Vector2.x res)
       (1 - Vector2.y screenPos / Vector2.y res).

End Shader.

(** The draw call at the end of a frame: the uniforms of the plane, with
    [uOffset] and [uMousePos] read through the context they alias; the
    colours and the textures are whatever is bound. *)
Definition bindUniforms (c : ThreeContext) (u : Uniforms)
                        (border hover background : Shader.vec4)
                        (imageAtlas textAtlas activeVideo : Shader.sampler2D)
                        (isMobile : bool)
  : Shader.uniforms :=
  {| Shader.uOffset := offset c; Shader.uResolution := uResolution u;
     Shader.uMousePos := mousePos c; Shader.uZoom := uZoom u;
     Shader.uCellSize := uCellSize u;
     Shader.uBorderColor := border; Shader.uHoverColor := hover;
     Shader.uBackgroundColor := background;
     Shader.uTextureCount := uTextureCount u;
     Shader.uImageAtlas := imageAtlas; Shader.uTextAtlas := textAtlas;
     Shader.uActiveVideo := activeVideo;
     Shader.uDistortionStrength := uDistortionStrength u;
     Shader.uHoveredCellId := uHoveredCellId u;
     Shader.uIsVideoActive := uIsVideoActive u;
     Shader.uZoomProgress := uZoomProgress u; Shader.uTime := uTime u;
     Shader.uIsMobile := isMobile;
     Shader.uHoverEnabled := uHoverEnabled u;
     Shader.uOptimizeMobile := uOptimizeMobile u |}.

(** ** constants.ts *)

Definition DEFAULT_PROJECTS : list Project :=
  [
    {| title := "Motion Study";
       image := "https://storage.googleapis.com/gtv-videos-bucket/sample/images/Sintel.jpg";
       year := 2024;
       href := "https://example.com/project/motion-study";
       video := Some "https://storage.googleapis.com/gtv-videos-bucket/sample/Sintel.mp4" |};
    {| title := "Idle Form";
       image := "https://storage.googleapis.com/gtv-videos-bucket/sample/images/WhatCarCanYouGetForAGrand.jpg";
       year := 2023;
       href := "https://example.com/project/idle-form";
       video := Some "https://storage.googleapis.com/gtv-videos-bucket/sample/WhatCarCanYouGetForAGrand.mp4" |};
    {| title := "Blur Signal";
       image := "https://storage.googleapis.com/gtv-videos-bucket/sample/images/ForBiggerMeltdowns.jpg";
       year := 2024;
       href := "https://example.com/project/blur-signal";
       video := Some "https://storage.googleapis.com/gtv-videos-bucket/sample/ForBiggerMeltdowns.mp4" |};
    {| title := "Data Weave";
       image := "https://storage.googleapis.com/gtv-videos-bucket/sample/images/TearsOfSteel.jpg";
       year := 2022;
       href := "https://example.com/project/data-weave";
       video := Some "https://storage.googleapis.com/gtv-videos-bucket/sample/TearsOfSteel.mp4" |};
    {| title := "Future Echo";
       image := "https://storage.googleapis.com/gtv-videos-bucket/sample/images/ElephantsDream.jpg";
       year := 2023;
       href := "https://example.com/project/future-echo";
       video := Some "https://storage.googleapis.com/gtv-videos-bucket/sample/ElephantsDream.mp4" |};
    {| title := "Kinetic UI";
       image := "https://storage.googleapis.com/gtv-videos-bucket/sample/images/ForBiggerJoyrides.jpg";
       year := 2024;
       href := "https://example.com/project/kinetic-ui";
       video := Some "https://storage.googleapis.com/gtv-videos-bucket/sample/ForBiggerJoyrides.mp4" |};
    {| title := "Glass Shift";
       image := "https://storage.googleapis.com/gtv-videos-bucket/sample/images/ForBiggerEscapes.jpg";
       year := 2023;
       href := "https://example.com/project/glass-shift";
       video := Some "https://storage.googleapis.com/gtv-videos-bucket/sample/ForBiggerEscapes.mp4" |};
    {| title := "Quantum Leap";
       image := "https://storage.googleapis.com/gtv-videos-bucket/sample/images/ForBiggerBlazes.jpg";
       year := 2024;
       href := "https://example.com/project/quantum-leap";
       video := Some "https://storage.googleapis.com/gtv-videos-bucket/sample/ForBiggerBlazes.mp4" |};
    {| title := "Chroma Flow";
       image := "https://storage.googleapis.com/gtv-videos-bucket/sample/images/BigBuckBunny.jpg";
       year := 2022;
       href := "https://example.com/project/chroma-flow";
       video := Some "https://storage.googleapis.com/gtv-videos-bucket/sample/BigBuckBunny.mp4" |}
  ]%string.

(** ** config.ts, [StyleConfig] *)

Module StyleConfig.

Definition textTextureWidth : Z := 2048.
Definition textTextureHeight : Z := 256.
Definition imageAtlasTextureSize : Z := 512.
Definition textureFontSize : Z := 80.

End StyleConfig.

(** ** textureUtils.ts, [createTextureAtlas]

    The atlas is the canvas the function draws on: its size and the calls
    [ctx.drawImage(image, dx, dy, dWidth, dHeight)] made on it, in order.
    [canvas.getContext("2d")] gives the 2D context or [null]; without a
    context the function returns the texture of the canvas as it is, sized
    and with nothing drawn.  A texture is given by its [image], [None] when
    [texture.image] is missing.  [index] and [atlasGridSize] are integral, so
    [index % atlasGridSize] is [Z.rem]; the division under [Math.floor] is
    the division of numbers. *)

Module TextureUtils.

Record DrawCall (Image : Type) : Type := mkDrawCall {
  image : Image;
  dx : Z;
  dy : Z;
  dWidth : Z;
  dHeight : Z
}.

Record Canvas (Image : Type) : Type := mkCanvas {
  width : Z;
  height : Z;
  drawn : list (DrawCall Image)
}.

Arguments mkDrawCall {Image}.
Arguments image {Image}.
Arguments dx {Image}.
Arguments dy {Image}.
Arguments dWidth {Image}.
Arguments dHeight {Image}.
Arguments mkCanvas {Image}.
Arguments width {Image}.
Arguments height {Image}.
Arguments drawn {Image}.

(** [array.forEach((element, index) => ...)], from [index] on, with what
    the callback emits collected. *)
Fixpoint forEach {A B : Type} (callback : A -> nat -> list B) (index : nat) (array : list A)
  : list B :=
  match array with
  | [] => []
  | element :: rest => callback element index ++ forEach callback (S index) rest
  end.

(** What [canvas.getContext("2d")] returns when it is not [null]. *)
Inductive CanvasRenderingContext2D : Type := context2d.

Definition createTextureAtlas {Image : Type}
                              (getContext : option CanvasRenderingContext2D)
                              (textures : list (option Image))
                              (isText : bool) : Canvas Image :=
  let atlasGridSize := Zceil (sqrt (INR (List.length textures))) in
  let textureSize :=
    if isText then StyleConfig.textTextureHeight
    else StyleConfig.imageAtlasTextureSize in
  let canvas := {| width := atlasGridSize * textureSize;
                   height := atlasGridSize * textureSize;
                   drawn := [] |} in
  match getContext with
  | None => canvas
  | Some ctx =>
      {| width := width canvas;
         height := height canvas;
         drawn :=
           forEach (fun texture index =>
                      match texture with
                      | Some image =>
                          let x :=
                            (Z.rem (Z.of_nat index) atlasGridSize * textureSize)%Z in
                          let y :=
                            (Zfloor (INR index / IZR atlasGridSize) * textureSize)%Z in
                          [mkDrawCall image x y textureSize textureSize]
                      | None => []
                      end) 0 textures |}
  end.

End TextureUtils.

(** * Vocabulary of the statements *)

(** ** What a call of [setVideoState] leaves alone

    Of the context it writes [videoNonce], the video element and two
    uniforms ([uIsVideoActive], [uHoveredCellId]); nothing else. *)

Definition same_scalar_uniforms (u u' : Uniforms) : Prop :=
  uResolution u' = uResolution u /\ uCellSize u' = uCellSize u /\
  uZoom u' = uZoom u /\ uDistortionStrength u' = uDistortionStrength u /\
  uZoomProgress u' = uZoomProgress u /\ uTime u' = uTime u /\
  uTextureCount u' = uTextureCount u /\ uHoverEnabled u' = uHoverEnabled u /\
  uOptimizeMobile u' = uOptimizeMobile u.

Definition same_plane (p p' : option Uniforms) : Prop :=
  match p, p' with
  | Some u, Some u' => same_scalar_uniforms u u'
  | None, None => True
  | _, _ => False
  end.

Definition same_camera (c c' : ThreeContext) : Prop :=
  isDragging c' = isDragging c /\ isZoomed c' = isZoomed c /\
  previousMouse c' = previousMouse c /\ clickStart c' = clickStart c /\
  offset c' = offset c /\ targetOffset c' = targetOffset c /\
  offsetVelocity c' = offsetVelocity c /\ mousePos c' = mousePos c /\
  targetMousePos c' = targetMousePos c /\ zoom c' = zoom c /\
  targetZoom c' = targetZoom c /\ distortion c' = distortion c /\
  targetDistortion c' = targetDistortion c /\ zoomProgress c' = zoomProgress c /\
  lastOffset c' = lastOffset c /\ lastZoom c' = lastZoom c /\
  hoveredCellId c' = hoveredCellId c /\ zoomedCellId c' = zoomedCellId c /\
  same_plane (plane c) (plane c').

(** ** The zoom flag and the distortion target *)

(** The two fields a zoom-in and [unzoom] write together. *)
Definition zoom_state (c : ThreeContext) : bool * R :=
  (isZoomed c, targetDistortion c).

(** The distortion target is 0 while zoomed and 1 otherwise. *)
Definition zoom_inv (c : ThreeContext) : Prop :=
  zoom_state c = (true, 0) \/ zoom_state c = (false, 1).

(** The write of [uDistortionStrength] that useUniforms makes, alone. *)
Definition writeDistortionUniform (d : R) (w : World) : World :=
  on_context (on_plane (set_uDistortionStrength d)) w.

(** What the stages between the lerps and the push keep: the lerped zoom and
    distortion, and the plane being there. *)
Definition keeps_lerped (c c' : ThreeContext) : Prop :=
  distortion c' = distortion c /\ zoom c' = zoom c /\
  (plane c <> None -> plane c' <> None).

(** ** The spring on the camera offset *)

(** [n] frames of the spring alone (fixed target, nothing else moving). *)
Definition integrateOffsetN (n : nat) (c : ThreeContext) : ThreeContext :=
  Nat.iter n integrateOffset c.

(** [targetOffset.distanceTo(offset)] *)
Definition distanceToTarget (c : ThreeContext) : R :=
  Vector2.length (Vector2.sub (targetOffset c) (offset c)).

(** One axis of the spring, on the pair (target - offset, velocity). *)
Definition springAxis (ev : R * R) : R * R :=
  let velocity :=
    (snd ev + fst ev * AnimationConfig.springStiffness) * AnimationConfig.damping in
  (fst ev - velocity, velocity).

(** The pair of each axis in a context. *)
Definition axisX (c : ThreeContext) : R * R :=
  (Vector2.x (targetOffset c) - Vector2.x (offset c), Vector2.x (offsetVelocity c)).

Definition axisY (c : ThreeContext) : R * R :=
  (Vector2.y (targetOffset c) - Vector2.y (offset c), Vector2.y (offsetVelocity c)).

(** A positive definite quadratic form of the pair, which one frame
    multiplies by the damping. *)
Definition energy (ev : R * R) : R :=
  3 / 80 * (fst ev * fst ev) - 17 / 80 * (fst ev * snd ev) + 3 / 4 * (snd ev * snd ev).

(** One frame of an axis on integers: 800 times [springAxis]. *)
Definition springAxisZ (ev : Z * Z) : Z * Z :=
  (770 * fst ev - 600 * snd ev, 30 * fst ev + 600 * snd ev)%Z.

(** Offset (0, 0) at rest, target (1, 0). *)
Definition overshootStart : ThreeContext :=
  set_targetOffset (vec2 1 0) initialContext.

(** ** The shader without textures *)

(** Two colours. *)
Definition white : Shader.vec3 := Shader.mk3 1 1 1.

Definition black : Shader.vec3 := Shader.mk3 0 0 0.

(** A texture unit that returns opaque black wherever it is sampled. *)
Definition blackTexture : Shader.sampler2D := fun _ => Shader.mk4 black 1.

(** The draw call of the initial uniforms ([uTextureCount] is 0 until the
    atlases are built, and stays 0 for an empty project list), on a white
    background. *)
Definition withoutTextures : Shader.uniforms :=
  bindUniforms initialContext initialUniforms
               (Shader.mk4 black 1) (Shader.mk4 black 1) (Shader.mk4 white 1)
               blackTexture blackTexture blackTexture false.

(** ** The video element and the suspended calls *)

(** [uIsVideoActive], [uHoveredCellId] and [videoRef.src], when there are a
    plane and a video element. *)
Definition isActive (w : World) : bool :=
  match plane (context w) with
  | Some u => uIsVideoActive u
  | None => false
  end.

Definition hoveredUniform (w : World) : option Vec2 :=
  option_map uHoveredCellId (plane (context w)).

Definition videoSrc (w : World) : option string :=
  option_map src (videoRef (context w)).

(** The scene is initialized and the video element exists. *)
Definition mounted (w : World) : Prop :=
  videoRef (context w) <> None /\ plane (context w) <> None.

(** No suspended call holds a nonce from the future. *)
Definition nonces_wf (w : World) : Prop :=
  Forall (fun r => (currentNonce r <= videoNonce (context w))%nat) (pending w).

(** The invariant of the states reached from a call for [cellB] by
    resumptions alone, with [nB] the nonce of the call and [srcB] the source
    of the video element after it. *)
Section SecondCall.

Variable projects : option (list Project).
Variable cellB : option Vec2.
Variable nB : nat.
Variable srcB : option string.

(** cellB has a video, and it is the source of the element. *)
Definition secondMedia : Prop :=
  exists c p s,
    cellB = Some c /\ getProjectByCellId cellB projects = Found p /\
    video p = Some s /\ srcB = Some s.

(** What holds of the states reached from the call for cellB however the
    suspended calls are interleaved: the video is active only for cellB's
    media. *)
Definition media_inv (w : World) : Prop :=
  videoNonce (context w) = nB /\
  videoSrc w = srcB /\
  plane (context w) <> None /\
  Forall (fun r => currentNonce r = nB -> secondMedia) (pending w) /\
  (isActive w = true -> secondMedia).

(** What holds besides when the call for cellB was made with no microtask
    waiting: the only call that can still write [uHoveredCellId] is the one
    for cellB. *)
Definition race_inv (w : World) : Prop :=
  videoNonce (context w) = nB /\
  videoSrc w = srcB /\
  plane (context w) <> None /\
  Forall (fun r => (awaiting r = AwaitLoad -> cellId r = cellB) /\
                   (currentNonce r = nB -> secondMedia)) (pending w) /\
  (isActive w = true -> secondMedia) /\
  ((exists c, cellB = Some c /\ hoveredUniform w = Some c) \/
   (Forall (fun r => currentNonce r <> nB \/ awaiting r = AwaitLoad) (pending w) /\
    isActive w = false)).

End SecondCall.

(** ** A run of the race *)

(** Two neighbouring cells and the videos of their projects. *)
Definition cell00 : Vec2 := vec2 (IZR 0) (IZR 0).

Definition cell10 : Vec2 := vec2 (IZR 1) (IZR 0).

Definition sintel : string :=
  "https://storage.googleapis.com/gtv-videos-bucket/sample/Sintel.mp4".

Definition whatCar : string :=
  "https://storage.googleapis.com/gtv-videos-bucket/sample/WhatCarCanYouGetForAGrand.mp4".

(** Hover cell (0, 0), then cell (1, 0) while the first video is still
    starting; the second one starts, the first settles late. *)
Definition raceStart : World := createVideo initialWorld.

Definition requestA (at_ : AwaitPoint) : VideoRequest :=
  {| currentNonce := 1; cellId := Some cell00; newSrc := sintel; awaiting := at_ |}.

Definition requestB (at_ : AwaitPoint) : VideoRequest :=
  {| currentNonce := 2; cellId := Some cell10; newSrc := whatCar; awaiting := at_ |}.

Definition afterCallA : World :=
  suspend (requestA AwaitLoad)
    (on_context (on_video (load sintel))
       (on_context (on_plane (set_uIsVideoActive false))
          (on_context (set_videoNonce 1) raceStart))).

Definition beforeCallB : World :=
  loadResolved (requestA AwaitLoad) (set_pending [] afterCallA).

Definition afterCallB : World :=
  suspend (requestB AwaitLoad)
    (on_context (on_video (load whatCar))
       (on_context (on_video pause)
          (on_context (on_plane (set_uIsVideoActive false))
             (on_context (set_videoNonce 2) beforeCallB)))).

Definition raceEnd : World :=
  playResolved (requestB AwaitPlay)
    (set_pending [requestA AwaitPlay]
       (loadResolved (requestB AwaitLoad)
          (set_pending [requestA AwaitPlay] afterCallB))).

(** ** A run the nonce does not settle *)

(** The second call comes at once, while the first still waits for its
    load, and for cell (0, 3): three rows up, where the tiling shows the
    project of cell (0, 0) again.  It finds its video in the element and goes
    on to [play()]; the load of the first call goes on after it. *)
Definition cell03 : Vec2 := vec2 (IZR 0) (IZR 3).

Definition requestC (at_ : AwaitPoint) : VideoRequest :=
  {| currentNonce := 2; cellId := Some cell03; newSrc := sintel; awaiting := at_ |}.

Definition afterCallC : World :=
  startPlayback (requestC AwaitLoad)
    (on_context (on_plane (set_uIsVideoActive false))
       (on_context (set_videoNonce 2) afterCallA)).

Definition staleLoad : World :=
  loadResolved (requestA AwaitLoad) (set_pending [requestC AwaitPlay] afterCallC).

Definition staleEnd : World :=
  playResolved (requestC AwaitPlay) (set_pending [requestA AwaitPlay] staleLoad).

(** ** A run of a tap *)

(** The grid is 800 by 600 pixels and the video element exists.  The pointer
    is pressed and released at the centre of the screen, over cell (0, 0);
    the video of its project loads, then plays. *)
Definition tapStart : World := createVideo (onResize 800 600 initialWorld).

Definition tapDown : World := onPointerDown (800 / 2) (600 / 2) tapStart.

Definition tapZoomed : World :=
  setCursor grab
    (on_context (set_isDragging false)
       (navigateToCell (Some DEFAULT_PROJECTS) cell00 true tapDown)).

Definition tapLoaded : World :=
  loadResolved (requestA AwaitLoad) (set_pending [] tapZoomed).

Definition tapPlaying : World :=
  playResolved (requestA AwaitPlay) (set_pending [] tapLoaded).

(** ** The zoom targets and the lerped values *)

(** Whether the scene is initialized. *)
Definition hasPlane (c : ThreeContext) : bool :=
  match plane c with
  | Some _ => true
  | None => false
  end.

(** The fields that only a tap or a swipe writes. *)
Definition zoom_targets (c : ThreeContext) : bool * R * R * Vec2 * option Vec2 * bool :=
  (isZoomed c, targetZoom c, lastZoom c, lastOffset c, zoomedCellId c, hasPlane c).

(** The values a frame lerps toward their targets. *)
Definition lerped (c : ThreeContext) : R * R * R :=
  (zoom c, distortion c, zoomProgress c).

(** The zoom target is one of two levels, chosen by the zoom flag; the
    snapshot of the zoom is the initial level; a cell is zoomed on exactly
    while the flag is set. *)
Definition targets_inv (c : ThreeContext) : Prop :=
  hasPlane c = true /\
  lastZoom c = AnimationConfig.initialState.lastZoom /\
  targetZoom c = (if isZoomed c then AnimationConfig.zoomedInLevel
                  else AnimationConfig.initialState.targetZoom) /\
  (isZoomed c = true <-> zoomedCellId c <> None).

(** The lerped values stay between their two targets. *)
Definition lerped_inv (c : ThreeContext) : Prop :=
  AnimationConfig.zoomedInLevel <= zoom c <= AnimationConfig.initialState.zoom /\
  0 <= distortion c <= 1 /\
  0 <= zoomProgress c <= 1.

(** Steps taken from zoomed states: the last one may leave the zoom. *)
Inductive whileZoomed (projects : option (list Project)) : World -> World -> Prop :=
| whileZoomed_refl : forall w, whileZoomed projects w w
| whileZoomed_step : forall w w' w'',
    whileZoomed projects w w' -> isZoomed (context w') = true ->
    step projects w' w'' -> whileZoomed projects w w''.

(** ** The video state of a mounted grid *)

(** What [setVideoState] and its continuations read and write: the video
    element, the two uniforms of the video, the nonce and the suspended
    calls. *)
Definition video_state (w : World)
  : option Video * option (Vec2 * bool) * nat * list VideoRequest :=
  (videoRef (context w),
   option_map (fun u => (uHoveredCellId u, uIsVideoActive u)) (plane (context w)),
   videoNonce (context w),
   pending w).

(** Before the video element exists nothing is suspended and no video is
    active; afterwards the state is as after the latest call, for some
    cell. *)
Definition video_inv (projects : option (list Project)) (w : World) : Prop :=
  plane (context w) <> None /\
  nonces_wf w /\
  match videoRef (context w) with
  | None => pending w = [] /\ isActive w = false
  | Some _ =>
      exists cellB, race_inv projects cellB (videoNonce (context w)) (videoSrc w) w
  end.

(** ** The tiles of an atlas *)

(** The indices of the textures that have an image, counted from [index]. *)
Definition drawnIndices {Image : Type} (index : nat) (textures : list (option Image))
  : list nat :=
  TextureUtils.forEach (fun texture index =>
                          match texture with
                          | Some _ => [index]
                          | None => []
                          end) index textures.

(** The corner of tile [index] in a grid of [g] columns of tiles of side
    [size]. *)
Definition tileCorner (g size : Z) (index : nat) : Z * Z :=
  ((Z.of_nat index mod g) * size, (Z.of_nat index / g) * size)%Z.

(** The corner of a draw call. *)
Definition corner {Image : Type} (d : TextureUtils.DrawCall Image) : Z * Z :=
  (TextureUtils.dx d, TextureUtils.dy d).

(** [uTextureCount], when the scene is initialized. *)
Definition textureCount (w : World) : option R :=
  option_map uTextureCount (plane (context w)).

(** What the spring of a frame reads, and whether a drag is panning. *)
Definition spring_state (c : ThreeContext) : (R * R) * (R * R) * Vec2 * bool * bool :=
  (axisX c, axisY c, targetOffset c, isDragging c && negb (isZoomed c), hasPlane c).

(** [n] frames in a row. *)
Definition frames (projects : option (list Project)) (n : nat) (w : World) : World :=
  Nat.iter n (animate projects) w.

(** * Properties *)

(** ** Arithmetic of the model *)

Lemma Rltb_spec (u v : R) : Rltb u v = true <-> u < v.
Proof.
  unfold Rltb. destruct (Rlt_dec u v); split; intros; try easy; lra.
Qed.

Lemma length_squared (v : Vec2) :
  Vector2.length v * Vector2.length v = Vector2.x v * Vector2.x v + Vector2.y v * Vector2.y v.
Proof.
  unfold Vector2.length. apply sqrt_sqrt. nra.
Qed.

Lemma length_nonneg (v : Vec2) : 0 <= Vector2.length v.
Proof. apply sqrt_pos. Qed.

(** The length of a vector whose squared norm is a known square. *)
Lemma length_of_square (v : Vec2) (m : R) :
  0 <= m -> Vector2.x v * Vector2.x v + Vector2.y v * Vector2.y v = m * m ->
  Vector2.length v = m.
Proof.
  intros Hm Hsq. unfold Vector2.length. rewrite Hsq. now apply sqrt_square.
Qed.

(** [((f % n) + n) % n] with the truncating remainder is the floored one. *)
Lemma rem_rem_is_mod (f n : Z) : (0 < n)%Z -> Z.rem (Z.rem f n + n) n = (f mod n)%Z.
Proof.
  intros Hn.
  assert (Hb : (- n < Z.rem f n < n)%Z).
  { pose proof (Z.rem_bound_abs f n). lia. }
  rewrite Z.rem_mod_nonneg by lia.
  pose proof (Z.quot_rem' f n) as Hq.
  replace (Z.rem f n + n)%Z with (f + (1 - f ÷ n) * n)%Z by lia.
  apply Z.mod_add. lia.
Qed.

Lemma array_get_in_range {A : Type} (arr : list A) (i : Z) :
  (0 <= i < Z.of_nat (List.length arr))%Z ->
  exists v, nth_error arr (Z.to_nat i) = Some v /\ array_get arr i = Some v.
Proof.
  intros Hi. unfold array_get.
  destruct (Z.ltb_spec i 0); [lia|].
  destruct (nth_error arr (Z.to_nat i)) as [v|] eqn:E.
  - now exists v.
  - apply nth_error_None in E. lia.
Qed.

(** ** ProjectLookup *)

(** The lookup at an integral cell, given the project at the floored residue
    of its flat index. *)
Lemma getProjectByCellId_at_residue (cx cy : Z) (projects : list Project) (p : Project) :
  let N := Z.of_nat (List.length projects) in
  nth_error projects (Z.to_nat ((cx + cy * 3) mod N)) = Some p ->
  getProjectByCellId (Some (vec2 (IZR cx) (IZR cy))) (Some projects) = Found p.
Proof.
  intros N Hnth.
  assert (HNpos : (0 < N)%Z).
  { destruct projects as [|q qs]; [|subst N; cbn [List.length]; lia].
    destruct (Z.to_nat _); discriminate. }
  unfold getProjectByCellId. fold N. cbn [Vector2.x Vector2.y].
  destruct (Z.eqb_spec N 0) as [H0|_]; [lia|].
  rewrite !ZfloorZ, rem_rem_is_mod by lia.
  unfold array_get.
  pose proof (Z.mod_pos_bound (cx + cy * 3) N HNpos) as Hb.
  destruct (Z.ltb_spec ((cx + cy * 3) mod N) 0); [lia|].
  now rewrite Hnth.
Qed.

(** C2.  For integers x, y and a list of N >= 1 projects,
    [getProjectByCellId {x, y} projects] is the project at index
    [((x + y*3) mod N + N) mod N], the floored (Euclidean) residue of
    [x + y*3], which lies in [0, N). *)
Theorem getProjectByCellId_wraps (cx cy : Z) (projects : list Project) :
  (1 <= List.length projects)%nat ->
  let N := Z.of_nat (List.length projects) in
  let index := (((cx + cy * 3) mod N + N) mod N)%Z in
  (0 <= index < N)%Z /\
  index = ((cx + cy * 3) mod N)%Z /\
  exists p,
    nth_error projects (Z.to_nat index) = Some p /\
    getProjectByCellId (Some (vec2 (IZR cx) (IZR cy))) (Some projects) = Found p.
Proof.
  intros HN N index.
  assert (HNpos : (0 < N)%Z) by (subst N; lia).
  assert (Hidx : index = ((cx + cy * 3) mod N)%Z).
  { subst index. rewrite Z.add_mod by lia. rewrite Z.mod_same by lia.
    rewrite Z.add_0_r. now rewrite !Z.mod_mod by lia. }
  assert (Hrange : (0 <= index < N)%Z).
  { rewrite Hidx. apply Z.mod_pos_bound. lia. }
  split; [exact Hrange|]. split; [exact Hidx|].
  destruct (array_get_in_range projects index Hrange) as [p [Hnth _]].
  exists p. split; [exact Hnth|].
  apply getProjectByCellId_at_residue. fold N. now rewrite <- Hidx.
Qed.

(** With the nine default projects the cell (-1, 0) has flat index -1 and shows
    the last project (index 8). *)
Lemma getProjectByCellId_wraps_witness :
  (1 <= List.length DEFAULT_PROJECTS)%nat /\
  (((-1 + 0 * 3) mod 9 + 9) mod 9 = 8)%Z /\
  exists p, nth_error DEFAULT_PROJECTS 8 = Some p /\
            title p = "Chroma Flow"%string /\
            getProjectByCellId (Some (vec2 (IZR (-1)) (IZR 0))) (Some DEFAULT_PROJECTS)
            = Found p.
Proof.
  split; [simpl; lia|]. split; [reflexivity|].
  destruct (getProjectByCellId_wraps (-1) 0 DEFAULT_PROJECTS) as (_ & _ & p & Hnth & Hp).
  - simpl; lia.
  - exists p. split; [exact Hnth|]. split; [|exact Hp].
    vm_compute in Hnth. injection Hnth as <-. reflexivity.
Defined.

(** C8.  The lookup fails closed: it is [null] for a [null] cell id, for a
    [null] project list and for the empty list, whatever the other argument;
    being a total function it raises nothing on these inputs. *)
Theorem getProjectByCellId_fails_closed :
  (forall id, getProjectByCellId id (Some []) = Null) /\
  (forall id, getProjectByCellId id None = Null) /\
  (forall projects, getProjectByCellId None projects = Null).
Proof.
  repeat split.
  - intros [id|]; reflexivity.
  - intros [id|]; reflexivity.
Qed.

(** ** CoordinateMapper *)

Lemma vec2_eq (a b c d : R) : a = c -> b = d -> vec2 a b = vec2 c d.
Proof. now intros -> ->. Qed.

(** Unfolds the vector operations down to their components. *)
Ltac vec_components :=
  unfold Vector2.add, Vector2.sub, Vector2.multiply, Vector2.multiplyScalar,
    Vector2.addScalar, Vector2.lerp, Vector2.zero in *;
  cbn [Vector2.x Vector2.y] in *.

(** C3.  On an initialized context, [screenToWorld] maps the pixel (px, py)
    to [((ndc * factor) * (resX/resY, 1)) * zoom + offset] with
    [ndc = ((px/resX)*2 - 1, -((py/resY)*2 - 1))] and
    [factor = 1 - distortion * 0.08 * |ndc|^2]. *)
Theorem screenToWorld_formula (c : ThreeContext) (uniforms : Uniforms) (screenPos : Vec2) :
  plane c = Some uniforms ->
  let px := Vector2.x screenPos in
  let py := Vector2.y screenPos in
  let resX := Vector2.x (uResolution uniforms) in
  let resY := Vector2.y (uResolution uniforms) in
  let ndc := vec2 (px / resX * 2 - 1) (- (py / resY * 2 - 1)) in
  let normSquared := Vector2.x ndc * Vector2.x ndc + Vector2.y ndc * Vector2.y ndc in
  let factor := 1 - distortion c * (8 / 100) * normSquared in
  screenToWorld screenPos c
  = Vector2.add
      (Vector2.multiplyScalar
         (Vector2.multiply (Vector2.multiplyScalar ndc factor) (vec2 (resX / resY) 1))
         (zoom c))
      (offset c).
Proof.
  intros Hplane px py resX resY ndc normSquared factor.
  unfold screenToWorld. rewrite Hplane. fold px py resX resY.
  replace (- (py / resY) * 2 + 1) with (- (py / resY * 2 - 1)) by ring.
  fold ndc.
  replace (1 - distortion c * (8 / 100) * Vector2.length ndc * Vector2.length ndc)
    with factor.
  - reflexivity.
  - subst factor normSquared. rewrite <- length_squared. ring.
Qed.

Lemma screenToWorld_formula_witness :
  let uniforms := set_uResolution (vec2 800 600) initialUniforms in
  let c := set_offset (vec2 1 2) (set_plane (Some uniforms) initialContext) in
  plane c = Some uniforms /\
  screenToWorld (vec2 600 150) c = vec2 (41 / 25) (62 / 25).
Proof.
  intros uniforms c. split; [reflexivity|].
  rewrite (screenToWorld_formula c uniforms (vec2 600 150) eq_refl).
  cbn. unfold AnimationConfig.initialState.distortion, AnimationConfig.initialState.zoom.
  vec_components. apply vec2_eq; field.
Defined.

(** The shader's [screenUV] at the fragment of a pixel is the [ndc] of
    [screenToWorld]. *)
Lemma screenUV_fragCoord (res screenPos : Vec2) :
  Shader.screenUV (Shader.fragCoord res screenPos)
  = vec2 (Vector2.x screenPos / Vector2.x res * 2 - 1)
         (- (Vector2.y screenPos / Vector2.y res) * 2 + 1).
Proof.
  unfold Shader.screenUV, Shader.fragCoord. vec_components.
  generalize (Vector2.x screenPos / Vector2.x res).
  generalize (Vector2.y screenPos / Vector2.y res).
  intros v u. apply vec2_eq; field.
Qed.

(** With the ripple disabled the shader's world coordinate of a fragment is
    [screenToWorld] of its pixel, at every distortion: both apply the same
    factor [1 - distortion * 0.08 * r^2] to the same vector. *)
Lemma screenToWorld_is_shader_worldCoord
    (c : ThreeContext) (uniforms : Uniforms) (screenPos : Vec2)
    (border hover background : Shader.vec4)
    (imageAtlas textAtlas activeVideo : Shader.sampler2D) (isMobile : bool) :
  plane c = Some uniforms ->
  uDistortionStrength uniforms = distortion c ->
  uZoom uniforms = zoom c ->
  uOptimizeMobile uniforms = true ->
  screenToWorld screenPos c
  = Shader.worldCoord
      (bindUniforms c uniforms border hover background
                    imageAtlas textAtlas activeVideo isMobile)
      (Shader.fragCoord (uResolution uniforms) screenPos).
Proof.
  intros Hplane Hud Hz Hmobile.
  unfold screenToWorld, Shader.worldCoord, Shader.aspectRatio. rewrite Hplane.
  rewrite screenUV_fragCoord.
  cbn [Shader.uOptimizeMobile Shader.uDistortionStrength Shader.uResolution
       Shader.uZoom Shader.uOffset bindUniforms].
  now rewrite Hmobile, Hud, Hz.
Qed.

(** With no distortion the inverse-distortion factor of [screenToWorld] is 1. *)
Lemma screenToWorld_undistorted (c : ThreeContext) (uniforms : Uniforms) (screenPos : Vec2) :
  plane c = Some uniforms -> distortion c = 0 ->
  screenToWorld screenPos c
  = vec2 ((Vector2.x screenPos / Vector2.x (uResolution uniforms) * 2 - 1)
            * (Vector2.x (uResolution uniforms) / Vector2.y (uResolution uniforms))
            * zoom c + Vector2.x (offset c))
         (- (Vector2.y screenPos / Vector2.y (uResolution uniforms) * 2 - 1)
            * zoom c + Vector2.y (offset c)).
Proof.
  intros Hplane Hd. unfold screenToWorld. rewrite Hplane, Hd.
  vec_components. apply vec2_eq; ring.
Qed.

(** C1.  With distortion 0 and the ripple disabled ([uOptimizeMobile]), and
    the uniforms of the draw call holding the context's zoom and distortion,
    the cell the hooks compute for a pixel ([screenToWorld], division by the
    cell size, floor) is the [cellId] the shader computes for the fragment at
    that pixel.  In exact arithmetic the two are equal. *)
Theorem cpu_gpu_same_cell
    (c : ThreeContext) (uniforms : Uniforms) (screenPos : Vec2)
    (border hover background : Shader.vec4)
    (imageAtlas textAtlas activeVideo : Shader.sampler2D) (isMobile : bool) :
  plane c = Some uniforms ->
  distortion c = 0 ->
  uDistortionStrength uniforms = distortion c ->
  uZoom uniforms = zoom c ->
  uOptimizeMobile uniforms = true ->
  cellIdAt screenPos c uniforms
  = Shader.cellId
      (bindUniforms c uniforms border hover background
                    imageAtlas textAtlas activeVideo isMobile)
      (Shader.fragCoord (uResolution uniforms) screenPos).
Proof.
  intros Hplane Hd Hud Hz Hmobile.
  unfold cellIdAt. rewrite (screenToWorld_undistorted c uniforms screenPos Hplane Hd).
  unfold Shader.cellId, Shader.cellPos, Shader.worldCoord, Shader.aspectRatio,
    Shader.screenUV, Shader.fragCoord, bindUniforms.
  cbn [Shader.uOptimizeMobile Shader.uDistortionStrength Shader.uResolution
       Shader.uZoom Shader.uOffset Shader.uCellSize negb].
  rewrite Hmobile, Hud, Hd, Hz. cbn [negb].
  vec_components.
  generalize (Vector2.x screenPos / Vector2.x (uResolution uniforms)).
  generalize (Vector2.y screenPos / Vector2.y (uResolution uniforms)).
  generalize (Vector2.x (uResolution uniforms) / Vector2.y (uResolution uniforms)).
  intros aspect v u.
  apply vec2_eq; f_equal; f_equal; field.
Qed.

Lemma cpu_gpu_same_cell_witness :
  let uniforms :=
    set_uDistortionStrength 0 (set_uResolution (vec2 800 600) initialUniforms) in
  let c := set_distortion 0 (set_plane (Some uniforms) initialContext) in
  let opaqueBlack := Shader.mk4 (Shader.mk3 0 0 0) 1 in
  let tex := fun _ : Vec2 => opaqueBlack in
  cellIdAt (vec2 600 150) c uniforms = vec2 0 0 /\
  Shader.cellId (bindUniforms c uniforms opaqueBlack opaqueBlack opaqueBlack
                              tex tex tex false)
                (Shader.fragCoord (vec2 800 600) (vec2 600 150))
  = vec2 0 0.
Proof.
  cbv zeta.
  match goal with
  | |- cellIdAt ?p ?c ?u = _ /\ Shader.cellId (bindUniforms _ _ ?k _ _ ?t _ _ ?m) _ = _ =>
      pose proof (cpu_gpu_same_cell c u p k k k t t t m
                    eq_refl eq_refl eq_refl eq_refl eq_refl) as Hsame;
      assert (Hcpu : cellIdAt p c u = vec2 0 0);
      [unfold cellIdAt; rewrite (screenToWorld_undistorted c u p eq_refl eq_refl)|]
  end.
  {
    cbn. unfold AnimationConfig.initialState.zoom, floor.
    apply vec2_eq; (rewrite (Zfloor_eq 0); [reflexivity | lra]). }
  split; [exact Hcpu|].
  cbn [uResolution set_uDistortionStrength set_uResolution] in Hsame.
  rewrite <- Hsame. exact Hcpu.
Defined.

(** ** InteractionStateMachine *)

Lemma handleInteraction_neither
    (projects : option (list Project)) (clickPos delta : Vec2) (w : World) :
  isTap delta = false -> isSwipe delta = false ->
  handleInteraction projects clickPos delta w = Some w.
Proof.
  intros Htap Hswipe. unfold handleInteraction. rewrite Htap, Hswipe.
  destruct (plane (context w)); [|reflexivity].
  destruct (isZoomed (context w)); reflexivity.
Qed.

Lemma classify_magnitude (delta : Vec2) (m : R) :
  0 <= m -> Vector2.x delta * Vector2.x delta + Vector2.y delta * Vector2.y delta = m * m ->
  isTap delta = Rltb m 10 /\ isSwipe delta = Rltb 50 m.
Proof.
  intros Hm Hsq. unfold isTap, isSwipe, Rgtb.
  now rewrite (length_of_square delta m Hm Hsq).
Qed.

Ltac decide_Rltb :=
  unfold Rltb; repeat match goal with
  | |- context [Rlt_dec ?u ?v] => destruct (Rlt_dec u v); try lra
  end; try reflexivity.

(** Settles [isTap d = b] or [isSwipe d = b] for a vector of magnitude [m]. *)
Ltac classify m :=
  match goal with
  | |- isTap ?d = _ =>
      destruct (classify_magnitude d m) as [-> _];
      [lra | cbn; ring | decide_Rltb]
  | |- isSwipe ?d = _ =>
      destruct (classify_magnitude d m) as [_ ->];
      [lra | cbn; ring | decide_Rltb]
  end.

(** *** Projections of the state constructors *)

Lemma context_on_context (f : ThreeContext -> ThreeContext) (w : World) :
  context (on_context f w) = f (context w).
Proof. reflexivity. Qed.

Lemma context_setZoomedProject (p : lookup) (w : World) :
  context (setZoomedProject p w) = context w.
Proof. reflexivity. Qed.

Lemma context_setCursor (k : Cursor) (w : World) : context (setCursor k w) = context w.
Proof. reflexivity. Qed.

Lemma context_suspend (r : VideoRequest) (w : World) : context (suspend r w) = context w.
Proof. reflexivity. Qed.

Lemma context_set_pending (l : list VideoRequest) (w : World) :
  context (set_pending l w) = context w.
Proof. reflexivity. Qed.

Lemma context_console_warn (msg : string) (w : World) :
  context (console_warn msg w) = context w.
Proof. reflexivity. Qed.

Create Rewrite HintDb world.

#[local] Hint Rewrite context_on_context context_setZoomedProject context_setCursor
  context_suspend context_set_pending context_console_warn : world.

(** *** What a call of [setVideoState] leaves alone

    Of the context it writes [videoNonce], the video element and two
    uniforms ([uIsVideoActive], [uHoveredCellId]); nothing else. *)

Lemma same_camera_refl (c : ThreeContext) : same_camera c c.
Proof.
  unfold same_camera, same_plane, same_scalar_uniforms.
  repeat split. destruct (plane c); repeat split.
Qed.

Lemma same_camera_trans (c1 c2 c3 : ThreeContext) :
  same_camera c1 c2 -> same_camera c2 c3 -> same_camera c1 c3.
Proof.
  unfold same_camera. intros H12 H23.
  repeat match goal with
  | H : _ /\ _ |- _ => destruct H
  end.
  repeat split; try congruence.
  unfold same_plane, same_scalar_uniforms in *.
  destruct (plane c1), (plane c2), (plane c3); try easy.
  repeat match goal with
  | H : _ /\ _ |- _ => destruct H
  end.
  repeat split; congruence.
Qed.

Lemma same_camera_videoNonce (n : nat) (c : ThreeContext) :
  same_camera c (set_videoNonce n c).
Proof.
  unfold same_camera, same_plane, same_scalar_uniforms. cbn.
  repeat split. destruct (plane c); repeat split.
Qed.

Lemma same_camera_on_video (f : Video -> Video) (c : ThreeContext) :
  same_camera c (on_video f c).
Proof.
  unfold same_camera, same_plane, same_scalar_uniforms. cbn.
  repeat split. destruct (plane c); repeat split.
Qed.

Lemma same_camera_uIsVideoActive (v : bool) (c : ThreeContext) :
  same_camera c (on_plane (set_uIsVideoActive v) c).
Proof.
  unfold same_camera, same_plane, same_scalar_uniforms. cbn.
  repeat split. destruct (plane c); cbn; repeat split.
Qed.

Lemma same_camera_uHoveredCellId (v : Vec2) (c : ThreeContext) :
  same_camera c (on_plane (set_uHoveredCellId v) c).
Proof.
  unfold same_camera, same_plane, same_scalar_uniforms. cbn.
  repeat split. destruct (plane c); cbn; repeat split.
Qed.

Create HintDb camera.

#[local] Hint Resolve same_camera_refl same_camera_videoNonce same_camera_on_video
  same_camera_uIsVideoActive same_camera_uHoveredCellId : camera.

Lemma startPlayback_camera (r : VideoRequest) (w : World) :
  same_camera (context w) (context (startPlayback r w)).
Proof.
  unfold startPlayback. destruct (cellId r); cbn; [|auto with camera].
  eapply same_camera_trans; auto with camera.
Qed.

Lemma setVideoState_camera
    (projects : option (list Project)) (cell : option Vec2) (w : World) :
  same_camera (context w) (context (setVideoState projects cell w)).
Proof.
  unfold setVideoState.
  set (w1 := on_context (set_videoNonce (S (videoNonce (context w)))) w).
  assert (H1 : same_camera (context w) (context w1)) by (cbn; auto with camera).
  destruct (videoRef (context w1)) as [v|]; [|exact H1].
  destruct (plane (context w1)) as [u|]; [|exact H1].
  set (w2 := on_context (on_plane (set_uIsVideoActive false)) w1).
  assert (H2 : same_camera (context w) (context w2)).
  { eapply same_camera_trans; [exact H1|]. cbn. auto with camera. }
  set (w3 := if paused v then w2 else on_context (on_video pause) w2).
  assert (H3 : same_camera (context w) (context w3)).
  { subst w3. destruct (paused v); [exact H2|].
    eapply same_camera_trans; [exact H2|]. cbn. auto with camera. }
  destruct (video_of (getProjectByCellId cell projects)) as [s|]; [|exact H3].
  destruct (falsy_src (Some s)); [exact H3|].
  destruct (negb _); [exact H3|].
  destruct (String.eqb (src v) s).
  - eapply same_camera_trans; [exact H3|]. apply startPlayback_camera.
  - cbn. eapply same_camera_trans; [exact H3|]. auto with camera.
Qed.

(** *** The zoom flag and the distortion target

    [targetDistortion] is written by a zoom-in (0) and by [unzoom] (1) only,
    each time together with [isZoomed]. *)

Lemma zoom_state_eq (c : ThreeContext) (z : bool) (d : R) :
  zoom_state c = (z, d) -> isZoomed c = z /\ targetDistortion c = d.
Proof. unfold zoom_state. intros [= -> ->]. now split. Qed.

Lemma same_camera_zoom_state (c c' : ThreeContext) :
  same_camera c c' -> zoom_state c' = zoom_state c.
Proof.
  unfold same_camera, zoom_state. intros H.
  repeat match goal with
  | H : _ /\ _ |- _ => destruct H
  end.
  congruence.
Qed.

Lemma zoom_state_setVideoState
    (projects : option (list Project)) (cell : option Vec2) (w : World) :
  zoom_state (context (setVideoState projects cell w)) = zoom_state (context w).
Proof. apply same_camera_zoom_state, setVideoState_camera. Qed.

Lemma plane_setVideoState
    (projects : option (list Project)) (cell : option Vec2) (w : World) (u : Uniforms) :
  plane (context w) = Some u ->
  exists u', plane (context (setVideoState projects cell w)) = Some u' /\
             same_scalar_uniforms u u'.
Proof.
  intros Hp. pose proof (setVideoState_camera projects cell w) as H.
  unfold same_camera in H.
  repeat match goal with
  | H : _ /\ _ |- _ => destruct H
  end.
  rewrite Hp in *. unfold same_plane in *.
  destruct (plane (context (setVideoState projects cell w))) as [u'|]; [|easy].
  now exists u'.
Qed.

Lemma zoom_state_navigate
    (projects : option (list Project)) (cell : Vec2) (w : World) :
  zoom_state (context (navigateToCell projects cell false w)) = zoom_state (context w).
Proof.
  unfold navigateToCell. destruct (plane (context w)) as [u|] eqn:Hp; [|reflexivity].
  pose proof (zoom_state_setVideoState projects (Some cell)
                (setZoomedProject (getProjectByCellId (Some cell) projects) w)) as H2.
  rewrite context_setZoomedProject in H2. rewrite <- H2.
  generalize (setVideoState projects (Some cell)
                (setZoomedProject (getProjectByCellId (Some cell) projects) w)).
  clear. intros w2. destruct (plane (context w2)); reflexivity.
Qed.

Lemma zoom_state_zoom_in
    (projects : option (list Project)) (cell : Vec2) (w : World) (u : Uniforms) :
  plane (context w) = Some u ->
  zoom_state (context (navigateToCell projects cell true w)) = (true, 0).
Proof.
  intros Hp. unfold navigateToCell. rewrite Hp.
  generalize (setVideoState projects (Some cell)
                (setZoomedProject (getProjectByCellId (Some cell) projects) w)).
  clear. intros w2. destruct (plane (context (on_context _ w2))); reflexivity.
Qed.

Lemma zoom_state_unzoom (projects : option (list Project)) (w : World) :
  zoom_state (context (unzoom projects w)) = (false, 1).
Proof.
  unfold unzoom.
  rewrite context_setZoomedProject, zoom_state_setVideoState. reflexivity.
Qed.

Lemma zoom_inv_handleInteraction
    (projects : option (list Project)) (clickPos delta : Vec2) (w w' : World) :
  zoom_inv (context w) ->
  handleInteraction projects clickPos delta w = Some w' ->
  zoom_inv (context w').
Proof.
  intros Hinv. unfold handleInteraction.
  destruct (plane (context w)) as [u|] eqn:Hp; [|now intros [= <-]].
  destruct (isZoomed (context w)) eqn:Hz.
  - destruct (isTap delta).
    + destruct (zoomedCellId (context w)) as [z|]; [|discriminate].
      destruct (Vector2.equals _ z); intros [= <-].
      * right. apply zoom_state_unzoom.
      * unfold zoom_inv. now rewrite zoom_state_navigate.
    + destruct (isSwipe delta); [|now intros [= <-]].
      destruct (zoomedCellId (context w)) as [z|]; [|discriminate].
      intros [= <-]. unfold zoom_inv. now rewrite zoom_state_navigate.
  - destruct (isTap delta); intros [= <-]; [|exact Hinv].
    left. eapply zoom_state_zoom_in; eassumption.
Qed.

Lemma zoom_state_dragPan (u : Uniforms) (c : ThreeContext) :
  zoom_state (dragPan u c) = zoom_state c.
Proof. unfold dragPan. destruct (_ && _); reflexivity. Qed.

Lemma zoom_state_set_targetOffset (v : Vec2) (c : ThreeContext) :
  zoom_state (set_targetOffset v c) = zoom_state c.
Proof. reflexivity. Qed.

Lemma zoom_state_pushUniforms (c : ThreeContext) :
  zoom_state (pushUniforms c) = zoom_state c.
Proof. reflexivity. Qed.

Lemma zoom_state_detectHover
    (projects : option (list Project)) (u : Uniforms) (w : World) :
  zoom_state (context (detectHover projects u w)) = zoom_state (context w).
Proof.
  unfold detectHover. destruct (isZoomed (context w)); [reflexivity|].
  match goal with |- context [if ?b then _ else _] => destruct b end; [|reflexivity].
  rewrite zoom_state_setVideoState. reflexivity.
Qed.

Lemma zoom_state_animate (projects : option (list Project)) (w : World) :
  zoom_state (context (animate projects w)) = zoom_state (context w).
Proof.
  unfold animate. destruct (plane (context w)); [|reflexivity].
  rewrite context_on_context, zoom_state_pushUniforms.
  assert (H1 : zoom_state (context (on_context lerpTowardTargets
                                      (on_context integrateOffset w)))
               = zoom_state (context w)) by reflexivity.
  revert H1. generalize (on_context lerpTowardTargets (on_context integrateOffset w)).
  intros w1 H1.
  assert (H2 : zoom_state (context match plane (context w1) with
                                   | Some uniforms => detectHover projects uniforms w1
                                   | None => w1
                                   end) = zoom_state (context w)).
  { destruct (plane (context w1)); [|exact H1].
    now rewrite zoom_state_detectHover. }
  revert H2.
  generalize (match plane (context w1) with
              | Some uniforms => detectHover projects uniforms w1
              | None => w1
              end).
  intros w2 H2.
  destruct (plane (context w2)); [|exact H2].
  rewrite context_on_context, zoom_state_dragPan. exact H2.
Qed.

Lemma zoom_state_startPlayback (r : VideoRequest) (w : World) :
  zoom_state (context (startPlayback r w)) = zoom_state (context w).
Proof. apply same_camera_zoom_state, startPlayback_camera. Qed.

Lemma zoom_state_resume (projects : option (list Project)) (w w' : World) :
  resume w w' -> zoom_state (context w') = zoom_state (context w).
Proof.
  intros [w0 before r after Hp Ha | w0 before r after Hp Ha
          | w0 before r after name Hp Ha].
  - unfold loadResolved. now rewrite zoom_state_startPlayback.
  - unfold playResolved. destruct (_ =? _)%nat; reflexivity.
  - unfold playRejected. destruct (String.eqb _ _); reflexivity.
Qed.

Lemma zoom_inv_onPointerUp
    (projects : option (list Project)) (px py : R) (w w' : World) :
  zoom_inv (context w) -> onPointerUp projects px py w = Some w' ->
  zoom_inv (context w').
Proof.
  intros Hinv. unfold onPointerUp.
  destruct (plane (context w)); [|now intros [= <-]].
  destruct (handleInteraction projects _ _ w) as [w1|] eqn:Hh; [|discriminate].
  intros [= <-].
  apply (zoom_inv_handleInteraction _ _ _ _ _ Hinv) in Hh.
  exact Hh.
Qed.

Lemma zoom_inv_step (projects : option (list Project)) (w w' : World) :
  zoom_inv (context w) -> step projects w w' -> zoom_inv (context w').
Proof.
  intros Hinv Hstep. unfold zoom_inv in *.
  destruct Hstep as [w w' Hr | w _ | w px py _ | w w' px py _ Hup | w px py _
                     | w w' px py _ Hleave | w dx dy mode iw ih _ | w cs ds _
                     | w cw ch _ | w _ | w _ _].
  - now rewrite (zoom_state_resume projects w w').
  - now rewrite zoom_state_animate.
  - unfold onPointerDown. destruct (plane (context w)); exact Hinv.
  - eapply zoom_inv_onPointerUp; eassumption.
  - unfold onPointerMove. destruct (plane (context w)); exact Hinv.
  - unfold onPointerLeave in Hleave. destruct (plane (context w)).
    + destruct (isDragging (context w)).
      * eapply zoom_inv_onPointerUp; eassumption.
      * now injection Hleave as <-.
    + now injection Hleave as <-.
  - unfold onWheel. destruct (plane (context w)); [|exact Hinv].
    destruct (isZoomed (context w)) eqn:Hz; [exact Hinv|].
    destruct mode as [|[|[|mode]]]; cbn [context on_context];
      rewrite zoom_state_set_targetOffset; exact Hinv.
  - exact Hinv.
  - exact Hinv.
  - unfold texturesReady. destruct projects as [[|p ps]|]; exact Hinv.
  - exact Hinv.
Qed.

(** In every state the grid can reach, the distortion target is 0 while
    zoomed and 1 otherwise. *)
Lemma reachable_zoom_inv (projects : option (list Project)) (w : World) :
  reachable projects w -> zoom_inv (context w).
Proof.
  induction 1 as [|w w' _ IH Hstep].
  - right. reflexivity.
  - eapply zoom_inv_step; eassumption.
Qed.

(** *** Zoom-in and zoom-out *)

Lemma same_camera_fields (c c' : ThreeContext) :
  same_camera c c' ->
  targetOffset c' = targetOffset c /\ targetZoom c' = targetZoom c /\
  lastOffset c' = lastOffset c /\ lastZoom c' = lastZoom c /\
  zoomedCellId c' = zoomedCellId c /\ distortion c' = distortion c /\
  zoom c' = zoom c /\ offset c' = offset c.
Proof.
  unfold same_camera. intros H.
  repeat match goal with
  | H : _ /\ _ |- _ => destruct H
  end.
  repeat split; assumption.
Qed.

Lemma zoom_in_snapshot
    (projects : option (list Project)) (cell : Vec2) (w : World) (u : Uniforms) :
  plane (context w) = Some u ->
  let c' := context (navigateToCell projects cell true w) in
  lastOffset c' = targetOffset (context w) /\
  lastZoom c' = targetZoom (context w) /\
  targetZoom c' = AnimationConfig.zoomedInLevel /\
  targetOffset c'
  = Vector2.multiplyScalar (Vector2.addScalar cell (1 / 2)) (uCellSize u) /\
  zoomedCellId c' = Some cell.
Proof.
  intros Hp c'. subst c'. unfold navigateToCell. rewrite Hp.
  pose proof (setVideoState_camera projects (Some cell)
                (setZoomedProject (getProjectByCellId (Some cell) projects) w)) as Hcam.
  destruct (plane_setVideoState projects (Some cell)
              (setZoomedProject (getProjectByCellId (Some cell) projects) w) u)
    as (u' & Hp' & Hu'); [rewrite context_setZoomedProject; exact Hp|].
  rewrite context_setZoomedProject in Hcam.
  apply same_camera_fields in Hcam. destruct Hcam as (Hto & Htz & _).
  destruct Hu' as (_ & Hcs & _).
  revert Hp' Hto Htz.
  generalize (setVideoState projects (Some cell)
                (setZoomedProject (getProjectByCellId (Some cell) projects) w)).
  intros w2 Hp' Hto Htz.
  rewrite context_on_context.
  replace (plane (set_isZoomed true
             (set_targetDistortion 0
               (set_targetZoom AnimationConfig.zoomedInLevel
                 (set_lastZoom (targetZoom (set_lastOffset (targetOffset (context w2))
                                                           (context w2)))
                   (set_lastOffset (targetOffset (context w2)) (context w2)))))))
    with (plane (context w2)) by reflexivity.
  rewrite Hp'. rewrite !context_on_context.
  rewrite <- Hto, <- Htz, Hcs. repeat split.
Qed.

Lemma unzoom_restores (projects : option (list Project)) (w : World) :
  let c' := context (unzoom projects w) in
  targetOffset c' = lastOffset (context w) /\
  targetZoom c' = lastZoom (context w) /\
  zoomedCellId c' = None.
Proof.
  intros c'. subst c'. unfold unzoom. rewrite context_setZoomedProject.
  match goal with
  | |- context [setVideoState projects None ?w1] =>
      pose proof (setVideoState_camera projects None w1) as Hcam
  end.
  apply same_camera_fields in Hcam.
  destruct Hcam as (Hto & Htz & _ & _ & Hzc & _).
  rewrite Hto, Htz, Hzc. rewrite context_on_context. repeat split.
Qed.

(** C4.  On an initialized context, [navigateToCell cellA true] snapshots
    the targets and [unzoom] puts them back: [targetOffset] and [targetZoom]
    return to their values before the zoom-in.  [unzoom] also sets
    [targetDistortion] to the ambient baseline 1 (the initial
    [targetDistortion] of config.ts), which is the value it had before the
    zoom-in in every state the grid reaches unzoomed; and it leaves
    [isZoomed = false], [zoomedCellId = null]. *)
Theorem zoom_round_trip
    (projects : option (list Project)) (w : World) (cellA : Vec2) (u : Uniforms) :
  plane (context w) = Some u ->
  let zoomed := navigateToCell projects cellA true w in
  let w' := unzoom projects zoomed in
  lastOffset (context zoomed) = targetOffset (context w) /\
  lastZoom (context zoomed) = targetZoom (context w) /\
  targetOffset (context w') = targetOffset (context w) /\
  targetZoom (context w') = targetZoom (context w) /\
  targetDistortion (context w') = AnimationConfig.initialState.targetDistortion /\
  (reachable projects w -> isZoomed (context w) = false ->
   targetDistortion (context w') = targetDistortion (context w)) /\
  isZoomed (context w') = false /\
  zoomedCellId (context w') = None.
Proof.
  intros Hp. cbv zeta.
  destruct (zoom_in_snapshot projects cellA w u Hp) as (Hlo & Hlz & _).
  destruct (unzoom_restores projects (navigateToCell projects cellA true w))
    as (Hto & Htz & Hzc).
  destruct (zoom_state_eq _ _ _
              (zoom_state_unzoom projects (navigateToCell projects cellA true w)))
    as (Hz & Htd).
  repeat split.
  - exact Hlo.
  - exact Hlz.
  - now rewrite Hto.
  - now rewrite Htz.
  - exact Htd.
  - intros Hreach Hnz. rewrite Htd.
    destruct (reachable_zoom_inv projects w Hreach) as [H|H];
      apply zoom_state_eq in H; destruct H as (Hz' & Htd'); congruence.
  - exact Hz.
  - exact Hzc.
Qed.

Lemma zoom_round_trip_witness :
  let w := on_context (set_targetZoom 2)
             (on_context (set_targetOffset (vec2 5 7)) initialWorld) in
  let w' := unzoom (Some DEFAULT_PROJECTS)
              (navigateToCell (Some DEFAULT_PROJECTS) (vec2 2 3) true w) in
  plane (context w) = Some initialUniforms /\
  targetOffset (context w') = vec2 5 7 /\
  targetZoom (context w') = 2 /\
  targetDistortion (context w') = 1 /\
  isZoomed (context w') = false /\
  zoomedCellId (context w') = None.
Proof.
  cbv zeta.
  destruct (zoom_round_trip (Some DEFAULT_PROJECTS)
              (on_context (set_targetZoom 2)
                 (on_context (set_targetOffset (vec2 5 7)) initialWorld))
              (vec2 2 3) initialUniforms eq_refl)
    as (_ & _ & Hto & Htz & Htd & _ & Hz & Hzc).
  repeat split; assumption.
Defined.

(** ** The distortion uniform *)

(** Writing [uDistortionStrength] commutes with every stage of the frame
    before the uniforms are pushed, and is overwritten by the push. *)

Lemma cellIdAt_writeDistortionUniform (d : R) (p : Vec2) (c : ThreeContext) (u : Uniforms) :
  plane c = Some u ->
  cellIdAt p (on_plane (set_uDistortionStrength d) c) (set_uDistortionStrength d u)
  = cellIdAt p c u.
Proof.
  intros Hp. unfold cellIdAt, screenToWorld. cbn [plane on_plane set_plane].
  rewrite Hp. reflexivity.
Qed.

Lemma setVideoState_writeDistortionUniform
    (projects : option (list Project)) (d : R) (cell : option Vec2) (w : World) :
  setVideoState projects cell (writeDistortionUniform d w)
  = writeDistortionUniform d (setVideoState projects cell w).
Proof.
  destruct w as [c zp cur pend warn].
  destruct c as [[u|] [v|] drag zoomed pm cs off toff vel mp tmp z tz dist tdist zprog
                 loff lz nonce hov zc]; try reflexivity.
  unfold setVideoState, writeDistortionUniform.
  cbn [context on_context videoRef plane on_plane set_plane set_videoNonce option_map].
  destruct (paused v);
    (destruct (video_of (getProjectByCellId cell projects)) as [s|]; [|reflexivity]);
    (destruct (falsy_src (Some s)); [reflexivity|]);
    cbn [context on_context videoNonce set_videoNonce on_plane set_plane on_video
         set_videoRef];
    rewrite Nat.eqb_refl; cbn [negb];
    (destruct (String.eqb (src v) s); [|reflexivity]);
    unfold startPlayback; cbn [cellId]; destruct cell; reflexivity.
Qed.

Lemma detectHover_writeDistortionUniform
    (projects : option (list Project)) (d : R) (u : Uniforms) (w : World) :
  plane (context w) = Some u ->
  detectHover projects (set_uDistortionStrength d u) (writeDistortionUniform d w)
  = writeDistortionUniform d (detectHover projects u w).
Proof.
  intros Hp. unfold detectHover.
  replace (isZoomed (context (writeDistortionUniform d w)))
    with (isZoomed (context w)) by reflexivity.
  destruct (isZoomed (context w)); [reflexivity|].
  replace (context (writeDistortionUniform d w))
    with (on_plane (set_uDistortionStrength d) (context w)) by reflexivity.
  replace (targetMousePos (on_plane (set_uDistortionStrength d) (context w)))
    with (targetMousePos (context w)) by reflexivity.
  replace (hoveredCellId (on_plane (set_uDistortionStrength d) (context w)))
    with (hoveredCellId (context w)) by reflexivity.
  rewrite (cellIdAt_writeDistortionUniform d _ _ u Hp).
  match goal with |- context [if ?b then _ else _] => destruct b end; [|reflexivity].
  rewrite <- setVideoState_writeDistortionUniform. reflexivity.
Qed.

Lemma dragPan_writeDistortionUniform (d : R) (u : Uniforms) (c : ThreeContext) :
  dragPan (set_uDistortionStrength d u) (on_plane (set_uDistortionStrength d) c)
  = on_plane (set_uDistortionStrength d) (dragPan u c).
Proof.
  unfold dragPan.
  cbn [uResolution set_uDistortionStrength isDragging isZoomed on_plane set_plane].
  destruct (_ && _); reflexivity.
Qed.

Lemma pushUniforms_writeDistortionUniform (d : R) (c : ThreeContext) :
  pushUniforms (on_plane (set_uDistortionStrength d) c) = pushUniforms c.
Proof.
  destruct c as [[u|] vr drag zoomed pm cs off toff vel mp tmp z tz dist tdist zprog
                 loff lz nonce hov zc]; reflexivity.
Qed.

Lemma plane_writeDistortionUniform (d : R) (w : World) :
  plane (context (writeDistortionUniform d w))
  = option_map (set_uDistortionStrength d) (plane (context w)).
Proof. reflexivity. Qed.

Lemma animate_ignores_distortion_uniform
    (projects : option (list Project)) (d : R) (w : World) :
  animate projects (writeDistortionUniform d w) = animate projects w.
Proof.
  unfold animate. rewrite plane_writeDistortionUniform.
  destruct (plane (context w)) as [u|] eqn:Hp; cbn [option_map].
  2:{ unfold writeDistortionUniform, on_context, on_plane.
      destruct w as [c zp cur pend warn]. cbn in *.
      destruct c; cbn in *. subst. reflexivity. }
  replace (on_context lerpTowardTargets
             (on_context integrateOffset (writeDistortionUniform d w)))
    with (writeDistortionUniform d
            (on_context lerpTowardTargets (on_context integrateOffset w)))
    by reflexivity.
  assert (Hp1 : plane (context (on_context lerpTowardTargets
                                  (on_context integrateOffset w))) = Some u)
    by exact Hp.
  revert Hp1.
  generalize (on_context lerpTowardTargets (on_context integrateOffset w)).
  intros w1 Hp1.
  rewrite plane_writeDistortionUniform, Hp1. cbn [option_map].
  rewrite (detectHover_writeDistortionUniform projects d u w1 Hp1).
  generalize (detectHover projects u w1). intros w2.
  rewrite plane_writeDistortionUniform.
  destruct (plane (context w2)) as [u2|]; cbn [option_map].
  - destruct w2 as [c2 zp cur pend warn].
    unfold writeDistortionUniform, on_context.
    cbn [context zoomedProject cursor pending warnings].
    now rewrite dragPan_writeDistortionUniform, pushUniforms_writeDistortionUniform.
  - destruct w2 as [c2 zp cur pend warn].
    unfold writeDistortionUniform, on_context.
    cbn [context zoomedProject cursor pending warnings].
    now rewrite pushUniforms_writeDistortionUniform.
Qed.

Lemma same_camera_keeps_lerped (c c' : ThreeContext) :
  same_camera c c' -> keeps_lerped c c'.
Proof.
  intros H. destruct (same_camera_fields c c' H) as (_ & _ & _ & _ & _ & Hd & Hz & _).
  unfold keeps_lerped. repeat split; try assumption.
  unfold same_camera in H.
  repeat match goal with
  | H : _ /\ _ |- _ => destruct H
  end.
  unfold same_plane in *. destruct (plane c), (plane c'); easy.
Qed.

Lemma detectHover_keeps_lerped
    (projects : option (list Project)) (u : Uniforms) (w : World) :
  keeps_lerped (context w) (context (detectHover projects u w)).
Proof.
  unfold detectHover.
  destruct (isZoomed (context w)); [unfold keeps_lerped; auto|].
  match goal with |- context [if ?b then _ else _] => destruct b end;
    [|unfold keeps_lerped; auto].
  match goal with
  | |- context [setVideoState projects ?cell ?w1] =>
      pose proof (same_camera_keeps_lerped _ _ (setVideoState_camera projects cell w1))
        as H
  end.
  exact H.
Qed.

Lemma dragPan_keeps_lerped (u : Uniforms) (c : ThreeContext) :
  keeps_lerped c (dragPan u c).
Proof.
  unfold dragPan, keeps_lerped. destruct (_ && _); cbn; auto.
Qed.

Lemma animate_pushes_lerped (projects : option (list Project)) (w : World) (u : Uniforms) :
  plane (context w) = Some u ->
  exists u',
    plane (context (animate projects w)) = Some u' /\
    uDistortionStrength u' = distortion (context (animate projects w)) /\
    uZoom u' = zoom (context (animate projects w)) /\
    distortion (context (animate projects w))
    = distortion (context w)
      + (targetDistortion (context w) - distortion (context w))
        * AnimationConfig.lerpFactor.
Proof.
  intros Hp. unfold animate. rewrite Hp.
  assert (H1 : distortion (context (on_context lerpTowardTargets
                                      (on_context integrateOffset w)))
               = distortion (context w)
                 + (targetDistortion (context w) - distortion (context w))
                   * AnimationConfig.lerpFactor) by reflexivity.
  assert (Hp1 : plane (context (on_context lerpTowardTargets
                                  (on_context integrateOffset w))) <> None).
  { replace (plane (context (on_context lerpTowardTargets
                               (on_context integrateOffset w))))
      with (plane (context w)) by reflexivity.
    now rewrite Hp. }
  revert H1 Hp1. generalize (on_context lerpTowardTargets (on_context integrateOffset w)).
  intros w1 H1 Hp1. rewrite <- H1. clear H1.
  destruct (plane (context w1)) as [u1|] eqn:E1; [|easy].
  destruct (detectHover_keeps_lerped projects u1 w1) as (Hd2 & _ & Hp2).
  rewrite E1 in Hp2. rewrite <- Hd2.
  generalize dependent (detectHover projects u1 w1). intros w2 _ Hp2.
  destruct (plane (context w2)) as [u2|] eqn:E2; [|now exfalso; apply Hp2].
  destruct (dragPan_keeps_lerped u2 (context w2)) as (Hd3 & _ & Hp3).
  rewrite E2 in Hp3. rewrite <- Hd3.
  rewrite !context_on_context.
  generalize dependent (dragPan u2 (context w2)). intros c3 _ Hp3.
  destruct c3 as [[u3|] vr drag zoomed pm cs off toff vel mp tmp z tz dist tdist zprog
                  loff lz nonce hov zc]; [|now exfalso; apply Hp3].
  eexists. repeat split.
Qed.

Lemma useUniforms_writes (cellSize d : R) (w : World) :
  useUniforms cellSize d w
  = writeDistortionUniform d (on_context (on_plane (set_uCellSize cellSize)) w).
Proof.
  destruct w as [c zp cur pend warn].
  destruct c as [[u|] vr drag zoomed pm cs off toff vel mp tmp z tz dist tdist zprog
                 loff lz nonce hov zc]; reflexivity.
Qed.

(** C10.  After a frame [uDistortionStrength] holds the context's
    [distortion], which starts at 1 and is lerped toward [targetDistortion]
    (0 while zoomed, 1 otherwise, in every reachable state); the value
    useUniforms wrote from the [distortionStrength] prop is overwritten, so
    two states that differ only in that prop are the same state after the
    frame. *)
Theorem distortion_uniform_follows_context
    (projects : option (list Project)) (w : World) (u : Uniforms) :
  plane (context w) = Some u ->
  (exists u',
     plane (context (animate projects w)) = Some u' /\
     uDistortionStrength u' = distortion (context (animate projects w)) /\
     distortion (context (animate projects w))
     = distortion (context w)
       + (targetDistortion (context w) - distortion (context w))
         * AnimationConfig.lerpFactor) /\
  (forall cellSize d1 d2,
     animate projects (useUniforms cellSize d1 w)
     = animate projects (useUniforms cellSize d2 w)) /\
  distortion (context initialWorld) = 1 /\
  (reachable projects w ->
   targetDistortion (context w) = 0 \/ targetDistortion (context w) = 1).
Proof.
  intros Hp. repeat split.
  - destruct (animate_pushes_lerped projects w u Hp) as (u' & H1 & H2 & _ & H4).
    exists u'. auto.
  - intros cellSize d1 d2.
    now rewrite !useUniforms_writes, !animate_ignores_distortion_uniform.
  - intros Hreach.
    destruct (reachable_zoom_inv projects w Hreach) as [H|H];
      apply zoom_state_eq in H; tauto.
Qed.

Lemma distortion_uniform_follows_context_witness :
  let w1 := useUniforms (75 / 100) (1 / 2) initialWorld in
  let w2 := useUniforms (75 / 100) 2 initialWorld in
  plane (context w1) = Some (set_uDistortionStrength (1 / 2) initialUniforms) /\
  animate (Some DEFAULT_PROJECTS) w1 = animate (Some DEFAULT_PROJECTS) w2 /\
  exists u', plane (context (animate (Some DEFAULT_PROJECTS) w1)) = Some u' /\
             uDistortionStrength u' = 1.
Proof.
  cbv zeta. split; [reflexivity|].
  destruct (distortion_uniform_follows_context (Some DEFAULT_PROJECTS) initialWorld
              initialUniforms eq_refl) as (_ & Hsame & _).
  split; [apply Hsame|].
  destruct (distortion_uniform_follows_context (Some DEFAULT_PROJECTS)
              (useUniforms (75 / 100) (1 / 2) initialWorld)
              (set_uDistortionStrength (1 / 2) initialUniforms) eq_refl)
    as ((u' & Hp' & Hu' & Hd') & _).
  exists u'. split; [exact Hp'|].
  rewrite Hu', Hd'. cbn. unfold AnimationConfig.initialState.distortion,
    AnimationConfig.initialState.targetDistortion, AnimationConfig.lerpFactor. lra.
Defined.

(** ** Integrator: the spring on the camera offset *)

Lemma pair_eq (u v u' v' : R) : u = u' -> v = v' -> (u, v) = (u', v').
Proof. now intros -> ->. Qed.

Lemma axisX_integrateOffset (c : ThreeContext) :
  axisX (integrateOffset c) = springAxis (axisX c).
Proof.
  unfold axisX, springAxis, integrateOffset.
  cbn [targetOffset offset offsetVelocity set_offset set_offsetVelocity fst snd].
  vec_components. apply pair_eq; ring.
Qed.

Lemma axisY_integrateOffset (c : ThreeContext) :
  axisY (integrateOffset c) = springAxis (axisY c).
Proof.
  unfold axisY, springAxis, integrateOffset.
  cbn [targetOffset offset offsetVelocity set_offset set_offsetVelocity fst snd].
  vec_components. apply pair_eq; ring.
Qed.

Lemma axisX_integrateOffsetN (n : nat) (c : ThreeContext) :
  axisX (integrateOffsetN n c) = Nat.iter n springAxis (axisX c).
Proof.
  induction n as [|n IH]; [reflexivity|].
  unfold integrateOffsetN in *.
  now rewrite !Nat.iter_succ, axisX_integrateOffset, IH.
Qed.

Lemma axisY_integrateOffsetN (n : nat) (c : ThreeContext) :
  axisY (integrateOffsetN n c) = Nat.iter n springAxis (axisY c).
Proof.
  induction n as [|n IH]; [reflexivity|].
  unfold integrateOffsetN in *.
  now rewrite !Nat.iter_succ, axisY_integrateOffset, IH.
Qed.

Lemma distanceToTarget_squared (c : ThreeContext) :
  distanceToTarget c * distanceToTarget c
  = fst (axisX c) * fst (axisX c) + fst (axisY c) * fst (axisY c).
Proof.
  unfold distanceToTarget. rewrite length_squared. reflexivity.
Qed.

(** *** Convergence: an energy that shrinks by the damping at each frame *)

Lemma energy_springAxis (ev : R * R) : energy (springAxis ev) = 3 / 4 * energy ev.
Proof.
  destruct ev as [e v]. unfold energy, springAxis.
  unfold AnimationConfig.springStiffness, AnimationConfig.damping.
  cbn [fst snd]. field.
Qed.

Lemma energy_iter (n : nat) (ev : R * R) :
  energy (Nat.iter n springAxis ev) = (3 / 4) ^ n * energy ev.
Proof.
  induction n as [|n IH].
  - cbn. ring.
  - rewrite Nat.iter_succ, energy_springAxis, IH. cbn [pow]. ring.
Qed.

Lemma energy_bounds_error (ev : R * R) : fst ev * fst ev <= 50 * energy ev.
Proof.
  destruct ev as [e v]. unfold energy. cbn [fst snd].
  pose proof (Rle_0_sqr (v - 17 / 120 * e)) as Hsq. unfold Rsqr in Hsq.
  pose proof (Rle_0_sqr e) as He. unfold Rsqr in He.
  lra.
Qed.

Lemma energy_at_rest (e : R) : energy (e, 0) = 3 / 80 * (e * e).
Proof. unfold energy. cbn [fst snd]. ring. Qed.

Lemma springAxis_error_bound (n : nat) (e : R) :
  let e_n := fst (Nat.iter n springAxis (e, 0)) in
  e_n * e_n <= 2 * (3 / 4) ^ n * (e * e).
Proof.
  intros e_n. subst e_n.
  pose proof (energy_bounds_error (Nat.iter n springAxis (e, 0))) as Hb.
  rewrite energy_iter, energy_at_rest in Hb.
  assert (Hpow : 0 <= (3 / 4) ^ n) by (apply pow_le; lra).
  assert (Hsq : 0 <= e * e) by nra.
  pose proof (Rmult_le_pos _ _ Hpow Hsq) as Hp.
  nra.
Qed.

Lemma axis_at_rest (c : ThreeContext) :
  offsetVelocity c = Vector2.zero ->
  axisX c = (fst (axisX c), 0) /\ axisY c = (fst (axisY c), 0).
Proof.
  intros Hv. unfold axisX, axisY. rewrite Hv. split; reflexivity.
Qed.

Lemma targetOffset_integrateOffsetN (n : nat) (c : ThreeContext) :
  targetOffset (integrateOffsetN n c) = targetOffset c.
Proof.
  induction n as [|n IH]; [reflexivity|].
  unfold integrateOffsetN in *. rewrite Nat.iter_succ.
  now replace (targetOffset (integrateOffset (Nat.iter n integrateOffset c)))
    with (targetOffset (Nat.iter n integrateOffset c)) by reflexivity.
Qed.

Lemma distance_bound (n : nat) (c : ThreeContext) :
  offsetVelocity c = Vector2.zero ->
  distanceToTarget (integrateOffsetN n c) * distanceToTarget (integrateOffsetN n c)
  <= 2 * (3 / 4) ^ n * (distanceToTarget c * distanceToTarget c).
Proof.
  intros Hv. rewrite !distanceToTarget_squared.
  rewrite axisX_integrateOffsetN, axisY_integrateOffsetN.
  destruct (axis_at_rest c Hv) as [Hx Hy]. rewrite Hx, Hy. cbn [fst].
  pose proof (springAxis_error_bound n (fst (axisX c))) as Bx.
  pose proof (springAxis_error_bound n (fst (axisY c))) as By.
  cbv zeta in Bx, By. lra.
Qed.

Lemma square_le (u v : R) : 0 <= u -> 0 <= v -> u * u <= v * v -> u <= v.
Proof. intros Hu Hv H. nra. Qed.

(** C7, as the code has it.  With a fixed target and zero initial velocity
    the offset converges to the target: the target is not moved, after [n]
    frames the squared distance is at most [2 * (3/4)^n] times the initial
    one, and so the offset is within any tolerance from some frame on. *)
Theorem integrator_converges (c : ThreeContext) :
  offsetVelocity c = Vector2.zero ->
  (forall n, targetOffset (integrateOffsetN n c) = targetOffset c) /\
  (forall n,
     distanceToTarget (integrateOffsetN n c) * distanceToTarget (integrateOffsetN n c)
     <= 2 * (3 / 4) ^ n * (distanceToTarget c * distanceToTarget c)) /\
  (forall tolerance, 0 < tolerance ->
     exists N, forall n, (N <= n)%nat ->
       distanceToTarget (integrateOffsetN n c) <= tolerance).
Proof.
  intros Hv. split; [intros n; apply targetOffset_integrateOffsetN|].
  split; [intros n; now apply distance_bound|].
  intros tolerance Htol.
  set (D := distanceToTarget c * distanceToTarget c).
  assert (HD : 0 <= D) by (subst D; nra).
  destruct (pow_lt_1_zero (3 / 4)) with (y := tolerance * tolerance / (2 * D + 1))
    as [N HN].
  - rewrite Rabs_pos_eq; lra.
  - apply Rdiv_lt_0_compat; nra.
  - exists N. intros n Hn.
    pose proof (HN n Hn) as Hsmall.
    rewrite Rabs_pos_eq in Hsmall by (apply pow_le; lra).
    apply square_le; [apply length_nonneg | lra |].
    eapply Rle_trans; [now apply distance_bound|]. fold D.
    assert (Hq : (3 / 4) ^ n * (2 * D + 1) < tolerance * tolerance).
    { apply (Rmult_lt_compat_r (2 * D + 1)) in Hsmall; [|lra].
      unfold Rdiv in Hsmall. rewrite Rmult_assoc, Rinv_l, Rmult_1_r in Hsmall by lra.
      exact Hsmall. }
    assert (Hpow : 0 <= (3 / 4) ^ n) by (apply pow_le; lra).
    nra.
Qed.

(** *** The approach is not monotone: the spring overshoots

    The frames from a concrete start are computed on integers: after [n]
    frames the pair of an axis is the integer pair of [springAxisZ] over
    [800^n]. *)

Lemma springAxis_scaled (E V : Z) (s : R) :
  s <> 0 ->
  springAxis (IZR E / s, IZR V / s)
  = (IZR (fst (springAxisZ (E, V))) / (800 * s),
     IZR (snd (springAxisZ (E, V))) / (800 * s)).
Proof.
  intros Hs. unfold springAxis, springAxisZ.
  unfold AnimationConfig.springStiffness, AnimationConfig.damping.
  cbn [fst snd]. rewrite minus_IZR, plus_IZR, !mult_IZR.
  apply pair_eq; field; exact Hs.
Qed.

Lemma springAxis_iter_scaled (n : nat) (E V : Z) :
  Nat.iter n springAxis (IZR E, IZR V)
  = (IZR (fst (Nat.iter n springAxisZ (E, V))) / 800 ^ n,
     IZR (snd (Nat.iter n springAxisZ (E, V))) / 800 ^ n).
Proof.
  induction n as [|n IH].
  - cbn. apply pair_eq; field.
  - rewrite !Nat.iter_succ, IH.
    destruct (Nat.iter n springAxisZ (E, V)) as [En Vn]. cbn [fst snd].
    rewrite springAxis_scaled by (apply pow_nonzero; lra).
    reflexivity.
Qed.

Lemma springAxisZ_rest (n : nat) : Nat.iter n springAxisZ (0, 0)%Z = (0, 0)%Z.
Proof.
  induction n as [|n IH]; [reflexivity|].
  now rewrite Nat.iter_succ, IH.
Qed.

Lemma overshoot_squared_distance (n : nat) :
  distanceToTarget (integrateOffsetN n overshootStart)
  * distanceToTarget (integrateOffsetN n overshootStart)
  = IZR (fst (Nat.iter n springAxisZ (1, 0)%Z)) * IZR (fst (Nat.iter n springAxisZ (1, 0)%Z))
    / (800 ^ n * 800 ^ n).
Proof.
  rewrite distanceToTarget_squared, axisX_integrateOffsetN, axisY_integrateOffsetN.
  replace (axisX overshootStart) with (IZR 1, IZR 0)
    by (unfold axisX, overshootStart; cbn; apply pair_eq; ring).
  replace (axisY overshootStart) with (IZR 0, IZR 0)
    by (unfold axisY, overshootStart; cbn; apply pair_eq; ring).
  rewrite !springAxis_iter_scaled, springAxisZ_rest. cbn [fst].
  field. apply pow_nonzero. lra.
Qed.

(** C7 fails as stated: from rest at (0, 0) toward the target (1, 0) the
    offset is farther from the target after frame 16 than after frame 15. *)
Lemma integrator_not_monotone :
  offsetVelocity overshootStart = Vector2.zero /\
  distanceToTarget (integrateOffsetN 15 overshootStart)
  < distanceToTarget (integrateOffsetN 16 overshootStart).
Proof.
  split; [reflexivity|].
  apply Rnot_le_lt. intros Hle.
  assert (Hsq : distanceToTarget (integrateOffsetN 16 overshootStart)
                * distanceToTarget (integrateOffsetN 16 overshootStart)
                <= distanceToTarget (integrateOffsetN 15 overshootStart)
                   * distanceToTarget (integrateOffsetN 15 overshootStart)).
  { pose proof (length_nonneg
                  (Vector2.sub (targetOffset (integrateOffsetN 16 overshootStart))
                               (offset (integrateOffsetN 16 overshootStart)))) as H0.
    fold (distanceToTarget (integrateOffsetN 16 overshootStart)) in H0.
    nra. }
  rewrite !overshoot_squared_distance in Hsq.
  set (E15 := fst (Nat.iter 15 springAxisZ (1, 0)%Z)) in *.
  set (E16 := fst (Nat.iter 16 springAxisZ (1, 0)%Z)) in *.
  assert (Hz : (640000 * (E15 * E15) < E16 * E16)%Z) by (vm_compute; reflexivity).
  apply IZR_lt in Hz. rewrite !mult_IZR in Hz.
  assert (Hp : 0 < 800 ^ 15) by (apply pow_lt; lra).
  replace (800 ^ 16) with (800 * 800 ^ 15) in Hsq by reflexivity.
  set (p := 800 ^ 15) in *.
  assert (Hpp : 0 < p * p) by nra.
  apply (Rmult_le_compat_r (640000 * (p * p))) in Hsq; [|nra].
  replace (IZR E16 * IZR E16 / (800 * p * (800 * p)) * (640000 * (p * p)))
    with (IZR E16 * IZR E16) in Hsq by (field; lra).
  replace (IZR E15 * IZR E15 / (p * p) * (640000 * (p * p)))
    with (640000 * (IZR E15 * IZR E15)) in Hsq by (field; lra).
  lra.
Qed.

Lemma integrator_converges_witness :
  offsetVelocity overshootStart = Vector2.zero /\
  targetOffset (integrateOffsetN 16 overshootStart) = vec2 1 0 /\
  distanceToTarget (integrateOffsetN 16 overshootStart)
  * distanceToTarget (integrateOffsetN 16 overshootStart)
  <= 2 * (3 / 4) ^ 16 * (distanceToTarget overshootStart * distanceToTarget overshootStart).
Proof.
  split; [reflexivity|].
  destruct (integrator_converges overshootStart eq_refl) as (Htarget & Hbound & _).
  split; [exact (Htarget 16%nat) | exact (Hbound 16%nat)].
Defined.

(** ** SceneCompositor: the atlas lookup when there is no texture *)

Lemma smoothstep_above (edge0 edge1 v : R) :
  1 <= (v - edge0) / (edge1 - edge0) -> Shader.smoothstep edge0 edge1 v = 1.
Proof.
  intros H. unfold Shader.smoothstep, Shader.clamp.
  rewrite Rmax_left by lra. rewrite Rmin_right by lra. ring.
Qed.

Lemma mix3_one (u v : Shader.vec3) : Shader.mix3 u v 1 = v.
Proof.
  destruct v as [vr vg vb]. unfold Shader.mix3, Shader.mix. cbn.
  f_equal; ring.
Qed.

(** At the centre of a cell, with no hover, [drawImage] replaces the colour
    by texels of the image atlas fetched at [atlasUV], whatever
    [uTextureCount] is: there is no test of the count. *)
Lemma drawImage_cell_centre (U : Shader.uniforms) (color : Shader.vec3) (cell : Vec2)
                            (effectIntensity : R) :
  Shader.uIsVideoActive U = false ->
  let uv := Shader.atlasUV U cell (vec2 (1 / 2) (1 / 2)) in
  let caOffset := if Shader.uOptimizeMobile U then 0 else effectIntensity * (1 / 100) in
  Shader.drawImage U color (vec2 (1 / 2) (1 / 2)) cell 0 effectIntensity
  = Shader.mk3
      (Shader.r (Shader.rgb (Shader.uImageAtlas U (Vector2.add uv (vec2 caOffset 0)))))
      (Shader.g (Shader.rgb (Shader.uImageAtlas U uv)))
      (Shader.b (Shader.rgb (Shader.uImageAtlas U (Vector2.sub uv (vec2 caOffset 0))))).
Proof.
  intros Hvideo uv caOffset. unfold Shader.drawImage.
  cbn [Vector2.x Vector2.y]. unfold Shader.IMAGE_SIZE.
  replace ((1 / 2 - (1 - 6 / 10 * (1 + 0 * (5 / 100))) * (1 / 2))
           / (6 / 10 * (1 + 0 * (5 / 100)))) with (1 / 2) by field.
  rewrite !smoothstep_above by lra.
  replace (1 * 1 * 1 * 1) with 1 by ring.
  replace (Rgtb 1 0) with true by (symmetry; apply Rltb_spec; lra).
  rewrite Hvideo. cbn [andb].
  rewrite mix3_one. reflexivity.
Qed.

Lemma mix3_zero (u v : Shader.vec3) (t : R) : t = 0 -> Shader.mix3 u v t = u.
Proof.
  intros ->. destruct u as [ur ug ub]. unfold Shader.mix3, Shader.mix. cbn.
  f_equal; ring.
Qed.

(** In the text band of a cell, with no hover, [drawText] mixes in the texel
    of the text atlas fetched at [atlasUV], whatever [uTextureCount] is. *)
Lemma drawText_band (U : Shader.uniforms) (color : Shader.vec3) (cell : Vec2) :
  let textUV := vec2 ((1 / 2 - 5 / 100) / (9 / 10))
                     ((1 / 10 - 5 / 100) / Shader.TEXT_HEIGHT) in
  let textColor := Shader.uTextAtlas U (Shader.atlasUV U cell textUV) in
  Shader.drawText U color (vec2 (1 / 2) (1 / 10)) cell 0
  = Shader.mix3 color (Shader.rgb textColor) (Shader.a textColor).
Proof.
  intros textUV textColor. unfold Shader.drawText, Shader.TEXT_HEIGHT, Rgtb.
  cbn [Vector2.x Vector2.y].
  replace (Rltb (5 / 100) (1 / 2)) with true by (symmetry; apply Rltb_spec; lra).
  replace (Rltb (1 / 2) (95 / 100)) with true by (symmetry; apply Rltb_spec; lra).
  replace (Rltb (5 / 100) (1 / 10)) with true by (symmetry; apply Rltb_spec; lra).
  replace (Rltb (1 / 10) (5 / 100 + 8 / 100)) with true
    by (symmetry; apply Rltb_spec; lra).
  cbn [andb]. unfold Shader.texture. fold textUV. fold textColor.
  rewrite (mix3_zero (Shader.rgb textColor)) by ring. reflexivity.
Qed.

(** C9 at its failing input.  With [uTextureCount = 0] the shader still
    takes the atlas branch of [drawImage] and [drawText]: at the centre of a
    cell and in its text band the background colour is replaced by what the
    atlas fetch returns. *)
Theorem shader_samples_atlas_without_textures :
  Shader.uTextureCount withoutTextures = 0 /\
  (forall cell,
     Shader.drawImage withoutTextures white (vec2 (1 / 2) (1 / 2)) cell 0 0 = black) /\
  (forall cell,
     Shader.drawText withoutTextures white (vec2 (1 / 2) (1 / 10)) cell 0 = black) /\
  black <> white.
Proof.
  split; [reflexivity|]. split; [|split].
  - intros cell. rewrite drawImage_cell_centre by reflexivity. reflexivity.
  - intros cell. rewrite drawText_band.
    unfold withoutTextures, bindUniforms, blackTexture.
    cbn [Shader.uTextAtlas Shader.rgb Shader.a]. apply mix3_one.
  - unfold black, white. intros H. injection H as H _ _. lra.
Qed.

(** ** HoverMediaController: the nonce *)

Lemma Forall_without {A : Type} (P : A -> Prop) (l before after : list A) (r : A) :
  l = before ++ r :: after -> Forall P l -> P r /\ Forall P (before ++ after).
Proof.
  intros -> H. apply Forall_app in H. destruct H as [Hb Hr].
  inversion Hr; subst. split; [assumption|]. apply Forall_app. now split.
Qed.

Lemma getProjectByCellId_found (cell : option Vec2) (projects : option (list Project))
                               (p : Project) :
  getProjectByCellId cell projects = Found p -> exists c, cell = Some c.
Proof.
  destruct cell as [c|]; [now exists c|]. cbn. destruct projects; discriminate.
Qed.

(** What a call does on a mounted grid: the nonce goes up by one, the video
    is marked inactive, and either nothing is left suspended (no video for
    the cell), or the call waits for the load, or (same source as before) it
    has written the hovered cell and waits for the playback. *)
Lemma setVideoState_mounted
    (projects : option (list Project)) (cell : option Vec2) (w : World) :
  mounted w ->
  let w' := setVideoState projects cell w in
  let n := S (videoNonce (context w)) in
  mounted w' /\
  videoNonce (context w') = n /\
  isActive w' = false /\
  (pending w' = pending w \/
   exists c p s,
     cell = Some c /\ getProjectByCellId cell projects = Found p /\ video p = Some s /\
     videoSrc w' = Some s /\
     (pending w' = {| currentNonce := n; cellId := cell; newSrc := s;
                      awaiting := AwaitLoad |} :: pending w
      \/ (pending w' = {| currentNonce := n; cellId := cell; newSrc := s;
                          awaiting := AwaitPlay |} :: pending w
          /\ hoveredUniform w' = Some c))).
Proof.
  intros [Hv Hp]. destruct w as [c zp cur pend warn].
  destruct c as [[u|] [v|] drag zoomed pm cs off toff vel mp tmp z tz dist tdist zprog
                 loff lz nonce hov zc]; cbn in Hv, Hp; try easy.
  clear Hv Hp. cbv zeta. unfold setVideoState, mounted, isActive.
  cbn [context on_context videoRef plane videoNonce set_videoNonce on_plane set_plane
       option_map].
  destruct (getProjectByCellId cell projects) as [| |p] eqn:Eproj;
    cbn [video_of]; try (destruct (paused v); cbn; repeat split; auto; easy).
  destruct (video p) as [s|] eqn:Evid;
    [|destruct (paused v); cbn; repeat split; auto; easy].
  destruct (falsy_src (Some s));
    [destruct (paused v); cbn; repeat split; auto; easy|].
  destruct (getProjectByCellId_found _ _ _ Eproj) as [cB ->].
  assert (Hn : forall w1 : World, videoNonce (context w1) = S nonce ->
                 negb (S nonce =? videoNonce (context w1))%nat = false).
  { intros w1 ->. now rewrite Nat.eqb_refl. }
  destruct (paused v) eqn:Epaused; rewrite Hn by reflexivity;
    destruct (String.eqb_spec (src v) s) as [Esrc|Esrc].
  all: cbn; repeat split; try easy.
  all: right; exists cB, p, s; repeat split; auto.
  all: try (now rewrite Esrc).
Qed.

Lemma resume_keeps_mounted_and_nonce (w w' : World) :
  resume w w' ->
  videoNonce (context w') = videoNonce (context w) /\
  videoSrc w' = videoSrc w /\
  (mounted w -> mounted w') /\
  (nonces_wf w -> nonces_wf w').
Proof.
  intros [w0 before r after Hp Ha | w0 before r after Hp Ha
          | w0 before r after name Hp Ha];
    destruct w0 as [c zp cur pend warn]; cbn in Hp; subst pend.
  - unfold loadResolved, startPlayback.
    destruct (cellId r) as [cB|]; cbn.
    + unfold videoSrc, mounted, nonces_wf. cbn. repeat split.
      * destruct (videoRef c); reflexivity.
      * destruct (videoRef c); easy.
      * destruct (plane c); easy.
      * intros H. apply (Forall_without _ _ before after r eq_refl) in H.
        destruct H as [Hr Hrest]. constructor; assumption.
    + unfold videoSrc, mounted, nonces_wf. cbn. repeat split; try easy.
      intros H. now apply (Forall_without _ _ before after r eq_refl) in H.
  - unfold playResolved. cbn [context set_pending].
    destruct (_ =? _)%nat; unfold videoSrc, mounted, nonces_wf; cbn; repeat split;
      try easy.
    + destruct (plane c); easy.
    + intros H. now apply (Forall_without _ _ before after r eq_refl) in H.
    + intros H. now apply (Forall_without _ _ before after r eq_refl) in H.
  - unfold playRejected.
    destruct (String.eqb name "AbortError");
      unfold videoSrc, mounted, nonces_wf; cbn; repeat split; try easy.
    + intros H. now apply (Forall_without _ _ before after r eq_refl) in H.
    + intros H. now apply (Forall_without _ _ before after r eq_refl) in H.
Qed.

Lemma resumes_keep_mounted_and_nonce (w w' : World) :
  resumes w w' ->
  videoNonce (context w') = videoNonce (context w) /\
  (mounted w -> mounted w') /\
  (nonces_wf w -> nonces_wf w').
Proof.
  induction 1 as [w | w w' w'' _ IH Hstep]; [auto|].
  destruct IH as (Hn & Hm & Hwf).
  destruct (resume_keeps_mounted_and_nonce _ _ Hstep) as (Hn' & _ & Hm' & Hwf').
  split; [congruence|]. split; auto.
Qed.

Lemma setVideoState_keeps_wf
    (projects : option (list Project)) (cell : option Vec2) (w : World) :
  mounted w -> nonces_wf w -> nonces_wf (setVideoState projects cell w).
Proof.
  intros Hm Hwf.
  destruct (setVideoState_mounted projects cell w Hm) as (_ & Hn & _ & Hpend).
  unfold nonces_wf in *. rewrite Hn.
  assert (Hold : Forall (fun r => (currentNonce r <= S (videoNonce (context w)))%nat)
                        (pending w)).
  { eapply Forall_impl; [|exact Hwf]. cbn. intros r Hr. lia. }
  destruct Hpend as [-> | (c & p & s & _ & _ & _ & _ & [-> | [-> _]])];
    [exact Hold | constructor; [cbn; lia | exact Hold] ..].
Qed.

(** *** After the call for cellB

    The states reached from the call for cellB by resumptions alone, with
    [nB] its nonce and [srcB] the source of the video element after it. *)
Section AfterSecondCall.

Variable projects : option (list Project).
Variable cellB : option Vec2.
Variable nB : nat.
Variable srcB : option string.

Lemma media_inv_resume (w w' : World) :
  media_inv projects cellB nB srcB w -> resume w w' -> media_inv projects cellB nB srcB w'.
Proof.
  intros (Hn & Hsrc & Hplane & Hall & Hact) Hres.
  destruct (resume_keeps_mounted_and_nonce _ _ Hres) as (Hn' & Hsrc' & _ & _).
  unfold media_inv. rewrite Hn', Hsrc'. split; [exact Hn|]. split; [exact Hsrc|].
  destruct Hres as [w0 before r after Hp Ha | w0 before r after Hp Ha
                    | w0 before r after name Hp Ha];
    destruct (Forall_without _ _ _ _ _ Hp Hall) as [Hr Hrest];
    destruct w0 as [c zp cur pend warn]; cbn in Hp, Hplane; subst pend.
  - unfold loadResolved, startPlayback, isActive in *.
    destruct (cellId r) as [cA|]; cbn in *.
    + destruct (plane c) as [u|]; [|easy]. cbn in *.
      repeat split; try easy. constructor; [exact Hr | exact Hrest].
    + repeat split; easy.
  - unfold playResolved, isActive in *. cbn [context set_pending].
    destruct (Nat.eqb_spec (currentNonce r) (videoNonce c)) as [Heq|Hne]; cbn in *.
    + rewrite Hn in Heq. destruct (plane c) as [u|]; [|easy]. cbn.
      repeat split; try easy. intros _. exact (Hr Heq).
    + repeat split; easy.
  - unfold playRejected, isActive in *.
    destruct (String.eqb name "AbortError"); cbn in *; repeat split; easy.
Qed.

Lemma media_inv_resumes (w w' : World) :
  media_inv projects cellB nB srcB w -> resumes w w' -> media_inv projects cellB nB srcB w'.
Proof.
  intros Hinv Hres. induction Hres as [w | w w' w'' _ IH Hstep]; [exact Hinv|].
  eapply media_inv_resume; [apply IH; exact Hinv | exact Hstep].
Qed.

Lemma media_inv_active (w : World) :
  media_inv projects cellB nB srcB w -> isActive w = true ->
  exists c p s,
    cellB = Some c /\ getProjectByCellId cellB projects = Found p /\
    video p = Some s /\ videoSrc w = Some s.
Proof.
  intros (_ & Hsrc & _ & _ & Hact) Hon.
  destruct (Hact Hon) as (c & p & s & HB & Hp & Hv & Hs).
  exists c, p, s. repeat split; try assumption; congruence.
Qed.

Lemma race_inv_resume (w w' : World) :
  race_inv projects cellB nB srcB w -> resume w w' -> race_inv projects cellB nB srcB w'.
Proof.
  intros (Hn & Hsrc & Hplane & Hall & Hact & Hphase) Hres.
  destruct (resume_keeps_mounted_and_nonce _ _ Hres) as (Hn' & Hsrc' & _ & _).
  unfold race_inv. rewrite Hn', Hsrc'. split; [exact Hn|]. split; [exact Hsrc|].
  destruct Hres as [w0 before r after Hp Ha | w0 before r after Hp Ha
                    | w0 before r after name Hp Ha];
    destruct (Forall_without _ _ _ _ _ Hp Hall) as [[Hr1 Hr2] Hrest];
    destruct w0 as [c zp cur pend warn]; cbn in Hp, Hplane; subst pend.
  - (* the load resolved: r is the call for cellB *)
    specialize (Hr1 Ha). unfold loadResolved, startPlayback. rewrite Hr1.
    destruct cellB as [cB|] eqn:EB.
    + unfold isActive, hoveredUniform in *. cbn in *.
      destruct (plane c) as [u|]; [|easy]. cbn in *.
      repeat split; try easy.
      * constructor; [|exact Hrest]. cbn. split; [discriminate|exact Hr2].
      * left. now exists cB.
    + unfold isActive, hoveredUniform in *. cbn in *.
      repeat split; try easy.
      destruct Hphase as [(cB & HB & _) | [Hno Hfalse]]; [discriminate|].
      right. split; [|exact Hfalse].
      now apply (Forall_without _ _ before after r eq_refl) in Hno.
  - (* the playback started *)
    unfold playResolved. cbn [context set_pending].
    destruct (Nat.eqb_spec (currentNonce r) (videoNonce c)) as [Heq|Hne].
    + cbn in Hn. rewrite Hn in Heq. specialize (Hr2 Heq).
      unfold isActive, hoveredUniform in *. cbn in *.
      destruct (plane c) as [u|]; [|easy]. cbn in *.
      repeat split; try easy.
      destruct Hphase as [Hhov | [Hno _]]; [left; exact Hhov|].
      apply (Forall_without _ _ before after r eq_refl) in Hno.
      destruct Hno as [[Hno | Hno] _]; [easy | congruence].
    + unfold isActive, hoveredUniform in *. cbn in *.
      repeat split; try easy.
      destruct Hphase as [Hhov | [Hno Hfalse]]; [left; exact Hhov|].
      right. split; [|exact Hfalse].
      now apply (Forall_without _ _ before after r eq_refl) in Hno.
  - (* the playback failed *)
    unfold playRejected.
    destruct (String.eqb name "AbortError");
      unfold isActive, hoveredUniform in *; cbn in *;
      (repeat split; try easy);
      (destruct Hphase as [Hhov | [Hno Hfalse]]; [left; exact Hhov|]);
      right; (split; [|exact Hfalse]);
      now apply (Forall_without _ _ before after r eq_refl) in Hno.
Qed.

Lemma race_inv_resumes (w w' : World) :
  race_inv projects cellB nB srcB w -> resumes w w' -> race_inv projects cellB nB srcB w'.
Proof.
  intros Hinv Hres. induction Hres as [w | w w' w'' _ IH Hstep]; [exact Hinv|].
  eapply race_inv_resume; [apply IH; exact Hinv | exact Hstep].
Qed.

Lemma race_inv_active (w : World) :
  race_inv projects cellB nB srcB w -> isActive w = true -> hoveredUniform w = cellB.
Proof.
  intros (_ & _ & _ & _ & _ & Hphase) Hon.
  destruct Hphase as [(c & HB & Hhov) | [_ Hoff]]; congruence.
Qed.

End AfterSecondCall.

Lemma media_inv_after_call
    (projects : option (list Project)) (cellB : option Vec2) (w1 : World) :
  mounted w1 -> nonces_wf w1 ->
  media_inv projects cellB (S (videoNonce (context w1)))
            (videoSrc (setVideoState projects cellB w1))
            (setVideoState projects cellB w1).
Proof.
  intros Hm Hwf.
  destruct (setVideoState_mounted projects cellB w1 Hm)
    as ([_ Hplane] & Hn & Hoff & Hpend).
  assert (Hold : Forall (fun r => currentNonce r = S (videoNonce (context w1)) ->
                                  secondMedia projects cellB
                                    (videoSrc (setVideoState projects cellB w1)))
                        (pending w1)).
  { eapply Forall_impl; [|exact Hwf]. cbn. intros r Hr Heq. lia. }
  unfold media_inv. split; [exact Hn|]. split; [reflexivity|]. split; [exact Hplane|].
  split; [|congruence].
  destruct Hpend as [-> | (c & p & s & HB & Hproj & Hvid & Hsrc & [-> | [-> _]])];
    [exact Hold | constructor; [intros _; exists c, p, s; auto | exact Hold] ..].
Qed.

Lemma race_inv_after_call
    (projects : option (list Project)) (cellB : option Vec2) (w1 : World) :
  mounted w1 -> nonces_wf w1 -> microtasksDone w1 ->
  race_inv projects cellB (S (videoNonce (context w1)))
           (videoSrc (setVideoState projects cellB w1))
           (setVideoState projects cellB w1).
Proof.
  intros Hm Hwf Hmicro.
  destruct (setVideoState_mounted projects cellB w1 Hm)
    as ([_ Hplane] & Hn & Hoff & Hpend).
  set (nB := S (videoNonce (context w1))) in *.
  assert (Hold : Forall (fun r => awaiting r = AwaitPlay /\ currentNonce r <> nB)
                        (pending w1)).
  { unfold nonces_wf, microtasksDone in *. rewrite Forall_forall in *.
    intros r Hr. split; [now apply Hmicro|].
    specialize (Hwf r Hr). subst nB. cbn in Hwf. lia. }
  assert (Hold1 : Forall (fun r => (awaiting r = AwaitLoad -> cellId r = cellB) /\
                                   (currentNonce r = nB ->
                                    secondMedia projects cellB
                                      (videoSrc (setVideoState projects cellB w1))))
                         (pending w1)).
  { eapply Forall_impl; [|exact Hold]. cbn. intros r [Ha Hne].
    split; [congruence | easy]. }
  assert (Hold2 : Forall (fun r => currentNonce r <> nB \/ awaiting r = AwaitLoad)
                         (pending w1)).
  { eapply Forall_impl; [|exact Hold]. cbn. intros r [_ Hne]. now left. }
  unfold race_inv. split; [exact Hn|]. split; [reflexivity|]. split; [exact Hplane|].
  destruct Hpend as [Hp | (c & p & s & HB & Hproj & Hvid & Hsrc & [Hp | [Hp Hhov]])];
    rewrite Hp.
  - split; [exact Hold1|]. split; [congruence|]. right. now split.
  - assert (Hmedia : secondMedia projects cellB
                       (videoSrc (setVideoState projects cellB w1)))
      by (exists c, p, s; auto).
    split; [constructor; [cbn; auto | exact Hold1]|].
    split; [congruence|]. right. split; [|exact Hoff].
    constructor; [now right | exact Hold2].
  - assert (Hmedia : secondMedia projects cellB
                       (videoSrc (setVideoState projects cellB w1)))
      by (exists c, p, s; auto).
    split; [constructor; [cbn; split; [discriminate | auto] | exact Hold1]|].
    split; [congruence|]. left. now exists c.
Qed.

(** What the nonce does settle.  On a mounted grid, call
    [setVideoState cellA], let any of the suspended calls go on, then call
    [setVideoState cellB].  Whatever is resumed afterwards, in whatever order:
    whenever [uIsVideoActive] is true, cellB has a video and the element
    plays that video; if the call for cellB was made with no microtask
    waiting (as the call of a new task is), [uHoveredCellId] is cellB as well;
    and when the playback requested for cellA settles late, its continuation
    changes nothing (no uniform, no warning), its nonce being stale. *)
Lemma nonce_settles_play
    (projects : option (list Project)) (cellA cellB : option Vec2) (w0 w1 w : World) :
  mounted w0 -> nonces_wf w0 ->
  resumes (setVideoState projects cellA w0) w1 ->
  resumes (setVideoState projects cellB w1) w ->
  (isActive w = true ->
   exists c p s,
     cellB = Some c /\ getProjectByCellId cellB projects = Found p /\
     video p = Some s /\ videoSrc w = Some s) /\
  (microtasksDone w1 -> isActive w = true -> hoveredUniform w = cellB) /\
  (forall before r after,
     pending w = before ++ r :: after ->
     currentNonce r = S (videoNonce (context w0)) ->
     playResolved r (set_pending (before ++ after) w) = set_pending (before ++ after) w).
Proof.
  intros Hm0 Hwf0 HresA HresB.
  destruct (setVideoState_mounted projects cellA w0 Hm0) as (HmA & HnA & _).
  pose proof (setVideoState_keeps_wf projects cellA w0 Hm0 Hwf0) as HwfA.
  destruct (resumes_keep_mounted_and_nonce _ _ HresA) as (Hn1 & Hm1 & Hwf1).
  specialize (Hm1 HmA). specialize (Hwf1 HwfA).
  pose proof (media_inv_after_call projects cellB w1 Hm1 Hwf1) as Hmedia.
  pose proof (media_inv_resumes _ _ _ _ _ _ Hmedia HresB) as Hmedia'.
  split; [|split].
  - intros Hon. eapply media_inv_active; eassumption.
  - intros Hmicro Hon.
    pose proof (race_inv_after_call projects cellB w1 Hm1 Hwf1 Hmicro) as Hinv.
    pose proof (race_inv_resumes _ _ _ _ _ _ Hinv HresB) as Hinv'.
    eapply race_inv_active; eassumption.
  - intros before r after Hp Hr. unfold playResolved.
    destruct Hmedia' as (Hn & _).
    replace (context (set_pending (before ++ after) w)) with (context w) by reflexivity.
    rewrite Hn, Hn1, HnA, Hr.
    destruct (Nat.eqb_spec (S (videoNonce (context w0))) (S (S (videoNonce (context w0)))));
      [lia | reflexivity].
Qed.

(** The call when the cell has a video other than the one in the element:
    the element is given the new source and the call waits for the load. *)
Lemma setVideoState_starts_load
    (projects : option (list Project)) (cell : option Vec2) (w : World)
    (v : Video) (u : Uniforms) (p : Project) (s : string) :
  videoRef (context w) = Some v -> plane (context w) = Some u ->
  getProjectByCellId cell projects = Found p -> video p = Some s ->
  falsy_src (Some s) = false -> String.eqb (src v) s = false ->
  let n := S (videoNonce (context w)) in
  let w2 := on_context (on_plane (set_uIsVideoActive false))
              (on_context (set_videoNonce n) w) in
  setVideoState projects cell w
  = suspend {| currentNonce := n; cellId := cell; newSrc := s; awaiting := AwaitLoad |}
      (on_context (on_video (load s))
         (if paused v then w2 else on_context (on_video pause) w2)).
Proof.
  intros Hv Hp Hproj Hvid Hfalsy Hsrc. cbv zeta. unfold setVideoState.
  rewrite !context_on_context.
  replace (videoRef (set_videoNonce (S (videoNonce (context w))) (context w)))
    with (videoRef (context w)) by reflexivity.
  replace (plane (set_videoNonce (S (videoNonce (context w))) (context w)))
    with (plane (context w)) by reflexivity.
  rewrite Hv, Hp, Hproj. cbn [video_of]. rewrite Hvid, Hfalsy, Hsrc.
  destruct (paused v); rewrite !context_on_context; cbn [videoNonce set_videoNonce
    on_plane on_video set_plane set_videoRef]; now rewrite Nat.eqb_refl.
Qed.

Lemma project_at_cell00 :
  exists p, getProjectByCellId (Some cell00) (Some DEFAULT_PROJECTS) = Found p /\
            video p = Some "https://storage.googleapis.com/gtv-videos-bucket/sample/Sintel.mp4"%string.
Proof.
  eexists. split.
  - apply (getProjectByCellId_at_residue 0 0 DEFAULT_PROJECTS). reflexivity.
  - reflexivity.
Qed.

Lemma project_at_cell10 :
  exists p, getProjectByCellId (Some cell10) (Some DEFAULT_PROJECTS) = Found p /\
            video p = Some "https://storage.googleapis.com/gtv-videos-bucket/sample/WhatCarCanYouGetForAGrand.mp4"%string.
Proof.
  eexists. split.
  - apply (getProjectByCellId_at_residue 1 0 DEFAULT_PROJECTS). reflexivity.
  - reflexivity.
Qed.

Lemma nonce_settles_play_run :
  mounted raceStart /\ nonces_wf raceStart /\
  resumes (setVideoState (Some DEFAULT_PROJECTS) (Some cell00) raceStart) beforeCallB /\
  microtasksDone beforeCallB /\
  resumes (setVideoState (Some DEFAULT_PROJECTS) (Some cell10) beforeCallB) raceEnd /\
  isActive raceEnd = true /\
  videoSrc raceEnd = Some whatCar /\
  hoveredUniform raceEnd = Some cell10 /\
  playResolved (requestA AwaitPlay) (set_pending [] raceEnd) = set_pending [] raceEnd.
Proof.
  assert (Hm : mounted raceStart) by (split; discriminate).
  assert (Hwf : nonces_wf raceStart) by constructor.
  assert (HA : setVideoState (Some DEFAULT_PROJECTS) (Some cell00) raceStart = afterCallA).
  { destruct project_at_cell00 as (p & Hp & Hv).
    exact (setVideoState_starts_load (Some DEFAULT_PROJECTS) (Some cell00) raceStart
             _ _ p sintel eq_refl eq_refl Hp Hv eq_refl eq_refl). }
  assert (HB : setVideoState (Some DEFAULT_PROJECTS) (Some cell10) beforeCallB = afterCallB).
  { destruct project_at_cell10 as (p & Hp & Hv).
    exact (setVideoState_starts_load (Some DEFAULT_PROJECTS) (Some cell10) beforeCallB
             _ _ p whatCar eq_refl eq_refl Hp Hv eq_refl eq_refl). }
  assert (HrA : resumes (setVideoState (Some DEFAULT_PROJECTS) (Some cell00) raceStart)
                        beforeCallB).
  { rewrite HA. eapply resumes_step; [apply resumes_refl|].
    exact (resume_load afterCallA [] (requestA AwaitLoad) [] eq_refl eq_refl). }
  assert (Hmicro : microtasksDone beforeCallB).
  { repeat constructor. }
  assert (HrB : resumes (setVideoState (Some DEFAULT_PROJECTS) (Some cell10) beforeCallB)
                        raceEnd).
  { rewrite HB. eapply resumes_step; [eapply resumes_step; [apply resumes_refl|]|].
    - exact (resume_load afterCallB [] (requestB AwaitLoad) [requestA AwaitPlay]
               eq_refl eq_refl).
    - exact (resume_play
               (loadResolved (requestB AwaitLoad)
                  (set_pending [requestA AwaitPlay] afterCallB))
               [] (requestB AwaitPlay) [requestA AwaitPlay] eq_refl eq_refl). }
  destruct (nonce_settles_play (Some DEFAULT_PROJECTS) (Some cell00) (Some cell10)
              raceStart beforeCallB raceEnd Hm Hwf HrA HrB) as (Hactive & Hcell & Hstale).
  assert (Hon : isActive raceEnd = true) by reflexivity.
  destruct (Hactive Hon) as (c & p & s & Hc & Hp & Hv & Hsrc).
  pose proof (Hcell Hmicro Hon) as Hhov.
  destruct project_at_cell10 as (p' & Hp' & Hv').
  assert (Hs : s = whatCar) by (unfold whatCar; congruence).
  split; [exact Hm|]. split; [exact Hwf|]. split; [exact HrA|].
  split; [exact Hmicro|]. split; [exact HrB|]. split; [exact Hon|].
  split; [rewrite <- Hs; exact Hsrc|]. split; [exact Hhov|].
  exact (Hstale [] (requestA AwaitPlay) [] eq_refl eq_refl).
Defined.

(** The call when the element has the video of the cell already: nothing is
    loaded and the call goes on to [play()] at once. *)
Lemma setVideoState_same_source
    (projects : option (list Project)) (cell : option Vec2) (w : World)
    (v : Video) (u : Uniforms) (p : Project) (s : string) :
  videoRef (context w) = Some v -> plane (context w) = Some u ->
  getProjectByCellId cell projects = Found p -> video p = Some s ->
  falsy_src (Some s) = false -> String.eqb (src v) s = true ->
  let n := S (videoNonce (context w)) in
  let w2 := on_context (on_plane (set_uIsVideoActive false))
              (on_context (set_videoNonce n) w) in
  setVideoState projects cell w
  = startPlayback
      {| currentNonce := n; cellId := cell; newSrc := s; awaiting := AwaitLoad |}
      (if paused v then w2 else on_context (on_video pause) w2).
Proof.
  intros Hv Hp Hproj Hvid Hfalsy Hsrc. cbv zeta. unfold setVideoState.
  rewrite !context_on_context.
  replace (videoRef (set_videoNonce (S (videoNonce (context w))) (context w)))
    with (videoRef (context w)) by reflexivity.
  replace (plane (set_videoNonce (S (videoNonce (context w))) (context w)))
    with (plane (context w)) by reflexivity.
  rewrite Hv, Hp, Hproj. cbn [video_of]. rewrite Hvid, Hfalsy, Hsrc.
  destruct (paused v); rewrite !context_on_context; cbn [videoNonce set_videoNonce
    on_plane on_video set_plane set_videoRef]; now rewrite Nat.eqb_refl.
Qed.

Lemma project_at_cell03 :
  exists p, getProjectByCellId (Some cell03) (Some DEFAULT_PROJECTS) = Found p /\
            video p = Some "https://storage.googleapis.com/gtv-videos-bucket/sample/Sintel.mp4"%string.
Proof.
  eexists. split.
  - apply (getProjectByCellId_at_residue 0 3 DEFAULT_PROJECTS). reflexivity.
  - reflexivity.
Qed.

(** C5.  A stale call is not discarded after its load: the nonce is checked
    before [await videoRef.load()] and after [await videoRef.play()], not in
    between.  On a mounted grid, [setVideoState] is called for cell (0, 0) and
    at once, while that call waits for its load, for cell (0, 3), which shows
    the same project.  The second call finds its video in the element and
    goes on to [play()] with [uHoveredCellId] = (0, 3).  Then the load of the
    first call goes on: its nonce is 1, the counter is 2, and it writes (0, 0)
    to [uHoveredCellId] and calls [play()] all the same.  When the playback
    of the second call starts, [uIsVideoActive] becomes true with
    [uHoveredCellId] the cell of the first call. *)
Theorem stale_load_is_not_discarded :
  let projects := Some DEFAULT_PROJECTS in
  let afterA := setVideoState projects (Some cell00) raceStart in
  let afterB := setVideoState projects (Some cell03) afterA in
  mounted raceStart /\ nonces_wf raceStart /\
  pending afterA = [requestA AwaitLoad] /\
  pending afterB = [requestC AwaitPlay; requestA AwaitLoad] /\
  videoNonce (context afterB) = 2%nat /\
  isActive afterB = false /\
  hoveredUniform afterB = Some cell03 /\
  resume afterB staleLoad /\
  currentNonce (requestA AwaitLoad) <> videoNonce (context afterB) /\
  hoveredUniform staleLoad = Some cell00 /\
  pending staleLoad = [requestA AwaitPlay; requestC AwaitPlay] /\
  resume staleLoad staleEnd /\
  videoNonce (context staleEnd) = currentNonce (requestC AwaitPlay) /\
  isActive staleEnd = true /\
  hoveredUniform staleEnd = Some cell00 /\
  cell00 <> cell03.
Proof.
  cbv zeta.
  assert (HA : setVideoState (Some DEFAULT_PROJECTS) (Some cell00) raceStart = afterCallA).
  { destruct project_at_cell00 as (p & Hp & Hv).
    exact (setVideoState_starts_load (Some DEFAULT_PROJECTS) (Some cell00) raceStart
             _ _ p sintel eq_refl eq_refl Hp Hv eq_refl eq_refl). }
  assert (HC : setVideoState (Some DEFAULT_PROJECTS) (Some cell03) afterCallA = afterCallC).
  { destruct project_at_cell03 as (p & Hp & Hv).
    exact (setVideoState_same_source (Some DEFAULT_PROJECTS) (Some cell03) afterCallA
             _ _ p sintel eq_refl eq_refl Hp Hv eq_refl eq_refl). }
  rewrite HA, HC.
  split; [split; discriminate|]. split; [constructor|].
  split; [reflexivity|]. split; [reflexivity|]. split; [reflexivity|].
  split; [reflexivity|]. split; [reflexivity|].
  split; [exact (resume_load afterCallC [requestC AwaitPlay] (requestA AwaitLoad) []
                   eq_refl eq_refl)|].
  split; [discriminate|]. split; [reflexivity|]. split; [reflexivity|].
  split; [exact (resume_play staleLoad [requestA AwaitPlay] (requestC AwaitPlay) []
                   eq_refl eq_refl)|].
  split; [reflexivity|]. split; [reflexivity|]. split; [reflexivity|].
  unfold cell00, cell03. intros [= H]. apply eq_IZR in H. discriminate.
Qed.

(** * Further properties of the hooks *)

(** ** ProjectLookup: the tiling *)

(** The index the lookup reads, for any cell and a non-empty list. *)
Lemma getProjectByCellId_index (id : Vec2) (projects : list Project) :
  projects <> [] ->
  let N := Z.of_nat (List.length projects) in
  let index := ((Zfloor (Vector2.x id) + Zfloor (Vector2.y id) * 3) mod N)%Z in
  (0 <= index < N)%Z /\
  exists p, nth_error projects (Z.to_nat index) = Some p /\
            getProjectByCellId (Some id) (Some projects) = Found p.
Proof.
  intros Hne N index.
  assert (HN : (0 < N)%Z).
  { subst N. destruct projects; [easy | cbn [List.length]; lia]. }
  assert (Hrange : (0 <= index < N)%Z) by (apply Z.mod_pos_bound; exact HN).
  split; [exact Hrange|].
  destruct (array_get_in_range projects index Hrange) as (p & Hnth & Hget).
  exists p. split; [exact Hnth|].
  unfold getProjectByCellId. fold N.
  destruct (Z.eqb_spec N 0) as [H0|_]; [lia|].
  rewrite rem_rem_is_mod by exact HN. fold index. now rewrite Hget.
Qed.




(** X2.  The tiling repeats: moving a cell by [(a, b)] with [a + 3b] a
    multiple of the number of projects (so by [(N, 0)], or by [(3, -1)]) shows
    the same project. *)
Theorem getProjectByCellId_periodic (id : Vec2) (a b : Z) (projects : list Project) :
  ((a + b * 3) mod Z.of_nat (List.length projects) = 0)%Z ->
  getProjectByCellId
    (Some (vec2 (Vector2.x id + IZR a) (Vector2.y id + IZR b))) (Some projects)
  = getProjectByCellId (Some id) (Some projects).
Proof.
  intros Hper. unfold getProjectByCellId. cbn [Vector2.x Vector2.y].
  set (N := Z.of_nat (List.length projects)) in *.
  destruct (Z.eqb_spec N 0) as [H0|Hn0]; [reflexivity|].
  assert (HN : (0 < N)%Z) by (subst N; lia).
  rewrite !Zfloor_addz, !rem_rem_is_mod by exact HN.
  replace (Zfloor (Vector2.x id) + a + (Zfloor (Vector2.y id) + b) * 3)%Z
    with ((Zfloor (Vector2.x id) + Zfloor (Vector2.y id) * 3) + (a + b * 3))%Z by ring.
  rewrite Z.add_mod by lia. rewrite Hper, Z.add_0_r, Z.mod_mod by lia.
  reflexivity.
Qed.

Lemma getProjectByCellId_periodic_witness :
  ((3 + -1 * 3) mod Z.of_nat (List.length DEFAULT_PROJECTS) = 0)%Z /\
  getProjectByCellId (Some (vec2 (4 + IZR 3) (2 + IZR (-1)))) (Some DEFAULT_PROJECTS)
  = getProjectByCellId (Some (vec2 4 2)) (Some DEFAULT_PROJECTS).
Proof.
  split; [reflexivity|].
  exact (getProjectByCellId_periodic (vec2 4 2) 3 (-1) DEFAULT_PROJECTS eq_refl).
Defined.

(** X3.  Every project is shown: the i-th project is the one of cell (i, 0). *)
Theorem getProjectByCellId_shows_each (i : nat) (p : Project) (projects : list Project) :
  nth_error projects i = Some p ->
  getProjectByCellId (Some (vec2 (INR i) 0)) (Some projects) = Found p.
Proof.
  intros Hnth.
  assert (Hlt : (i < List.length projects)%nat).
  { apply nth_error_Some. congruence. }
  rewrite INR_IZR_INZ.
  apply (getProjectByCellId_at_residue (Z.of_nat i) 0 projects p). cbv zeta.
  rewrite Z.mul_0_l, Z.add_0_r, Z.mod_small by lia.
  now rewrite Nat2Z.id.
Qed.

Lemma getProjectByCellId_shows_each_witness :
  exists p, nth_error DEFAULT_PROJECTS 4 = Some p /\
            title p = "Future Echo"%string /\
            getProjectByCellId (Some (vec2 (INR 4) 0)) (Some DEFAULT_PROJECTS) = Found p.
Proof.
  eexists. split; [reflexivity|]. split; [reflexivity|].
  exact (getProjectByCellId_shows_each 4 _ DEFAULT_PROJECTS eq_refl).
Defined.

(** ** The zoom targets and the lerped values in the reachable states *)

Lemma same_camera_zoom_targets (c c' : ThreeContext) :
  same_camera c c' ->
  zoom_targets c' = zoom_targets c /\ lerped c' = lerped c /\
  targetOffset c' = targetOffset c /\ targetDistortion c' = targetDistortion c.
Proof.
  unfold same_camera, zoom_targets, lerped, hasPlane. intros H.
  repeat match goal with
  | H : _ /\ _ |- _ => destruct H
  end.
  assert (Hpl : match plane c' with Some _ => true | None => false end
                = match plane c with Some _ => true | None => false end).
  { unfold same_plane in *. destruct (plane c), (plane c'); easy. }
  repeat split; congruence.
Qed.

Lemma hasPlane_some (c : ThreeContext) (u : Uniforms) : plane c = Some u -> hasPlane c = true.
Proof. unfold hasPlane. now intros ->. Qed.

Lemma hasPlane_true (c : ThreeContext) : hasPlane c = true -> exists u, plane c = Some u.
Proof. unfold hasPlane. destruct (plane c) as [u|]; [now exists u | discriminate]. Qed.

(** The three things a gesture can do to the zoom targets. *)
Lemma navigate_targets
    (projects : option (list Project)) (cell : Vec2) (w : World) (u : Uniforms) :
  plane (context w) = Some u ->
  let c := context w in
  let c' := context (navigateToCell projects cell false w) in
  zoom_targets c'
  = (isZoomed c, targetZoom c, lastZoom c, lastOffset c, Some cell, true) /\
  lerped c' = lerped c /\
  targetOffset c'
  = Vector2.multiplyScalar (Vector2.addScalar cell (1 / 2)) (uCellSize u).
Proof.
  intros Hp. cbv zeta. unfold navigateToCell. rewrite Hp.
  pose proof (setVideoState_camera projects (Some cell)
                (setZoomedProject (getProjectByCellId (Some cell) projects) w)) as Hcam.
  destruct (plane_setVideoState projects (Some cell)
              (setZoomedProject (getProjectByCellId (Some cell) projects) w) u)
    as (u' & Hp' & Hu'); [rewrite context_setZoomedProject; exact Hp|].
  rewrite context_setZoomedProject in Hcam.
  apply same_camera_zoom_targets in Hcam. destruct Hcam as (Ht & Hl & _).
  destruct Hu' as (_ & Hcs & _).
  revert Hp' Ht Hl.
  generalize (setVideoState projects (Some cell)
                (setZoomedProject (getProjectByCellId (Some cell) projects) w)).
  intros w2 Hp' Ht Hl.
  rewrite Hp'. rewrite !context_on_context.
  unfold zoom_targets, lerped in *.
  injection Ht as Hz Htz Hlz Hlo _ _. injection Hl as Hzo Hd Hzp.
  unfold hasPlane. cbn. rewrite Hp'. rewrite Hcs.
  repeat split; congruence.
Qed.

Lemma zoom_in_targets
    (projects : option (list Project)) (cell : Vec2) (w : World) (u : Uniforms) :
  plane (context w) = Some u ->
  let c := context w in
  let c' := context (navigateToCell projects cell true w) in
  zoom_targets c'
  = (true, AnimationConfig.zoomedInLevel, targetZoom c, targetOffset c, Some cell, true) /\
  lerped c' = lerped c /\
  targetOffset c'
  = Vector2.multiplyScalar (Vector2.addScalar cell (1 / 2)) (uCellSize u).
Proof.
  intros Hp. cbv zeta. unfold navigateToCell. rewrite Hp.
  pose proof (setVideoState_camera projects (Some cell)
                (setZoomedProject (getProjectByCellId (Some cell) projects) w)) as Hcam.
  destruct (plane_setVideoState projects (Some cell)
              (setZoomedProject (getProjectByCellId (Some cell) projects) w) u)
    as (u' & Hp' & Hu'); [rewrite context_setZoomedProject; exact Hp|].
  rewrite context_setZoomedProject in Hcam.
  apply same_camera_zoom_targets in Hcam. destruct Hcam as (Ht & Hl & Hto & _).
  destruct Hu' as (_ & Hcs & _).
  revert Hp' Ht Hl Hto.
  generalize (setVideoState projects (Some cell)
                (setZoomedProject (getProjectByCellId (Some cell) projects) w)).
  intros w2 Hp' Ht Hl Hto.
  rewrite !context_on_context.
  unfold zoom_targets, lerped in *.
  injection Ht as Hz Htz Hlz Hlo _ _. injection Hl as Hzo Hd Hzp.
  unfold hasPlane. cbn. rewrite Hp'. cbn. rewrite Hp'. rewrite Hcs.
  repeat split; congruence.
Qed.

Lemma unzoom_targets (projects : option (list Project)) (w : World) :
  let c := context w in
  let c' := context (unzoom projects w) in
  zoom_targets c' = (false, lastZoom c, lastZoom c, lastOffset c, None, hasPlane c) /\
  lerped c' = lerped c /\
  targetOffset c' = lastOffset c.
Proof.
  cbv zeta. unfold unzoom. rewrite context_setZoomedProject.
  match goal with
  | |- context [setVideoState projects None ?w1] =>
      pose proof (setVideoState_camera projects None w1) as Hcam
  end.
  apply same_camera_zoom_targets in Hcam. destruct Hcam as (Ht & Hl & Hto & _).
  rewrite Ht, Hl, Hto. rewrite context_on_context. repeat split.
Qed.

Lemma handleInteraction_kinds
    (projects : option (list Project)) (clickPos delta : Vec2) (w w1 : World) :
  handleInteraction projects clickPos delta w = Some w1 ->
  w1 = w \/
  exists u, plane (context w) = Some u /\
    ((isZoomed (context w) = true /\
      (w1 = unzoom projects w \/
       exists cell, w1 = navigateToCell projects cell false w)) \/
     (isZoomed (context w) = false /\
      w1 = navigateToCell projects (cellIdAt clickPos (context w) u) true w)).
Proof.
  unfold handleInteraction.
  destruct (plane (context w)) as [u|] eqn:Hp; [|intros [= <-]; now left].
  destruct (isZoomed (context w)) eqn:Hz.
  - destruct (isTap delta).
    + destruct (zoomedCellId (context w)) as [z|]; [|discriminate].
      destruct (Vector2.equals _ z); intros [= <-]; right; exists u;
        (split; [reflexivity|]); left; (split; [reflexivity|]).
      * now left.
      * right. now eexists.
    + destruct (isSwipe delta); [|intros [= <-]; now left].
      destruct (zoomedCellId (context w)) as [z|]; [|discriminate].
      intros [= <-]. right. exists u. split; [reflexivity|]. left.
      split; [reflexivity|]. right. now eexists.
  - destruct (isTap delta); intros [= <-]; [|now left].
    right. exists u. split; [reflexivity|]. right. now split.
Qed.

(** The handler throws only when zoomed on no cell. *)
Lemma handleInteraction_returns
    (projects : option (list Project)) (clickPos delta : Vec2) (w : World) :
  (isZoomed (context w) = true -> zoomedCellId (context w) <> None) ->
  exists w1, handleInteraction projects clickPos delta w = Some w1.
Proof.
  intros Hz. unfold handleInteraction.
  destruct (plane (context w)) as [u|]; [|now eexists].
  destruct (isZoomed (context w)).
  - destruct (zoomedCellId (context w)) as [z|]; [|now destruct Hz].
    destruct (isTap delta).
    + destruct (Vector2.equals _ z); now eexists.
    + destruct (isSwipe delta); now eexists.
  - destruct (isTap delta); now eexists.
Qed.

Lemma hasPlane_on_plane (f : Uniforms -> Uniforms) (c : ThreeContext) :
  hasPlane (on_plane f c) = hasPlane c.
Proof. unfold hasPlane, on_plane. cbn. now destruct (plane c). Qed.

Lemma zoom_targets_on_plane (f : Uniforms -> Uniforms) (c : ThreeContext) :
  zoom_targets (on_plane f c) = zoom_targets c /\ lerped (on_plane f c) = lerped c.
Proof.
  unfold zoom_targets. rewrite hasPlane_on_plane. split; reflexivity.
Qed.

Lemma zoom_targets_dragPan (u : Uniforms) (c : ThreeContext) :
  zoom_targets (dragPan u c) = zoom_targets c /\ lerped (dragPan u c) = lerped c.
Proof. unfold dragPan. destruct (_ && _); split; reflexivity. Qed.

Lemma zoom_targets_detectHover
    (projects : option (list Project)) (u : Uniforms) (w : World) :
  zoom_targets (context (detectHover projects u w)) = zoom_targets (context w) /\
  lerped (context (detectHover projects u w)) = lerped (context w).
Proof.
  unfold detectHover. destruct (isZoomed (context w)); [now split|].
  match goal with |- context [if ?b then _ else _] => destruct b end; [|now split].
  match goal with
  | |- context [setVideoState projects ?cell ?w1] =>
      destruct (same_camera_zoom_targets _ _ (setVideoState_camera projects cell w1))
        as (Ht & Hl & _)
  end.
  rewrite Ht, Hl. now split.
Qed.

(** A frame leaves the zoom targets alone and lerps the three values once. *)
Lemma animate_targets (projects : option (list Project)) (w : World) (u : Uniforms) :
  plane (context w) = Some u ->
  zoom_targets (context (animate projects w)) = zoom_targets (context w) /\
  lerped (context (animate projects w)) = lerped (lerpTowardTargets (context w)).
Proof.
  intros Hp. unfold animate. rewrite Hp.
  rewrite context_on_context.
  assert (H1 : zoom_targets (context (on_context lerpTowardTargets
                                        (on_context integrateOffset w)))
               = zoom_targets (context w) /\
               lerped (context (on_context lerpTowardTargets
                                  (on_context integrateOffset w)))
               = lerped (lerpTowardTargets (context w))) by (split; reflexivity).
  revert H1. generalize (on_context lerpTowardTargets (on_context integrateOffset w)).
  intros w1 (Ht1 & Hl1). rewrite <- Ht1, <- Hl1. clear Ht1 Hl1.
  assert (H2 : zoom_targets (context match plane (context w1) with
                                     | Some uniforms => detectHover projects uniforms w1
                                     | None => w1
                                     end) = zoom_targets (context w1) /\
               lerped (context match plane (context w1) with
                               | Some uniforms => detectHover projects uniforms w1
                               | None => w1
                               end) = lerped (context w1)).
  { destruct (plane (context w1)); [apply zoom_targets_detectHover | now split]. }
  revert H2.
  generalize (match plane (context w1) with
              | Some uniforms => detectHover projects uniforms w1
              | None => w1
              end).
  intros w2 (Ht2 & Hl2). rewrite <- Ht2, <- Hl2. clear Ht2 Hl2.
  assert (H3 : zoom_targets (context match plane (context w2) with
                                     | Some uniforms => on_context (dragPan uniforms) w2
                                     | None => w2
                                     end) = zoom_targets (context w2) /\
               lerped (context match plane (context w2) with
                               | Some uniforms => on_context (dragPan uniforms) w2
                               | None => w2
                               end) = lerped (context w2)).
  { destruct (plane (context w2)); [|now split].
    rewrite context_on_context. apply zoom_targets_dragPan. }
  revert H3.
  generalize (match plane (context w2) with
              | Some uniforms => on_context (dragPan uniforms) w2
              | None => w2
              end).
  intros w3 (Ht3 & Hl3). rewrite <- Ht3, <- Hl3.
  unfold pushUniforms. apply zoom_targets_on_plane.
Qed.

Lemma zoom_targets_resume (projects : option (list Project)) (w w' : World) :
  resume w w' ->
  zoom_targets (context w') = zoom_targets (context w) /\
  lerped (context w') = lerped (context w).
Proof.
  intros [w0 before r after Hp Ha | w0 before r after Hp Ha
          | w0 before r after name Hp Ha].
  - unfold loadResolved.
    destruct (same_camera_zoom_targets _ _
                (startPlayback_camera r (set_pending (before ++ after) w0)))
      as (Ht & Hl & _).
    rewrite Ht, Hl. now split.
  - unfold playResolved. destruct (_ =? _)%nat; [|now split].
    rewrite context_on_context, context_set_pending. apply zoom_targets_on_plane.
  - unfold playRejected. destruct (String.eqb _ _); now split.
Qed.

(** A step that is neither a frame nor a gesture leaves the zoom targets
    and the lerped values alone. *)
Lemma step_kinds (projects : option (list Project)) (w w' : World) :
  step projects w w' ->
  (zoom_targets (context w') = zoom_targets (context w) /\
   lerped (context w') = lerped (context w)) \/
  (exists u, plane (context w) = Some u /\ w' = animate projects w) \/
  (exists clickPos delta w1,
     handleInteraction projects clickPos delta w = Some w1 /\
     w' = setCursor grab (on_context (set_isDragging false) w1)).
Proof.
  intros Hstep.
  destruct Hstep as [w w' Hr | w _ | w px py _ | w w' px py _ Hup | w px py _
                     | w w' px py _ Hleave | w dx dy mode iw ih _ | w cs ds _
                     | w cw ch _ | w _ | w _ _].
  - left. eapply zoom_targets_resume; eassumption.
  - destruct (plane (context w)) as [u|] eqn:Hp.
    + right. left. now exists u.
    + left. unfold animate. rewrite Hp. now split.
  - left. unfold onPointerDown. destruct (plane (context w)); now split.
  - unfold onPointerUp in Hup. destruct (plane (context w)).
    + destruct (handleInteraction projects _ _ w) as [w1|] eqn:Hh; [|discriminate].
      injection Hup as <-. right. right. do 3 eexists. split; [exact Hh | reflexivity].
    + injection Hup as <-. left. now split.
  - left. unfold onPointerMove. destruct (plane (context w)); now split.
  - unfold onPointerLeave, onPointerUp in Hleave. destruct (plane (context w)).
    + destruct (isDragging (context w)).
      * destruct (handleInteraction projects _ _ w) as [w1|] eqn:Hh; [|discriminate].
        injection Hleave as <-. right. right. do 3 eexists. split; [exact Hh | reflexivity].
      * injection Hleave as <-. left. now split.
    + injection Hleave as <-. left. now split.
  - left. unfold onWheel. destruct (plane (context w)); [|now split].
    destruct (isZoomed (context w)); [now split|].
    destruct mode as [|[|[|mode]]]; now split.
  - left. unfold useUniforms. rewrite context_on_context. apply zoom_targets_on_plane.
  - left. unfold onResize. rewrite context_on_context. apply zoom_targets_on_plane.
  - left. unfold texturesReady. destruct projects as [[|p ps]|]; try now split.
    rewrite context_on_context. apply zoom_targets_on_plane.
  - left. now split.
Qed.

Lemma targets_inv_ext (c c' : ThreeContext) :
  zoom_targets c' = zoom_targets c -> targets_inv c -> targets_inv c'.
Proof.
  unfold zoom_targets, targets_inv. intros [= -> -> -> _ -> ->]. trivial.
Qed.

Lemma lerped_inv_ext (c c' : ThreeContext) :
  lerped c' = lerped c -> lerped_inv c -> lerped_inv c'.
Proof.
  unfold lerped, lerped_inv. intros [= -> -> ->]. trivial.
Qed.

Lemma zoom_inv_targetDistortion (c : ThreeContext) :
  zoom_inv c -> targetDistortion c = if isZoomed c then 0 else 1.
Proof.
  intros [H|H]; apply zoom_state_eq in H; destruct H as (-> & ->); reflexivity.
Qed.

(** The lerps are convex combinations of the value and its target. *)
Lemma lerped_lerpTowardTargets (c : ThreeContext) :
  lerped (lerpTowardTargets c)
  = (zoom c + (targetZoom c - zoom c) * AnimationConfig.lerpFactor,
     distortion c + (targetDistortion c - distortion c) * AnimationConfig.lerpFactor,
     zoomProgress c
       + ((if isZoomed c then 1 else 0) - zoomProgress c) * AnimationConfig.lerpFactor).
Proof. reflexivity. Qed.

Lemma lerped_inv_lerpTowardTargets (c : ThreeContext) :
  targets_inv c -> zoom_inv c -> lerped_inv c -> lerped_inv (lerpTowardTargets c).
Proof.
  intros (_ & _ & Htz & _) Hzi (Hz & Hd & Hp).
  apply zoom_inv_targetDistortion in Hzi.
  unfold lerped_inv.
  replace (zoom (lerpTowardTargets c))
    with (zoom c + (targetZoom c - zoom c) * AnimationConfig.lerpFactor)
    by reflexivity.
  replace (distortion (lerpTowardTargets c))
    with (distortion c + (targetDistortion c - distortion c) * AnimationConfig.lerpFactor)
    by reflexivity.
  replace (zoomProgress (lerpTowardTargets c))
    with (zoomProgress c
          + ((if isZoomed c then 1 else 0) - zoomProgress c) * AnimationConfig.lerpFactor)
    by reflexivity.
  rewrite Htz, Hzi.
  unfold AnimationConfig.zoomedInLevel, AnimationConfig.initialState.zoom,
    AnimationConfig.initialState.targetZoom, AnimationConfig.lerpFactor in *.
  destruct (isZoomed c); repeat split; lra.
Qed.

Lemma targets_inv_tuple
    (c : ThreeContext) (z : bool) (tz lz : R) (lo : Vec2) (cell : option Vec2) :
  zoom_targets c = (z, tz, lz, lo, cell, true) ->
  lz = AnimationConfig.initialState.lastZoom ->
  tz = (if z then AnimationConfig.zoomedInLevel
        else AnimationConfig.initialState.targetZoom) ->
  (z = true <-> cell <> None) ->
  targets_inv c.
Proof.
  unfold zoom_targets, targets_inv. intros [= -> -> -> _ -> ->]. auto.
Qed.

Lemma targets_inv_gesture
    (projects : option (list Project)) (clickPos delta : Vec2) (w w1 : World) :
  targets_inv (context w) ->
  handleInteraction projects clickPos delta w = Some w1 ->
  targets_inv (context w1) /\ lerped (context w1) = lerped (context w).
Proof.
  intros Hinv Hh.
  destruct (handleInteraction_kinds _ _ _ _ _ Hh)
    as [-> | (u & Hp & [(Hz & [-> | (cell & ->)]) | (Hz & ->)])]; clear Hh.
  - now split.
  - destruct (unzoom_targets projects w) as (Ht & Hl & _).
    split; [|exact Hl].
    destruct Hinv as (Hpl & Hlz & _ & _). rewrite Hpl in Ht.
    eapply targets_inv_tuple; [exact Ht | exact Hlz | exact Hlz |].
    split; [discriminate | intros H; now destruct H].
  - destruct (navigate_targets projects cell w u Hp) as (Ht & Hl & _).
    split; [|exact Hl].
    destruct Hinv as (Hpl & Hlz & Htz & _).
    eapply targets_inv_tuple; [exact Ht | exact Hlz | exact Htz |].
    rewrite Hz. split; [discriminate | reflexivity].
  - destruct (zoom_in_targets projects (cellIdAt clickPos (context w) u) w u Hp)
      as (Ht & Hl & _).
    split; [|exact Hl].
    destruct Hinv as (Hpl & Hlz & Htz & _). rewrite Hz in Htz.
    eapply targets_inv_tuple; [exact Ht | exact Htz | reflexivity |].
    split; [discriminate | reflexivity].
Qed.

Lemma bounds_step (projects : option (list Project)) (w w' : World) :
  zoom_inv (context w) -> targets_inv (context w) /\ lerped_inv (context w) ->
  step projects w w' ->
  targets_inv (context w') /\ lerped_inv (context w').
Proof.
  intros Hzi (Ht & Hl) Hstep.
  destruct (step_kinds projects w w' Hstep)
    as [(Ht' & Hl') | [(u & Hp & ->) | (clickPos & delta & w1 & Hh & ->)]].
  - split; [eapply targets_inv_ext | eapply lerped_inv_ext]; eassumption.
  - destruct (animate_targets projects w u Hp) as (Ht' & Hl').
    split; [eapply targets_inv_ext; eassumption|].
    eapply lerped_inv_ext; [exact Hl'|].
    now apply lerped_inv_lerpTowardTargets.
  - destruct (targets_inv_gesture _ _ _ _ _ Ht Hh) as (Ht1 & Hl1).
    rewrite context_setCursor, context_on_context.
    split.
    + eapply targets_inv_ext; [|exact Ht1]. reflexivity.
    + eapply lerped_inv_ext; [|exact Hl]. rewrite <- Hl1. reflexivity.
Qed.

Lemma reachable_bounds (projects : option (list Project)) (w : World) :
  reachable projects w -> targets_inv (context w) /\ lerped_inv (context w).
Proof.
  induction 1 as [|w w' Hreach IH Hstep].
  - split.
    + unfold targets_inv. cbn. repeat split; try reflexivity; try discriminate.
      intros H; now destruct H.
    + unfold lerped_inv. cbn.
      unfold AnimationConfig.zoomedInLevel, AnimationConfig.initialState.zoom,
        AnimationConfig.initialState.distortion,
        AnimationConfig.initialState.zoomProgress.
      repeat split; lra.
  - eapply bounds_step; [|exact IH|exact Hstep].
    eapply reachable_zoom_inv; eassumption.
Qed.

(** X4.  In every state the grid reaches, the zoom target is [zoomedInLevel]
    while zoomed and the initial level 1 otherwise, the snapshot [lastZoom] is
    1 (so [unzoom] always returns to zoom 1), the distortion target is 0 while
    zoomed and 1 otherwise, and [zoomedCellId] is a cell exactly while
    [isZoomed] is set. *)
Theorem reachable_zoom_levels (projects : option (list Project)) (w : World) :
  reachable projects w ->
  let c := context w in
  targetZoom c = (if isZoomed c then 3 / 10 else 1) /\
  lastZoom c = 1 /\
  targetDistortion c = (if isZoomed c then 0 else 1) /\
  (isZoomed c = true <-> zoomedCellId c <> None).
Proof.
  intros Hreach. cbv zeta.
  destruct (reachable_bounds projects w Hreach) as ((_ & Hlz & Htz & Hcell) & _).
  pose proof (zoom_inv_targetDistortion _ (reachable_zoom_inv projects w Hreach)) as Htd.
  repeat split; try assumption; apply Hcell.
Qed.

Lemma reachable_zoom_levels_witness :
  let c := context (onWheel 0 120 0 800 600 initialWorld) in
  targetZoom c = 1 /\ lastZoom c = 1 /\ targetDistortion c = 1 /\
  (isZoomed c = true <-> zoomedCellId c <> None).
Proof.
  exact (reachable_zoom_levels (Some DEFAULT_PROJECTS)
           (onWheel 0 120 0 800 600 initialWorld)
           (reachable_step _ _ _ (reachable_initial _)
              (step_wheel _ initialWorld 0 120 0%nat 800 600 (Forall_nil _)))).
Defined.

(** X5.  In every state the grid reaches, the zoom stays between the zoomed-in
    level and 1, and the distortion and the zoom progress between 0 and 1: the
    lerps never overshoot. *)
Theorem reachable_lerped_bounds (projects : option (list Project)) (w : World) :
  reachable projects w ->
  let c := context w in
  3 / 10 <= zoom c <= 1 /\ 0 <= distortion c <= 1 /\ 0 <= zoomProgress c <= 1.
Proof.
  intros Hreach. cbv zeta.
  destruct (reachable_bounds projects w Hreach) as (_ & Hl). exact Hl.
Qed.

Lemma reachable_lerped_bounds_witness :
  let c := context (animate (Some DEFAULT_PROJECTS) initialWorld) in
  3 / 10 <= zoom c <= 1 /\ 0 <= distortion c <= 1 /\ 0 <= zoomProgress c <= 1.
Proof.
  exact (reachable_lerped_bounds (Some DEFAULT_PROJECTS)
           (animate (Some DEFAULT_PROJECTS) initialWorld)
           (reachable_step _ _ _ (reachable_initial _)
              (step_frame _ initialWorld (Forall_nil _)))).
Defined.

(** X6.  In every state the grid reaches, the pointer handlers return: the
    read of [zoomedCellId.x] in [handleInteraction] never meets a null
    [zoomedCellId]. *)
Theorem pointer_handlers_never_throw
    (projects : option (list Project)) (w : World) (clientX clientY : R) :
  reachable projects w ->
  (exists w', onPointerUp projects clientX clientY w = Some w') /\
  (exists w', onPointerLeave projects clientX clientY w = Some w').
Proof.
  intros Hreach.
  destruct (reachable_bounds projects w Hreach) as ((_ & _ & _ & Hcell) & _).
  assert (Hup : exists w', onPointerUp projects clientX clientY w = Some w').
  { unfold onPointerUp. destruct (plane (context w)); [|now eexists].
    destruct (handleInteraction_returns projects (vec2 clientX clientY)
                (Vector2.sub (vec2 clientX clientY) (clickStart (context w))) w)
      as (w1 & Hw1); [apply Hcell|].
    rewrite Hw1. now eexists. }
  split; [exact Hup|].
  unfold onPointerLeave. destruct (plane (context w)); [|now eexists].
  destruct (isDragging (context w)); [exact Hup | now eexists].
Qed.

Lemma pointer_handlers_never_throw_witness :
  (exists w', onPointerUp (Some DEFAULT_PROJECTS) 30 40
                (onPointerDown 30 40 initialWorld) = Some w') /\
  (exists w', onPointerLeave (Some DEFAULT_PROJECTS) 30 40
                (onPointerDown 30 40 initialWorld) = Some w').
Proof.
  exact (pointer_handlers_never_throw (Some DEFAULT_PROJECTS)
           (onPointerDown 30 40 initialWorld) 30 40
           (reachable_step _ _ _ (reachable_initial _)
              (step_down _ initialWorld 30 40 (Forall_nil _)))).
Defined.

(** ** The snapshot of a zoom-in *)

Lemma zoom_targets_fields (c : ThreeContext) (z : bool) (tz lz : R) (lo : Vec2)
    (cell : option Vec2) (p : bool) :
  zoom_targets c = (z, tz, lz, lo, cell, p) ->
  isZoomed c = z /\ targetZoom c = tz /\ lastZoom c = lz /\ lastOffset c = lo.
Proof. unfold zoom_targets. intros [= -> -> -> -> _ _]. repeat split. Qed.

Lemma zoom_targets_same_fields (c c' : ThreeContext) :
  zoom_targets c' = zoom_targets c ->
  isZoomed c' = isZoomed c /\ targetZoom c' = targetZoom c /\
  lastZoom c' = lastZoom c /\ lastOffset c' = lastOffset c.
Proof. unfold zoom_targets. intros [= -> -> -> -> _ _]. repeat split. Qed.

(** A step from a zoomed state keeps the snapshot, and if it leaves the zoom
    it puts the snapshot back into the targets. *)
Lemma snapshot_step (projects : option (list Project)) (w w' : World) :
  isZoomed (context w) = true -> step projects w w' ->
  lastOffset (context w') = lastOffset (context w) /\
  lastZoom (context w') = lastZoom (context w) /\
  (isZoomed (context w') = false ->
   targetOffset (context w') = lastOffset (context w) /\
   targetZoom (context w') = lastZoom (context w)).
Proof.
  intros Hz Hstep.
  assert (Hsame : forall c', zoom_targets c' = zoom_targets (context w) ->
            lastOffset c' = lastOffset (context w) /\
            lastZoom c' = lastZoom (context w) /\
            (isZoomed c' = false ->
             targetOffset c' = lastOffset (context w) /\
             targetZoom c' = lastZoom (context w))).
  { intros c' Ht. apply zoom_targets_same_fields in Ht.
    destruct Ht as (Hz' & _ & Hlz & Hlo).
    split; [exact Hlo|]. split; [exact Hlz|]. intros Hf. congruence. }
  destruct (step_kinds projects w w' Hstep)
    as [(Ht' & _) | [(u & Hp & ->) | (clickPos & delta & w1 & Hh & ->)]].
  - apply Hsame, Ht'.
  - apply Hsame. apply (animate_targets projects w u Hp).
  - rewrite context_setCursor, context_on_context.
    destruct (handleInteraction_kinds _ _ _ _ _ Hh)
      as [-> | (u & Hp & [(_ & [-> | (cell & ->)]) | (Hnz & _)])]; clear Hh.
    + apply Hsame. reflexivity.
    + destruct (unzoom_targets projects w) as (Ht & _ & Hto).
      apply zoom_targets_fields in Ht. destruct Ht as (_ & Htz & Hlz & Hlo).
      revert Htz Hlz Hlo Hto. generalize (context (unzoom projects w)).
      intros c1 Htz Hlz Hlo Hto. cbn. auto.
    + destruct (navigate_targets projects cell w u Hp) as (Ht & _).
      apply zoom_targets_fields in Ht. destruct Ht as (Hz1 & _ & Hlz & Hlo).
      revert Hz1 Hlz Hlo.
      generalize (context (navigateToCell projects cell false w)).
      intros c1 Hz1 Hlz Hlo. cbn. rewrite Hz1, Hz.
      split; [exact Hlo|]. split; [exact Hlz | discriminate].
    + congruence.
Qed.

Lemma snapshot_whileZoomed (projects : option (list Project)) (w0 w' : World) :
  whileZoomed projects w0 w' -> isZoomed (context w0) = true ->
  lastOffset (context w') = lastOffset (context w0) /\
  lastZoom (context w') = lastZoom (context w0) /\
  (isZoomed (context w') = false ->
   targetOffset (context w') = lastOffset (context w0) /\
   targetZoom (context w') = lastZoom (context w0)).
Proof.
  induction 1 as [w0 | w0 w' w'' Hrun IH Hz' Hstep]; intros Hz.
  - split; [reflexivity|]. split; [reflexivity|]. congruence.
  - destruct (IH Hz) as (Hlo & Hlz & _).
    destruct (snapshot_step projects w' w'' Hz' Hstep) as (Hlo' & Hlz' & Hout).
    rewrite <- Hlo, <- Hlz. auto.
Qed.

(** X7.  A zoom-in snapshots the camera targets; however long the grid then
    stays zoomed (frames, swipes to other cells, taps on other cells, wheel,
    resizes, video calls settling), the snapshot is kept, and the step that
    leaves the zoom puts the targets back where they were before the zoom-in. *)
Theorem zoom_snapshot_survives
    (projects : option (list Project)) (w w' : World) (cellA : Vec2) (u : Uniforms) :
  plane (context w) = Some u ->
  whileZoomed projects (navigateToCell projects cellA true w) w' ->
  lastOffset (context w') = targetOffset (context w) /\
  lastZoom (context w') = targetZoom (context w) /\
  (isZoomed (context w') = false ->
   targetOffset (context w') = targetOffset (context w) /\
   targetZoom (context w') = targetZoom (context w)).
Proof.
  intros Hp Hrun.
  destruct (zoom_in_targets projects cellA w u Hp) as (Ht & _).
  apply zoom_targets_fields in Ht. destruct Ht as (Hz & _ & Hlz & Hlo).
  destruct (snapshot_whileZoomed projects _ w' Hrun Hz) as (Hlo' & Hlz' & Hout).
  rewrite Hlo in Hlo', Hout. rewrite Hlz in Hlz', Hout. auto.
Qed.

Lemma zoom_snapshot_survives_witness :
  let w := on_context (set_targetOffset (vec2 5 7)) initialWorld in
  let zoomed := navigateToCell (Some DEFAULT_PROJECTS) (vec2 2 3) true w in
  let w' := onWheel 0 120 0 800 600 (animate (Some DEFAULT_PROJECTS) zoomed) in
  plane (context w) = Some initialUniforms /\
  whileZoomed (Some DEFAULT_PROJECTS) zoomed w' /\
  lastOffset (context w') = vec2 5 7 /\
  lastZoom (context w') = 1.
Proof.
  cbv zeta.
  assert (Hrun : whileZoomed (Some DEFAULT_PROJECTS)
                   (navigateToCell (Some DEFAULT_PROJECTS) (vec2 2 3) true
                      (on_context (set_targetOffset (vec2 5 7)) initialWorld))
                   (onWheel 0 120 0 800 600
                      (animate (Some DEFAULT_PROJECTS)
                         (navigateToCell (Some DEFAULT_PROJECTS) (vec2 2 3) true
                            (on_context (set_targetOffset (vec2 5 7)) initialWorld))))).
  { eapply whileZoomed_step.
    - eapply whileZoomed_step.
      + apply whileZoomed_refl.
      + reflexivity.
      + apply step_frame. apply Forall_nil.
    - reflexivity.
    - apply step_wheel. apply Forall_nil. }
  split; [reflexivity|]. split; [exact Hrun|].
  destruct (zoom_snapshot_survives (Some DEFAULT_PROJECTS)
              (on_context (set_targetOffset (vec2 5 7)) initialWorld) _
              (vec2 2 3) initialUniforms eq_refl Hrun) as (Hlo & Hlz & _).
  split; [exact Hlo | exact Hlz].
Defined.

(** ** The lerps over several frames *)

Lemma frames_succ (projects : option (list Project)) (n : nat) (w : World) :
  frames projects (S n) w = animate projects (frames projects n w).
Proof. reflexivity. Qed.

Lemma frames_targets (projects : option (list Project)) (n : nat) (w : World) :
  hasPlane (context w) = true ->
  zoom_targets (context (frames projects n w)) = zoom_targets (context w) /\
  zoom_state (context (frames projects n w)) = zoom_state (context w).
Proof.
  intros Hp. induction n as [|n (IHt & IHs)]; [now split|].
  rewrite frames_succ. rewrite <- IHt, <- IHs.
  assert (Hp' : hasPlane (context (frames projects n w)) = true).
  { unfold zoom_targets in IHt. injection IHt as _ _ _ _ _ ->. exact Hp. }
  apply hasPlane_true in Hp'. destruct Hp' as (u & Hu).
  split; [apply (animate_targets projects _ u Hu) | apply zoom_state_animate].
Qed.

(** X8.  Over [n] frames the zoom, the distortion and the zoom progress each
    close in on their targets by the factor [1 - lerpFactor] per frame: the
    distance is multiplied by [(9/10)^n], whatever else the frames do
    (panning, hover changes, video calls). *)
Theorem lerps_converge_geometrically
    (projects : option (list Project)) (n : nat) (w : World) (u : Uniforms) :
  plane (context w) = Some u ->
  let c := context w in
  let c' := context (frames projects n w) in
  zoom c' - targetZoom c = (9 / 10) ^ n * (zoom c - targetZoom c) /\
  distortion c' - targetDistortion c = (9 / 10) ^ n * (distortion c - targetDistortion c) /\
  zoomProgress c' - (if isZoomed c then 1 else 0)
  = (9 / 10) ^ n * (zoomProgress c - (if isZoomed c then 1 else 0)) /\
  targetZoom c' = targetZoom c /\ targetDistortion c' = targetDistortion c.
Proof.
  intros Hp. cbv zeta.
  pose proof (hasPlane_some _ _ Hp) as Hhp.
  induction n as [|n (IHz & IHd & IHp & _)].
  - cbn [frames Nat.iter nat_rect pow]. repeat split; ring.
  - destruct (frames_targets projects n w Hhp) as (Ht & Hs).
    destruct (frames_targets projects (S n) w Hhp) as (Ht' & Hs').
    apply zoom_targets_same_fields in Ht'. destruct Ht' as (_ & Htz' & _).
    unfold zoom_state in Hs'. injection Hs' as _ Htd'.
    assert (Hp' : hasPlane (context (frames projects n w)) = true).
    { unfold zoom_targets in Ht. injection Ht as _ _ _ _ _ ->. exact Hhp. }
    apply zoom_targets_same_fields in Ht. destruct Ht as (Hz & Htz & _).
    unfold zoom_state in Hs. injection Hs as _ Htd.
    apply hasPlane_true in Hp'. destruct Hp' as (un & Hun).
    destruct (animate_targets projects _ un Hun) as (_ & Hl).
    rewrite frames_succ in *. rewrite lerped_lerpTowardTargets in Hl.
    unfold lerped in Hl. injection Hl as Hz1 Hd1 Hp1.
    rewrite Htz in Hz1. rewrite Htd in Hd1. rewrite Hz in Hp1.
    unfold AnimationConfig.lerpFactor in *.
    revert Hz1 Hd1 Hp1 Htz' Htd'.
    generalize (context (animate projects (frames projects n w))).
    intros c1 Hz1 Hd1 Hp1 Htz' Htd'.
    rewrite Hz1, Hd1, Hp1. cbn [pow].
    repeat split; try assumption.
    + transitivity (9 / 10 * (zoom (context (frames projects n w))
                              - targetZoom (context w))); [lra|].
      rewrite IHz. ring.
    + transitivity (9 / 10 * (distortion (context (frames projects n w))
                              - targetDistortion (context w))); [lra|].
      rewrite IHd. ring.
    + transitivity (9 / 10 * (zoomProgress (context (frames projects n w))
                              - (if isZoomed (context w) then 1 else 0))); [lra|].
      rewrite IHp. ring.
Qed.

Lemma lerps_converge_geometrically_witness :
  let w := on_context (set_targetZoom (3 / 10)) initialWorld in
  let c' := context (frames (Some DEFAULT_PROJECTS) 2 w) in
  plane (context w) = Some initialUniforms /\
  zoom c' = 867 / 1000.
Proof.
  cbv zeta. split; [reflexivity|].
  destruct (lerps_converge_geometrically (Some DEFAULT_PROJECTS) 2
              (on_context (set_targetZoom (3 / 10)) initialWorld) initialUniforms eq_refl)
    as (Hz & _).
  cbn [context on_context set_targetZoom targetZoom zoom initialWorld initialContext] in Hz.
  unfold AnimationConfig.initialState.zoom in Hz. lra.
Defined.

(** ** Gestures *)

Lemma isTap_small (delta : Vec2) :
  Vector2.x delta * Vector2.x delta + Vector2.y delta * Vector2.y delta < 10 * 10 ->
  isTap delta = true.
Proof.
  intros Hsq. unfold isTap, AnimationConfig.tapThreshold. apply Rltb_spec.
  pose proof (length_squared delta) as Hl. pose proof (length_nonneg delta) as Hn.
  nra.
Qed.

Lemma isSwipe_large (delta : Vec2) :
  50 * 50 < Vector2.x delta * Vector2.x delta + Vector2.y delta * Vector2.y delta ->
  isTap delta = false /\ isSwipe delta = true.
Proof.
  intros Hsq.
  pose proof (length_squared delta) as Hl. pose proof (length_nonneg delta) as Hn.
  assert (Hlen : 50 < Vector2.length delta) by nra.
  split.
  - destruct (isTap delta) eqn:Ht; [|reflexivity].
    unfold isTap, AnimationConfig.tapThreshold in Ht. apply Rltb_spec in Ht. lra.
  - unfold isSwipe, Rgtb, AnimationConfig.swipeThreshold. now apply Rltb_spec.
Qed.

Lemma equals_spec (a v : Vec2) : Vector2.equals a v = true <-> a = v.
Proof.
  unfold Vector2.equals, Reqb. destruct a as [ax ay], v as [vx vy]. cbn.
  destruct (Req_dec_T vx ax), (Req_dec_T vy ay); cbn; split; intros H;
    try discriminate; try (subst; reflexivity); injection H; intros; subst; easy.
Qed.

Lemma zoomedProject_startPlayback (r : VideoRequest) (w : World) :
  zoomedProject (startPlayback r w) = zoomedProject w /\
  cursor (startPlayback r w) = cursor w.
Proof. unfold startPlayback. destruct (cellId r); split; reflexivity. Qed.

(** A call of [setVideoState] leaves the React state alone. *)
Lemma zoomedProject_setVideoState
    (projects : option (list Project)) (cell : option Vec2) (w : World) :
  zoomedProject (setVideoState projects cell w) = zoomedProject w /\
  cursor (setVideoState projects cell w) = cursor w.
Proof.
  unfold setVideoState.
  set (w1 := on_context (set_videoNonce (S (videoNonce (context w)))) w).
  assert (H1 : zoomedProject w1 = zoomedProject w /\ cursor w1 = cursor w)
    by (split; reflexivity).
  destruct (videoRef (context w1)) as [v|]; [|exact H1].
  destruct (plane (context w1)) as [u|]; [|exact H1].
  set (w2 := on_context (on_plane (set_uIsVideoActive false)) w1).
  set (w3 := if paused v then w2 else on_context (on_video pause) w2).
  assert (H3 : zoomedProject w3 = zoomedProject w /\ cursor w3 = cursor w).
  { subst w3. destruct (paused v); exact H1. }
  destruct (video_of (getProjectByCellId cell projects)) as [s|]; [|exact H3].
  destruct (falsy_src (Some s)); [exact H3|].
  destruct (negb _); [exact H3|].
  destruct H3 as (H3a & H3b).
  destruct (String.eqb (src v) s).
  - destruct (zoomedProject_startPlayback
                {| currentNonce := S (videoNonce (context w)); cellId := cell;
                   newSrc := s; awaiting := AwaitLoad |} w3) as (Ha & Hb).
    rewrite Ha, Hb. now split.
  - cbn [zoomedProject cursor suspend on_context]. now split.
Qed.

(** What [navigateToCell] leaves on an initialized context, whichever way
    it is called. *)
Lemma navigateToCell_result
    (projects : option (list Project)) (cell : Vec2) (init : bool) (w : World)
    (u : Uniforms) :
  plane (context w) = Some u ->
  let w' := navigateToCell projects cell init w in
  zoomedCellId (context w') = Some cell /\
  targetOffset (context w')
  = Vector2.multiplyScalar (Vector2.addScalar cell (1 / 2)) (uCellSize u) /\
  zoomedProject w' = getProjectByCellId (Some cell) projects /\
  cursor w' = cursor w /\
  isDragging (context w') = isDragging (context w) /\
  (exists u', plane (context w') = Some u' /\ same_scalar_uniforms u u').
Proof.
  intros Hp. cbv zeta. unfold navigateToCell. rewrite Hp.
  pose proof (setVideoState_camera projects (Some cell)
                (setZoomedProject (getProjectByCellId (Some cell) projects) w)) as Hcam.
  destruct (plane_setVideoState projects (Some cell)
              (setZoomedProject (getProjectByCellId (Some cell) projects) w) u)
    as (u' & Hp' & Hu'); [rewrite context_setZoomedProject; exact Hp|].
  destruct (zoomedProject_setVideoState projects (Some cell)
              (setZoomedProject (getProjectByCellId (Some cell) projects) w))
    as (Hzp & Hcur).
  rewrite context_setZoomedProject in Hcam.
  destruct Hcam as (Hdrag & _).
  pose proof Hu' as (_ & Hcs & _).
  revert Hp' Hzp Hcur Hdrag.
  generalize (setVideoState projects (Some cell)
                (setZoomedProject (getProjectByCellId (Some cell) projects) w)).
  intros w2 Hp' Hzp Hcur Hdrag.
  cbn [zoomedProject cursor setZoomedProject] in Hzp, Hcur.
  destruct init.
  - rewrite !context_on_context. cbn. rewrite Hp'. cbn. rewrite Hp', Hcs.
    repeat split; try assumption. exists u'. now split.
  - rewrite Hp'. rewrite !context_on_context. cbn. rewrite Hp', Hcs.
    repeat split; try assumption. exists u'. now split.
Qed.

Lemma onPointerDown_context (px py : R) (w : World) (u : Uniforms) :
  plane (context w) = Some u ->
  context (onPointerDown px py w)
  = set_clickStart (vec2 px py)
      (set_previousMouse (vec2 px py) (set_isDragging true (context w))).
Proof. intros Hp. unfold onPointerDown. rewrite Hp. reflexivity. Qed.

Lemma zoom_targets_cell (c : ThreeContext) (z : bool) (tz lz : R) (lo : Vec2)
    (cell : option Vec2) (p : bool) :
  zoom_targets c = (z, tz, lz, lo, cell, p) -> zoomedCellId c = cell.
Proof. unfold zoom_targets. now intros [= _ _ _ _ -> _]. Qed.

(** X9.  Pressing and releasing the pointer less than [tapThreshold] pixels
    apart, on a grid that is not zoomed, zooms into the cell under the point
    of release: the flag, the cell, the targets, the snapshot of the former
    targets, the project shown, and the end of the drag. *)
Theorem tap_zooms_into_released_cell
    (projects : option (list Project)) (w : World) (u : Uniforms) (px py qx qy : R) :
  plane (context w) = Some u -> isZoomed (context w) = false ->
  (qx - px) * (qx - px) + (qy - py) * (qy - py) < 10 * 10 ->
  exists w',
    onPointerUp projects qx qy (onPointerDown px py w) = Some w' /\
    let cell := cellIdAt (vec2 qx qy) (context w) u in
    isZoomed (context w') = true /\
    zoomedCellId (context w') = Some cell /\
    targetZoom (context w') = AnimationConfig.zoomedInLevel /\
    targetDistortion (context w') = 0 /\
    targetOffset (context w')
    = Vector2.multiplyScalar (Vector2.addScalar cell (1 / 2)) (uCellSize u) /\
    lastOffset (context w') = targetOffset (context w) /\
    lastZoom (context w') = targetZoom (context w) /\
    zoomedProject w' = getProjectByCellId (Some cell) projects /\
    isDragging (context w') = false /\
    cursor w' = grab.
Proof.
  intros Hp Hz Hsq.
  pose proof (onPointerDown_context px py w u Hp) as Hd.
  assert (Hpd : plane (context (onPointerDown px py w)) = Some u)
    by (rewrite Hd; exact Hp).
  assert (Hzd : isZoomed (context (onPointerDown px py w)) = false)
    by (rewrite Hd; exact Hz).
  assert (Hcs : clickStart (context (onPointerDown px py w)) = vec2 px py)
    by (rewrite Hd; reflexivity).
  assert (Hto : targetOffset (context (onPointerDown px py w)) = targetOffset (context w))
    by (rewrite Hd; reflexivity).
  assert (Htz : targetZoom (context (onPointerDown px py w)) = targetZoom (context w))
    by (rewrite Hd; reflexivity).
  assert (Hcell : cellIdAt (vec2 qx qy) (context (onPointerDown px py w)) u
                  = cellIdAt (vec2 qx qy) (context w) u)
    by (rewrite Hd; unfold cellIdAt, screenToWorld; cbn; rewrite Hp; reflexivity).
  clear Hd. revert Hpd Hzd Hcs Hto Htz Hcell.
  generalize (onPointerDown px py w). intros wd Hpd Hzd Hcs Hto Htz Hcell.
  unfold onPointerUp. rewrite Hpd, Hcs.
  unfold handleInteraction. rewrite Hpd, Hzd, isTap_small by exact Hsq.
  rewrite Hcell. cbv zeta.
  set (cell := cellIdAt (vec2 qx qy) (context w) u).
  destruct (zoom_in_targets projects cell wd u Hpd) as (Ht & _).
  pose proof (zoom_state_zoom_in projects cell wd u Hpd) as Hs.
  destruct (navigateToCell_result projects cell true wd u Hpd)
    as (Hzc & Htoff & Hproj & _).
  apply zoom_targets_fields in Ht. destruct Ht as (Hz' & Htz' & Hlz' & Hlo').
  apply zoom_state_eq in Hs. destruct Hs as (_ & Htd).
  rewrite Hto in Hlo'. rewrite Htz in Hlz'.
  revert Hzc Htoff Hproj Hz' Htz' Hlz' Hlo' Htd.
  generalize (navigateToCell projects cell true wd).
  intros w1 Hzc Htoff Hproj Hz' Htz' Hlz' Hlo' Htd.
  eexists. split; [reflexivity|].
  rewrite context_setCursor, context_on_context.
  cbn [isZoomed zoomedCellId targetZoom targetDistortion targetOffset lastOffset
       lastZoom isDragging set_isDragging zoomedProject cursor setCursor on_context].
  repeat split; assumption.
Qed.

Lemma tap_zooms_into_released_cell_witness :
  exists w',
    onPointerUp (Some DEFAULT_PROJECTS) 403 296
      (onPointerDown 400 300 (onResize 800 600 initialWorld)) = Some w' /\
    isZoomed (context w') = true /\
    targetZoom (context w') = 3 / 10 /\
    isDragging (context w') = false /\
    cursor w' = grab.
Proof.
  destruct (tap_zooms_into_released_cell (Some DEFAULT_PROJECTS)
              (onResize 800 600 initialWorld)
              (set_uResolution (vec2 800 600) initialUniforms) 400 300 403 296
              eq_refl eq_refl ltac:(lra))
    as (w' & Hup & Hz & _ & Htz & _ & _ & _ & _ & _ & Hdrag & Hcur).
  exists w'. repeat split; assumption.
Defined.

Lemma sign_cases (r : R) :
  (0 < r /\ sign r = 1) \/ (r < 0 /\ sign r = -1) \/ (r = 0 /\ sign r = 0).
Proof.
  unfold sign. destruct (Rlt_dec 0 r); [now left|].
  destruct (Rlt_dec r 0); [right; now left|]. right. right. split; [lra | reflexivity].
Qed.

(** X10.  A swipe (more than [swipeThreshold] pixels) while zoomed goes to
    exactly one of the four neighbours of the zoomed cell, never stays: along
    x when |dx| > |dy| (to the left neighbour for a swipe to the right), along
    y otherwise (a diagonal swipe counts as vertical); the grid stays zoomed
    on the new cell, with its centre as target and its project shown. *)
Theorem swipe_moves_one_cell
    (projects : option (list Project)) (w : World) (u : Uniforms)
    (z clickPos delta : Vec2) :
  plane (context w) = Some u -> isZoomed (context w) = true ->
  zoomedCellId (context w) = Some z ->
  50 * 50 < Vector2.x delta * Vector2.x delta + Vector2.y delta * Vector2.y delta ->
  let dx := Vector2.x delta in
  let dy := Vector2.y delta in
  exists next w',
    handleInteraction projects clickPos delta w = Some w' /\
    ((Rabs dy < Rabs dx /\ 0 < dx /\ next = vec2 (Vector2.x z - 1) (Vector2.y z)) \/
     (Rabs dy < Rabs dx /\ dx < 0 /\ next = vec2 (Vector2.x z + 1) (Vector2.y z)) \/
     (Rabs dx <= Rabs dy /\ 0 < dy /\ next = vec2 (Vector2.x z) (Vector2.y z + 1)) \/
     (Rabs dx <= Rabs dy /\ dy < 0 /\ next = vec2 (Vector2.x z) (Vector2.y z - 1))) /\
    isZoomed (context w') = true /\
    zoomedCellId (context w') = Some next /\
    targetOffset (context w')
    = Vector2.multiplyScalar (Vector2.addScalar next (1 / 2)) (uCellSize u) /\
    zoomedProject w' = getProjectByCellId (Some next) projects /\
    lastOffset (context w') = lastOffset (context w) /\
    targetZoom (context w') = targetZoom (context w).
Proof.
  intros Hp Hz Hzc Hsq. cbv zeta.
  destruct (isSwipe_large delta Hsq) as (Htap & Hswipe).
  unfold handleInteraction. rewrite Hp, Hz, Htap, Hswipe, Hzc.
  match goal with
  | |- context [navigateToCell projects ?n false w] => set (next := n)
  end.
  exists next, (navigateToCell projects next false w).
  split; [reflexivity|].
  destruct (navigate_targets projects next w u Hp) as (Ht & _ & Hto).
  destruct (navigateToCell_result projects next false w u Hp) as (_ & _ & Hproj & _).
  pose proof (zoom_targets_cell _ _ _ _ _ _ _ Ht) as Hcell.
  apply zoom_targets_fields in Ht. destruct Ht as (Hz' & Htz' & _ & Hlo').
  rewrite Hz in Hz'.
  split; [|repeat split; assumption].
  clear Hto Hproj Hcell Hz' Htz' Hlo'. subst next. unfold Rgtb.
  destruct (Rltb (Rabs (Vector2.y delta)) (Rabs (Vector2.x delta))) eqn:Hdom.
  - apply Rltb_spec in Hdom.
    destruct (sign_cases (Vector2.x delta)) as [(Hs & ->) | [(Hs & ->) | (Hs & _)]].
    + left. repeat split; assumption.
    + right. left. repeat split; try assumption.
      apply vec2_eq; [lra | reflexivity].
    + rewrite Hs, Rabs_R0 in Hdom. pose proof (Rabs_pos (Vector2.y delta)). lra.
  - assert (Hle : Rabs (Vector2.x delta) <= Rabs (Vector2.y delta)).
    { destruct (Rle_or_lt (Rabs (Vector2.x delta)) (Rabs (Vector2.y delta)))
        as [H|H]; [exact H|].
      apply Rltb_spec in H. congruence. }
    destruct (sign_cases (Vector2.y delta)) as [(Hs & ->) | [(Hs & ->) | (Hs & _)]].
    + right. right. left. repeat split; assumption.
    + right. right. right. repeat split; assumption.
    + rewrite Hs, Rabs_R0 in Hle.
      pose proof (Rabs_pos (Vector2.x delta)) as Hx.
      assert (Hx0 : Vector2.x delta = 0).
      { destruct (Req_dec (Vector2.x delta) 0) as [H|H]; [exact H|].
        apply Rabs_pos_lt in H. lra. }
      rewrite Hs, Hx0 in Hsq. lra.
Qed.

Lemma swipe_moves_one_cell_witness :
  let w := navigateToCell (Some DEFAULT_PROJECTS) (vec2 2 3) true initialWorld in
  exists w',
    handleInteraction (Some DEFAULT_PROJECTS) (vec2 10 10) (vec2 60 20) w = Some w' /\
    zoomedCellId (context w') = Some (vec2 (2 - 1) 3) /\
    isZoomed (context w') = true.
Proof.
  cbv zeta.
  destruct (swipe_moves_one_cell (Some DEFAULT_PROJECTS)
              (navigateToCell (Some DEFAULT_PROJECTS) (vec2 2 3) true initialWorld)
              initialUniforms (vec2 2 3) (vec2 10 10) (vec2 60 20)
              eq_refl eq_refl eq_refl ltac:(cbn; lra))
    as (next & w' & Hh & Hdir & Hz & Hcell & _).
  exists w'. split; [exact Hh|]. split; [|exact Hz].
  rewrite Hcell. f_equal. cbn [Vector2.x Vector2.y] in Hdir.
  destruct Hdir as [(_ & _ & ->) | [(_ & Hneg & _) | [(Hdom & _) | (Hdom & _)]]].
  - reflexivity.
  - lra.
  - rewrite !Rabs_pos_eq in Hdom by lra. lra.
  - rewrite !Rabs_pos_eq in Hdom by lra. lra.
Defined.

(** The centre of the screen shows the camera offset, at any zoom and
    distortion. *)
Lemma screenToWorld_centre (c : ThreeContext) (u : Uniforms) :
  plane c = Some u ->
  Vector2.x (uResolution u) <> 0 -> Vector2.y (uResolution u) <> 0 ->
  screenToWorld (vec2 (Vector2.x (uResolution u) / 2) (Vector2.y (uResolution u) / 2)) c
  = offset c.
Proof.
  intros Hp Hx Hy. unfold screenToWorld. rewrite Hp. cbv zeta.
  destruct (offset c) as [ox oy]. destruct (uResolution u) as [rx ry].
  cbn [Vector2.x Vector2.y] in *.
  replace (rx / 2 / rx * 2 - 1) with 0 by (field; exact Hx).
  replace (- (ry / 2 / ry) * 2 + 1) with 0 by (field; exact Hy).
  unfold Vector2.add, Vector2.multiplyScalar, Vector2.multiply.
  cbn [Vector2.x Vector2.y]. apply vec2_eq; ring.
Qed.

Lemma floor_half (i : Z) (s : R) : s <> 0 -> floor ((IZR i + 1 / 2) * s / s) = IZR i.
Proof.
  intros Hs. unfold floor. f_equal. apply Zfloor_eq.
  replace ((IZR i + 1 / 2) * s / s) with (IZR i + 1 / 2) by (field; exact Hs). lra.
Qed.

(** ** A tap at the centre of the screen *)

(** With the camera at the origin, the centre of the screen is in cell
    (0, 0). *)
Lemma cellIdAt_centre (c : ThreeContext) (u : Uniforms) :
  plane c = Some u ->
  Vector2.x (uResolution u) <> 0 -> Vector2.y (uResolution u) <> 0 ->
  0 < uCellSize u -> offset c = Vector2.zero ->
  cellIdAt (vec2 (Vector2.x (uResolution u) / 2) (Vector2.y (uResolution u) / 2)) c u
  = cell00.
Proof.
  intros Hp Hx Hy Hcs Hoff. unfold cellIdAt.
  rewrite (screenToWorld_centre c u Hp Hx Hy), Hoff.
  unfold Vector2.zero, cell00, floor. cbn [Vector2.x Vector2.y].
  replace (0 / uCellSize u) with 0 by (unfold Rdiv; ring).
  rewrite (Zfloor_eq 0); [reflexivity | lra].
Qed.

(** The uniforms of the 800 by 600 grid. *)
Lemma plane_tapDown :
  plane (context tapDown) = Some (set_uResolution (vec2 800 600) initialUniforms).
Proof. reflexivity. Qed.

(** Releasing the pointer where it was pressed is a tap on cell (0, 0). *)
Lemma tap_at_centre :
  onPointerUp (Some DEFAULT_PROJECTS) (800 / 2) (600 / 2) tapDown = Some tapZoomed.
Proof.
  unfold onPointerUp. rewrite plane_tapDown.
  replace (clickStart (context tapDown)) with (vec2 (800 / 2) (600 / 2)) by reflexivity.
  unfold handleInteraction. rewrite plane_tapDown.
  replace (isZoomed (context tapDown)) with false by reflexivity.
  rewrite isTap_small by (cbn; lra).
  assert (Hcell : cellIdAt (vec2 (800 / 2) (600 / 2)) (context tapDown)
                    (set_uResolution (vec2 800 600) initialUniforms) = cell00).
  { apply (cellIdAt_centre (context tapDown)
             (set_uResolution (vec2 800 600) initialUniforms) plane_tapDown);
      cbn; first [lra | reflexivity]. }
  rewrite Hcell. reflexivity.
Qed.

(** The call of [setVideoState] the tap makes: the load of the video of cell
    (0, 0) starts. *)
Lemma setVideoState_tapDown :
  let w := setZoomedProject
             (getProjectByCellId (Some cell00) (Some DEFAULT_PROJECTS)) tapDown in
  setVideoState (Some DEFAULT_PROJECTS) (Some cell00) w
  = suspend (requestA AwaitLoad)
      (on_context (on_video (load sintel))
         (on_context (on_plane (set_uIsVideoActive false))
            (on_context (set_videoNonce 1) w))).
Proof.
  destruct project_at_cell00 as (p & Hp & Hv).
  exact (setVideoState_starts_load (Some DEFAULT_PROJECTS) (Some cell00)
           (setZoomedProject
              (getProjectByCellId (Some cell00) (Some DEFAULT_PROJECTS)) tapDown)
           _ _ p sintel eq_refl eq_refl Hp Hv eq_refl eq_refl).
Qed.

(** The state the tap leaves: zoomed on cell (0, 0), the camera still at the
    origin, the call for the video waiting for its load. *)
Lemma tapZoomed_fields :
  plane (context tapZoomed)
  = Some (set_uIsVideoActive false (set_uResolution (vec2 800 600) initialUniforms)) /\
  videoRef (context tapZoomed) = Some {| src := sintel; paused := true |} /\
  videoNonce (context tapZoomed) = 1%nat /\
  pending tapZoomed = [requestA AwaitLoad] /\
  isZoomed (context tapZoomed) = true /\
  zoomedCellId (context tapZoomed) = Some cell00 /\
  offset (context tapZoomed) = Vector2.zero /\
  lastZoom (context tapZoomed) = 1.
Proof.
  unfold tapZoomed, navigateToCell. rewrite plane_tapDown. cbv zeta.
  rewrite setVideoState_tapDown. repeat split; reflexivity.
Qed.

(** The run is one the grid can make. *)
Lemma tapStart_reachable : reachable (Some DEFAULT_PROJECTS) tapStart.
Proof.
  apply (reachable_step _ (onResize 800 600 initialWorld)).
  - apply (reachable_step _ initialWorld); [apply reachable_initial|].
    apply step_resize. apply Forall_nil.
  - apply step_video; [apply Forall_nil | reflexivity].
Qed.

Lemma tapZoomed_reachable : reachable (Some DEFAULT_PROJECTS) tapZoomed.
Proof.
  apply (reachable_step _ tapDown).
  - apply (reachable_step _ tapStart); [exact tapStart_reachable|].
    apply step_down. apply Forall_nil.
  - apply (step_up _ tapDown tapZoomed (800 / 2) (600 / 2));
      [apply Forall_nil | exact tap_at_centre].
Qed.

Lemma tapLoaded_fields :
  plane (context tapLoaded)
  = Some (set_uHoveredCellId cell00
            (set_uIsVideoActive false
               (set_uResolution (vec2 800 600) initialUniforms))) /\
  videoRef (context tapLoaded) = Some {| src := sintel; paused := false |} /\
  videoNonce (context tapLoaded) = 1%nat /\
  pending tapLoaded = [requestA AwaitPlay].
Proof.
  destruct tapZoomed_fields as (Hp & Hv & Hn & _).
  unfold tapLoaded. revert Hp Hv Hn. generalize tapZoomed. intros w Hp Hv Hn.
  unfold loadResolved, startPlayback. cbn [cellId requestA].
  rewrite !context_suspend, !context_on_context, context_set_pending.
  unfold on_plane, on_video. cbn [plane videoRef videoNonce set_plane set_videoRef].
  rewrite Hp, Hv, Hn. repeat split; reflexivity.
Qed.

Lemma tapLoaded_reachable : reachable (Some DEFAULT_PROJECTS) tapLoaded.
Proof.
  apply (reachable_step _ tapZoomed); [exact tapZoomed_reachable|].
  apply step_resume.
  apply (resume_load tapZoomed [] (requestA AwaitLoad) []); [|reflexivity].
  now destruct tapZoomed_fields as (_ & _ & _ & -> & _).
Qed.

Lemma tapPlaying_fields :
  plane (context tapPlaying)
  = Some (set_uIsVideoActive true
            (set_uHoveredCellId cell00
               (set_uIsVideoActive false
                  (set_uResolution (vec2 800 600) initialUniforms)))) /\
  videoRef (context tapPlaying) = Some {| src := sintel; paused := false |} /\
  pending tapPlaying = [].
Proof.
  destruct tapLoaded_fields as (Hp & Hv & Hn & _).
  unfold tapPlaying. revert Hp Hv Hn. generalize tapLoaded. intros w Hp Hv Hn.
  unfold playResolved. rewrite context_set_pending, Hn.
  cbn [currentNonce requestA Nat.eqb].
  rewrite !context_on_context, context_set_pending.
  unfold on_plane. cbn [plane videoRef set_plane]. rewrite Hp, Hv.
  repeat split; reflexivity.
Qed.

Lemma tapPlaying_reachable : reachable (Some DEFAULT_PROJECTS) tapPlaying.
Proof.
  apply (reachable_step _ tapLoaded); [exact tapLoaded_reachable|].
  apply step_resume.
  apply (resume_play tapLoaded [] (requestA AwaitPlay) []); [|reflexivity].
  now destruct tapLoaded_fields as (_ & _ & _ & ->).
Qed.

(** X11.  A tap while zoomed: on the zoomed cell it leaves the zoom and
    restores the snapshot, on any other cell it moves the zoom to that cell. *)
Theorem tap_while_zoomed
    (projects : option (list Project)) (w : World) (u : Uniforms)
    (z clickPos delta : Vec2) :
  plane (context w) = Some u -> isZoomed (context w) = true ->
  zoomedCellId (context w) = Some z ->
  Vector2.x delta * Vector2.x delta + Vector2.y delta * Vector2.y delta < 10 * 10 ->
  let tapped := cellIdAt clickPos (context w) u in
  exists w',
    handleInteraction projects clickPos delta w = Some w' /\
    (tapped = z ->
     isZoomed (context w') = false /\ zoomedCellId (context w') = None /\
     targetOffset (context w') = lastOffset (context w) /\
     targetZoom (context w') = lastZoom (context w) /\
     targetDistortion (context w') = 1 /\
     zoomedProject w' = Null) /\
    (tapped <> z ->
     isZoomed (context w') = true /\ zoomedCellId (context w') = Some tapped /\
     targetOffset (context w')
     = Vector2.multiplyScalar (Vector2.addScalar tapped (1 / 2)) (uCellSize u) /\
     zoomedProject w' = getProjectByCellId (Some tapped) projects /\
     lastOffset (context w') = lastOffset (context w)).
Proof.
  intros Hp Hz Hzc Hsq. cbv zeta.
  unfold handleInteraction. rewrite Hp, Hz, Hzc, isTap_small by exact Hsq.
  set (tapped := cellIdAt clickPos (context w) u).
  destruct (Vector2.equals tapped z) eqn:Heq.
  - apply equals_spec in Heq. eexists. split; [reflexivity|]. split; [|congruence].
    intros _.
    destruct (unzoom_targets projects w) as (Ht & _ & Hto).
    pose proof (zoom_state_unzoom projects w) as Hs.
    pose proof (zoom_targets_cell _ _ _ _ _ _ _ Ht) as Hcell.
    apply zoom_targets_fields in Ht. destruct Ht as (Hz' & Htz' & _).
    apply zoom_state_eq in Hs. destruct Hs as (_ & Htd).
    repeat split; assumption.
  - assert (Hne : tapped <> z).
    { intros H. apply equals_spec in H. congruence. }
    eexists. split; [reflexivity|]. split; [intros H; now destruct Hne|].
    intros _.
    destruct (navigate_targets projects tapped w u Hp) as (Ht & _ & Hto).
    destruct (navigateToCell_result projects tapped false w u Hp) as (_ & _ & Hproj & _).
    pose proof (zoom_targets_cell _ _ _ _ _ _ _ Ht) as Hcell.
    apply zoom_targets_fields in Ht. destruct Ht as (Hz' & _ & _ & Hlo').
    rewrite Hz in Hz'. repeat split; assumption.
Qed.

Lemma tap_while_zoomed_witness :
  let projects := Some DEFAULT_PROJECTS in
  let centre := vec2 (800 / 2) (600 / 2) in
  (exists w',
     handleInteraction projects centre (vec2 3 4) tapZoomed = Some w' /\
     isZoomed (context tapZoomed) = true /\
     zoomedCellId (context tapZoomed) = Some cell00 /\
     isZoomed (context w') = false /\
     zoomedCellId (context w') = None /\
     targetZoom (context w') = 1 /\
     zoomedProject w' = Null) /\
  (let w := navigateToCell projects (vec2 2 3) true (onResize 800 600 initialWorld) in
   exists w',
     handleInteraction projects centre (vec2 3 4) w = Some w' /\
     zoomedCellId (context w) = Some (vec2 2 3) /\
     isZoomed (context w') = true /\
     zoomedCellId (context w') = Some cell00).
Proof.
  cbv zeta. split.
  - destruct tapZoomed_fields as (Hp & _ & _ & _ & Hz & Hzc & Hoff & Hlz).
    destruct (tap_while_zoomed (Some DEFAULT_PROJECTS) tapZoomed _ cell00
                (vec2 (800 / 2) (600 / 2)) (vec2 3 4) Hp Hz Hzc ltac:(cbn; lra))
      as (w' & Hh & Hsame & _).
    assert (Hcell : cellIdAt (vec2 (800 / 2) (600 / 2)) (context tapZoomed)
                      (set_uIsVideoActive false
                         (set_uResolution (vec2 800 600) initialUniforms)) = cell00).
    { apply (cellIdAt_centre (context tapZoomed) _ Hp);
        [cbn; lra | cbn; lra | cbn; lra | exact Hoff]. }
    destruct (Hsame Hcell) as (Hz' & Hzc' & _ & Htz & _ & Hproj).
    exists w'. rewrite Htz, Hlz. repeat split; assumption.
  - destruct (tap_while_zoomed (Some DEFAULT_PROJECTS)
                (navigateToCell (Some DEFAULT_PROJECTS) (vec2 2 3) true
                   (onResize 800 600 initialWorld))
                _ (vec2 2 3) (vec2 (800 / 2) (600 / 2)) (vec2 3 4)
                eq_refl eq_refl eq_refl ltac:(cbn; lra))
      as (w' & Hh & _ & Hother).
    assert (Hcell : cellIdAt (vec2 (800 / 2) (600 / 2))
                      (context (navigateToCell (Some DEFAULT_PROJECTS) (vec2 2 3) true
                                  (onResize 800 600 initialWorld)))
                      (set_uResolution (vec2 800 600) initialUniforms) = cell00).
    { apply (cellIdAt_centre
               (context (navigateToCell (Some DEFAULT_PROJECTS) (vec2 2 3) true
                           (onResize 800 600 initialWorld)))
               (set_uResolution (vec2 800 600) initialUniforms) eq_refl);
        [cbn; lra | cbn; lra | cbn; lra | reflexivity]. }
    rewrite Hcell in Hother.
    destruct Hother as (Hz' & Hzc' & _).
    { unfold cell00. intros [= H _]. lra. }
    exists w'. repeat split; assumption.
Defined.

(** ** Taps and swipes, from the thresholds to the navigation *)

(** The cell a swipe goes to is one of the four neighbours. *)
Lemma swipe_direction (z delta : Vec2) :
  50 * 50 < Vector2.x delta * Vector2.x delta + Vector2.y delta * Vector2.y delta ->
  let dx := Vector2.x delta in
  let dy := Vector2.y delta in
  let next :=
    if Rgtb (Rabs dx) (Rabs dy)
    then vec2 (Vector2.x z - sign dx) (Vector2.y z)
    else vec2 (Vector2.x z) (Vector2.y z + sign dy) in
  next = vec2 (Vector2.x z - 1) (Vector2.y z) \/
  next = vec2 (Vector2.x z + 1) (Vector2.y z) \/
  next = vec2 (Vector2.x z) (Vector2.y z + 1) \/
  next = vec2 (Vector2.x z) (Vector2.y z - 1).
Proof.
  intros Hsq. cbv zeta. unfold Rgtb.
  destruct (Rltb (Rabs (Vector2.y delta)) (Rabs (Vector2.x delta))) eqn:Hdom.
  - apply Rltb_spec in Hdom.
    destruct (sign_cases (Vector2.x delta)) as [(Hs & ->) | [(Hs & ->) | (Hs & _)]].
    + now left.
    + right. left. apply vec2_eq; [lra | reflexivity].
    + rewrite Hs, Rabs_R0 in Hdom. pose proof (Rabs_pos (Vector2.y delta)). lra.
  - assert (Hle : Rabs (Vector2.x delta) <= Rabs (Vector2.y delta)).
    { destruct (Rle_or_lt (Rabs (Vector2.x delta)) (Rabs (Vector2.y delta)))
        as [H|H]; [exact H|].
      apply Rltb_spec in H. congruence. }
    destruct (sign_cases (Vector2.y delta)) as [(Hs & ->) | [(Hs & ->) | (Hs & _)]].
    + right. right. now left.
    + right. right. right. reflexivity.
    + rewrite Hs, Rabs_R0 in Hle.
      pose proof (Rabs_pos (Vector2.x delta)) as Hx.
      assert (Hx0 : Vector2.x delta = 0).
      { destruct (Req_dec (Vector2.x delta) 0) as [H|H]; [exact H|].
        apply Rabs_pos_lt in H. lra. }
      rewrite Hs, Hx0 in Hsq. lra.
Qed.

Lemma neighbour_is_another_cell (z next : Vec2) :
  next = vec2 (Vector2.x z - 1) (Vector2.y z) \/
  next = vec2 (Vector2.x z + 1) (Vector2.y z) \/
  next = vec2 (Vector2.x z) (Vector2.y z + 1) \/
  next = vec2 (Vector2.x z) (Vector2.y z - 1) ->
  next <> z.
Proof.
  destruct z as [zx zy]. cbn [Vector2.x Vector2.y].
  intros [-> | [-> | [-> | ->]]]; intros [= H]; lra.
Qed.

(** C6.  A release gesture is a tap exactly when |delta| < 10 and a swipe
    exactly when |delta| > 50; for 10 <= |delta| <= 50 it is neither and the
    handler leaves the state as it is.  On an initialized grid the handler
    navigates on exactly the taps and the swipes: a tap zooms into the tapped
    cell when the grid is not zoomed; when it is zoomed, a tap on the zoomed
    cell leaves the zoom, a tap on another cell goes to that cell, and a swipe
    goes to one of the four neighbours of the zoomed cell; a swipe on a grid
    that is not zoomed does nothing.  Magnitude 5 is a tap, 60 a swipe, 30
    neither, and so are the two boundaries 10 and 50. *)
Theorem tap_swipe_classification
    (projects : option (list Project)) (clickPos delta : Vec2) (w : World) :
  let magnitude := Vector2.length delta in
  (isTap delta = true <-> magnitude < 10) /\
  (isSwipe delta = true <-> magnitude > 50) /\
  (10 <= magnitude <= 50 ->
     isTap delta = false /\ isSwipe delta = false /\
     handleInteraction projects clickPos delta w = Some w) /\
  (forall u,
     plane (context w) = Some u ->
     let tapped := cellIdAt clickPos (context w) u in
     (magnitude < 10 -> isZoomed (context w) = false ->
        let w' := navigateToCell projects tapped true w in
        handleInteraction projects clickPos delta w = Some w' /\
        isZoomed (context w') = true /\
        zoomedCellId (context w') = Some tapped /\
        targetZoom (context w') = AnimationConfig.zoomedInLevel) /\
     (magnitude < 10 -> isZoomed (context w) = true ->
        zoomedCellId (context w) = Some tapped ->
        let w' := unzoom projects w in
        handleInteraction projects clickPos delta w = Some w' /\
        isZoomed (context w') = false /\
        zoomedCellId (context w') = None) /\
     (forall z,
        magnitude < 10 -> isZoomed (context w) = true ->
        zoomedCellId (context w) = Some z -> tapped <> z ->
        let w' := navigateToCell projects tapped false w in
        handleInteraction projects clickPos delta w = Some w' /\
        isZoomed (context w') = true /\
        zoomedCellId (context w') = Some tapped) /\
     (forall z,
        magnitude > 50 -> isZoomed (context w) = true ->
        zoomedCellId (context w) = Some z ->
        exists next,
          let w' := navigateToCell projects next false w in
          handleInteraction projects clickPos delta w = Some w' /\
          (next = vec2 (Vector2.x z - 1) (Vector2.y z) \/
           next = vec2 (Vector2.x z + 1) (Vector2.y z) \/
           next = vec2 (Vector2.x z) (Vector2.y z + 1) \/
           next = vec2 (Vector2.x z) (Vector2.y z - 1)) /\
          next <> z /\
          isZoomed (context w') = true /\
          zoomedCellId (context w') = Some next) /\
     (magnitude > 50 -> isZoomed (context w) = false ->
        handleInteraction projects clickPos delta w = Some w)) /\
  (isTap (vec2 3 4) = true /\ isSwipe (vec2 3 4) = false) /\
  (isTap (vec2 36 48) = false /\ isSwipe (vec2 36 48) = true) /\
  (isTap (vec2 18 24) = false /\ isSwipe (vec2 18 24) = false) /\
  (isTap (vec2 6 8) = false /\ isSwipe (vec2 6 8) = false) /\
  (isTap (vec2 30 40) = false /\ isSwipe (vec2 30 40) = false).
Proof.
  intros magnitude.
  assert (Htap : isTap delta = true <-> magnitude < 10).
  { unfold isTap, AnimationConfig.tapThreshold. apply Rltb_spec. }
  assert (Hswipe : isSwipe delta = true <-> magnitude > 50).
  { unfold isSwipe, Rgtb, AnimationConfig.swipeThreshold. apply Rltb_spec. }
  assert (Hnotap : 10 <= magnitude -> isTap delta = false).
  { intros Hm. destruct (isTap delta); [|reflexivity].
    assert (magnitude < 10) by now apply Htap. lra. }
  split; [exact Htap|]. split; [exact Hswipe|]. split; [|split].
  - intros [Hlo Hhi].
    assert (Hs : isSwipe delta = false).
    { destruct (isSwipe delta); [|reflexivity].
      assert (magnitude > 50) by now apply Hswipe. lra. }
    split; [now apply Hnotap|]. split; [exact Hs|].
    apply handleInteraction_neither; [now apply Hnotap | exact Hs].
  - intros u Hp. cbv zeta. set (tapped := cellIdAt clickPos (context w) u).
    split; [|split; [|split; [|split]]].
    + intros Hm Hz. apply Htap in Hm.
      split.
      { unfold handleInteraction. rewrite Hp, Hz, Hm. reflexivity. }
      destruct (zoom_in_targets projects tapped w u Hp) as (Ht & _).
      pose proof (zoom_targets_cell _ _ _ _ _ _ _ Ht) as Hcell.
      apply zoom_targets_fields in Ht. destruct Ht as (Hz' & Htz' & _).
      repeat split; assumption.
    + intros Hm Hz Hzc. apply Htap in Hm.
      split.
      { unfold handleInteraction. rewrite Hp, Hz, Hm, Hzc. fold tapped.
        now rewrite (proj2 (equals_spec tapped tapped) eq_refl). }
      destruct (unzoom_targets projects w) as (Ht & _).
      pose proof (zoom_targets_cell _ _ _ _ _ _ _ Ht) as Hcell.
      apply zoom_targets_fields in Ht. destruct Ht as (Hz' & _).
      split; assumption.
    + intros z Hm Hz Hzc Hne. apply Htap in Hm.
      split.
      { unfold handleInteraction. rewrite Hp, Hz, Hm, Hzc. fold tapped.
        destruct (Vector2.equals tapped z) eqn:Heq; [|reflexivity].
        apply equals_spec in Heq. contradiction. }
      destruct (navigate_targets projects tapped w u Hp) as (Ht & _).
      pose proof (zoom_targets_cell _ _ _ _ _ _ _ Ht) as Hcell.
      apply zoom_targets_fields in Ht. destruct Ht as (Hz' & _).
      rewrite Hz in Hz'. split; assumption.
    + intros z Hm Hz Hzc.
      assert (Hsq : 50 * 50 < Vector2.x delta * Vector2.x delta
                              + Vector2.y delta * Vector2.y delta).
      { pose proof (length_squared delta) as Hl. fold magnitude in Hl. nra. }
      assert (Ht : isTap delta = false) by (apply Hnotap; lra).
      apply Hswipe in Hm.
      pose proof (swipe_direction z delta Hsq) as Hdir. cbv zeta in Hdir.
      unfold handleInteraction. rewrite Hp, Hz, Ht, Hm, Hzc.
      revert Hdir.
      match goal with
      | |- context [navigateToCell projects ?n false w] => generalize n
      end.
      intros next Hdir. exists next. split; [reflexivity|].
      split; [exact Hdir|].
      split; [now apply neighbour_is_another_cell|].
      destruct (navigate_targets projects next w u Hp) as (Hz' & _).
      pose proof (zoom_targets_cell _ _ _ _ _ _ _ Hz') as Hcell.
      apply zoom_targets_fields in Hz'. destruct Hz' as (Hz' & _).
      rewrite Hz in Hz'. split; assumption.
    + intros Hm Hz.
      assert (Ht : isTap delta = false) by (apply Hnotap; lra).
      unfold handleInteraction. now rewrite Hp, Hz, Ht.
  - repeat split.
    1, 2: classify 5. 1, 2: classify 60. 1, 2: classify 30.
    1, 2: classify 10. 1, 2: classify 50.
Qed.

Lemma tap_swipe_classification_witness :
  let projects := Some DEFAULT_PROJECTS in
  let w := onResize 800 600 initialWorld in
  let zoomed := navigateToCell projects (vec2 2 3) true w in
  (exists w',
     handleInteraction projects (vec2 403 296) (vec2 3 4) w = Some w' /\
     isZoomed (context w) = false /\ isZoomed (context w') = true /\
     targetZoom (context w') = 3 / 10) /\
  handleInteraction projects (vec2 418 324) (vec2 18 24) w = Some w /\
  handleInteraction projects (vec2 436 348) (vec2 36 48) w = Some w /\
  (exists next,
     handleInteraction projects (vec2 436 348) (vec2 36 48) zoomed
     = Some (navigateToCell projects next false zoomed) /\
     zoomedCellId (context zoomed) = Some (vec2 2 3) /\
     zoomedCellId (context (navigateToCell projects next false zoomed)) = Some next /\
     next <> vec2 2 3).
Proof.
  cbv zeta.
  assert (H5 : Vector2.length (vec2 3 4) = 5)
    by (apply length_of_square; [lra | cbn; ring]).
  assert (H30 : Vector2.length (vec2 18 24) = 30)
    by (apply length_of_square; [lra | cbn; ring]).
  assert (H60 : Vector2.length (vec2 36 48) = 60)
    by (apply length_of_square; [lra | cbn; ring]).
  split; [|split; [|split]].
  - destruct (tap_swipe_classification (Some DEFAULT_PROJECTS) (vec2 403 296) (vec2 3 4)
                (onResize 800 600 initialWorld)) as (_ & _ & _ & Hnav & _).
    destruct (Hnav _ eq_refl) as (Hzoom & _).
    destruct (Hzoom ltac:(rewrite H5; lra) eq_refl) as (Hh & Hz & _ & Htz).
    eexists. split; [exact Hh|]. split; [reflexivity|]. split; [exact Hz|].
    exact Htz.
  - destruct (tap_swipe_classification (Some DEFAULT_PROJECTS) (vec2 418 324) (vec2 18 24)
                (onResize 800 600 initialWorld)) as (_ & _ & Hneither & _).
    apply Hneither. rewrite H30. lra.
  - destruct (tap_swipe_classification (Some DEFAULT_PROJECTS) (vec2 436 348) (vec2 36 48)
                (onResize 800 600 initialWorld)) as (_ & _ & _ & Hnav & _).
    destruct (Hnav _ eq_refl) as (_ & _ & _ & _ & Hswipe).
    apply Hswipe; [rewrite H60; lra | reflexivity].
  - destruct (tap_swipe_classification (Some DEFAULT_PROJECTS) (vec2 436 348) (vec2 36 48)
                (navigateToCell (Some DEFAULT_PROJECTS) (vec2 2 3) true
                   (onResize 800 600 initialWorld))) as (_ & _ & _ & Hnav & _).
    destruct (Hnav _ eq_refl) as (_ & _ & _ & Hswipe & _).
    destruct (Hswipe (vec2 2 3) ltac:(rewrite H60; lra) eq_refl eq_refl)
      as (next & Hh & _ & Hne & _ & Hcell).
    exists next. split; [exact Hh|]. split; [reflexivity|]. split; [exact Hcell|].
    exact Hne.
Defined.

(** ** The zoomed cell on the screen *)

(** X12.  After [navigateToCell], once the camera offset has arrived at its
    target, the centre of the screen lies in the chosen cell, so that the
    project shown in the overlay ([zoomedProject]) is the project of the cell
    at the centre of the screen. *)
Theorem zoomed_cell_at_screen_centre
    (projects : option (list Project)) (w : World) (u : Uniforms) (i j : Z)
    (isInitialZoom : bool) :
  plane (context w) = Some u ->
  Vector2.x (uResolution u) <> 0 -> Vector2.y (uResolution u) <> 0 ->
  uCellSize u <> 0 ->
  let cell := vec2 (IZR i) (IZR j) in
  let w' := navigateToCell projects cell isInitialZoom w in
  let arrived := set_offset (targetOffset (context w')) (context w') in
  let centre :=
    vec2 (Vector2.x (uResolution u) / 2) (Vector2.y (uResolution u) / 2) in
  exists u',
    plane (context w') = Some u' /\
    cellIdAt centre arrived u' = cell /\
    zoomedProject w' = getProjectByCellId (Some (cellIdAt centre arrived u')) projects.
Proof.
  intros Hp Hx Hy Hcs. cbv zeta.
  destruct (navigateToCell_result projects (vec2 (IZR i) (IZR j)) isInitialZoom w u Hp)
    as (_ & Hto & Hproj & _ & _ & (u' & Hp' & Hu')).
  destruct Hu' as (Hres & Hcs' & _).
  revert Hto Hproj Hp'.
  generalize (navigateToCell projects (vec2 (IZR i) (IZR j)) isInitialZoom w).
  intros w' Hto Hproj Hp'. exists u'. split; [exact Hp'|].
  assert (Hcell : cellIdAt (vec2 (Vector2.x (uResolution u) / 2)
                              (Vector2.y (uResolution u) / 2))
                    (set_offset (targetOffset (context w')) (context w')) u'
                  = vec2 (IZR i) (IZR j)).
  { unfold cellIdAt. rewrite <- Hres.
    rewrite (screenToWorld_centre _ u') by (try exact Hp'; rewrite Hres; assumption).
    cbn [offset set_offset]. rewrite Hto, Hcs'.
    cbn [Vector2.x Vector2.y Vector2.multiplyScalar Vector2.addScalar].
    now rewrite !floor_half. }
  split; [exact Hcell|]. rewrite Hcell. exact Hproj.
Qed.

Lemma zoomed_cell_at_screen_centre_witness :
  let w := onResize 800 600 initialWorld in
  let w' := navigateToCell (Some DEFAULT_PROJECTS) (vec2 (IZR 2) (IZR (-3))) true w in
  exists u',
    plane (context w') = Some u' /\
    cellIdAt (vec2 (800 / 2) (600 / 2))
      (set_offset (targetOffset (context w')) (context w')) u'
    = vec2 (IZR 2) (IZR (-3)).
Proof.
  cbv zeta.
  destruct (zoomed_cell_at_screen_centre (Some DEFAULT_PROJECTS)
              (onResize 800 600 initialWorld)
              (set_uResolution (vec2 800 600) initialUniforms) 2 (-3) true eq_refl
              ltac:(cbn; lra) ltac:(cbn; lra) ltac:(cbn; lra))
    as (u' & Hp' & Hcell & _).
  exists u'. split; [exact Hp' | exact Hcell].
Defined.

(** ** The video state in the reachable states *)

Lemma video_state_fields (w w' : World) :
  video_state w' = video_state w ->
  videoRef (context w') = videoRef (context w) /\
  videoNonce (context w') = videoNonce (context w) /\
  pending w' = pending w /\
  isActive w' = isActive w /\
  hoveredUniform w' = hoveredUniform w /\
  videoSrc w' = videoSrc w /\
  (plane (context w') <> None <-> plane (context w) <> None).
Proof.
  unfold video_state, isActive, hoveredUniform, videoSrc.
  intros [= Hv Hp Hn Hpend]. rewrite Hv, Hn, Hpend.
  destruct (plane (context w')) as [u'|], (plane (context w)) as [u|];
    cbn in Hp; try discriminate.
  - injection Hp as Hh Ha. cbn. rewrite Hh, Ha. repeat split; discriminate.
  - repeat split; intros H; now destruct H.
Qed.

Lemma video_inv_ext (projects : option (list Project)) (w w' : World) :
  video_state w' = video_state w -> video_inv projects w -> video_inv projects w'.
Proof.
  intros Hs. apply video_state_fields in Hs.
  destruct Hs as (Hv & Hn & Hpend & Hact & Hhov & Hsrc & Hpl).
  unfold video_inv, nonces_wf, race_inv. rewrite Hv, Hn, Hpend, Hact, Hhov, Hsrc.
  intros (Hp & Hwf & Hrest). split; [now apply Hpl|]. split; [exact Hwf|].
  destruct (videoRef (context w)); [|exact Hrest].
  destruct Hrest as (cellB & H1 & H2 & H3 & H4). exists cellB.
  split; [exact H1|]. split; [exact H2|]. split; [now apply Hpl | exact H4].
Qed.

Lemma microtasksDone_ext (w w' : World) :
  video_state w' = video_state w -> microtasksDone w -> microtasksDone w'.
Proof.
  intros Hs. apply video_state_fields in Hs. destruct Hs as (_ & _ & Hpend & _).
  unfold microtasksDone. now rewrite Hpend.
Qed.

Lemma setVideoState_unmounted
    (projects : option (list Project)) (cell : option Vec2) (w : World) :
  videoRef (context w) = None ->
  setVideoState projects cell w
  = on_context (set_videoNonce (S (videoNonce (context w)))) w.
Proof.
  intros Hv. unfold setVideoState.
  cbn [context on_context videoRef set_videoNonce]. now rewrite Hv.
Qed.

(** A call made by a task keeps the invariant. *)
Lemma video_inv_call
    (projects : option (list Project)) (cell : option Vec2) (w : World) :
  video_inv projects w -> microtasksDone w ->
  video_inv projects (setVideoState projects cell w).
Proof.
  intros (Hp & Hwf & Hrest) Hmicro.
  destruct (videoRef (context w)) as [v|] eqn:Hv.
  - assert (Hm : mounted w) by (split; [rewrite Hv; discriminate | exact Hp]).
    destruct (setVideoState_mounted projects cell w Hm) as ((Hv' & Hp') & Hn & _).
    pose proof (setVideoState_keeps_wf projects cell w Hm Hwf) as Hwf'.
    pose proof (race_inv_after_call projects cell w Hm Hwf Hmicro) as Hrace.
    revert Hv' Hp' Hn Hwf' Hrace. generalize (setVideoState projects cell w).
    intros w' Hv' Hp' Hn Hwf' Hrace.
    split; [exact Hp'|]. split; [exact Hwf'|].
    destruct (videoRef (context w')); [|now destruct Hv'].
    exists cell. rewrite Hn. exact Hrace.
  - rewrite (setVideoState_unmounted projects cell w Hv).
    destruct Hrest as (Hpend & Hact).
    unfold video_inv, nonces_wf.
    cbn [context on_context pending plane videoRef set_videoNonce].
    rewrite Hv, Hpend. repeat split; try assumption. constructor.
Qed.

Lemma video_inv_resume (projects : option (list Project)) (w w' : World) :
  video_inv projects w -> resume w w' -> video_inv projects w'.
Proof.
  intros (Hp & Hwf & Hrest) Hres.
  destruct (resume_keeps_mounted_and_nonce _ _ Hres) as (Hn & Hsrc & Hm & Hwf').
  destruct (videoRef (context w)) as [v|] eqn:Hv.
  - destruct Hm as (Hv' & Hp'); [split; [rewrite Hv; discriminate | exact Hp]|].
    destruct Hrest as (cellB & Hrace).
    pose proof (race_inv_resume projects cellB _ _ w w' Hrace Hres) as Hrace'.
    split; [exact Hp'|]. split; [now apply Hwf'|].
    destruct (videoRef (context w')); [|now destruct Hv'].
    exists cellB. rewrite Hn, Hsrc. exact Hrace'.
  - destruct Hrest as (Hpend & _).
    destruct Hres as [w0 before r after Hq _ | w0 before r after Hq _
                      | w0 before r after name Hq _];
      rewrite Hpend in Hq; now destruct before.
Qed.

Lemma video_state_dragPan (u : Uniforms) (w : World) :
  video_state (on_context (dragPan u) w) = video_state w.
Proof.
  unfold video_state, dragPan. cbn [context on_context pending].
  destruct (_ && _); reflexivity.
Qed.

Lemma video_state_pushUniforms (w : World) :
  video_state (on_context pushUniforms w) = video_state w.
Proof.
  unfold video_state, pushUniforms. cbn [context on_context pending].
  destruct (plane (context w)) eqn:Hp; unfold on_plane; rewrite Hp; reflexivity.
Qed.

Lemma video_inv_detectHover
    (projects : option (list Project)) (u : Uniforms) (w : World) :
  video_inv projects w -> microtasksDone w ->
  video_inv projects (detectHover projects u w).
Proof.
  intros Hinv Hmicro. unfold detectHover.
  destruct (isZoomed (context w)); [exact Hinv|].
  match goal with |- context [if ?b then _ else _] => destruct b end; [|exact Hinv].
  apply video_inv_call.
  - eapply video_inv_ext; [|exact Hinv]. reflexivity.
  - eapply microtasksDone_ext; [|exact Hmicro]. reflexivity.
Qed.

Lemma video_inv_animate (projects : option (list Project)) (w : World) :
  video_inv projects w -> microtasksDone w -> video_inv projects (animate projects w).
Proof.
  intros Hinv Hmicro. unfold animate.
  destruct (plane (context w)); [|exact Hinv].
  eapply video_inv_ext; [apply video_state_pushUniforms|].
  assert (H1 : video_inv projects (on_context lerpTowardTargets
                                     (on_context integrateOffset w)) /\
               microtasksDone (on_context lerpTowardTargets
                                 (on_context integrateOffset w))).
  { split; [eapply video_inv_ext | eapply microtasksDone_ext];
      try eassumption; reflexivity. }
  revert H1. generalize (on_context lerpTowardTargets (on_context integrateOffset w)).
  intros w1 (Hinv1 & Hmicro1).
  assert (H2 : video_inv projects match plane (context w1) with
                                  | Some uniforms => detectHover projects uniforms w1
                                  | None => w1
                                  end).
  { destruct (plane (context w1)); [now apply video_inv_detectHover | exact Hinv1]. }
  revert H2.
  generalize (match plane (context w1) with
              | Some uniforms => detectHover projects uniforms w1
              | None => w1
              end).
  intros w2 Hinv2.
  destruct (plane (context w2)); [|exact Hinv2].
  eapply video_inv_ext; [apply video_state_dragPan | exact Hinv2].
Qed.

Lemma video_inv_navigateToCell
    (projects : option (list Project)) (cell : Vec2) (init : bool) (w : World) :
  video_inv projects w -> microtasksDone w ->
  video_inv projects (navigateToCell projects cell init w).
Proof.
  intros Hinv Hmicro. unfold navigateToCell.
  destruct (plane (context w)); [|exact Hinv].
  assert (H1 : video_inv projects
                 (setVideoState projects (Some cell)
                    (setZoomedProject (getProjectByCellId (Some cell) projects) w))).
  { apply video_inv_call.
    - eapply video_inv_ext; [|exact Hinv]. reflexivity.
    - eapply microtasksDone_ext; [|exact Hmicro]. reflexivity. }
  revert H1.
  generalize (setVideoState projects (Some cell)
                (setZoomedProject (getProjectByCellId (Some cell) projects) w)).
  intros w2 Hinv2.
  assert (H3 : video_inv projects
                 (if init
                  then on_context (fun c =>
                         set_isZoomed true
                           (set_targetDistortion 0
                              (set_targetZoom AnimationConfig.zoomedInLevel
                                 (set_lastZoom
                                    (targetZoom (set_lastOffset (targetOffset c) c))
                                    (set_lastOffset (targetOffset c) c))))) w2
                  else w2)).
  { destruct init; [|exact Hinv2]. eapply video_inv_ext; [|exact Hinv2]. reflexivity. }
  revert H3.
  generalize (if init
              then on_context (fun c =>
                     set_isZoomed true
                       (set_targetDistortion 0
                          (set_targetZoom AnimationConfig.zoomedInLevel
                             (set_lastZoom
                                (targetZoom (set_lastOffset (targetOffset c) c))
                                (set_lastOffset (targetOffset c) c))))) w2
              else w2).
  intros w3 Hinv3.
  destruct (plane (context w3)); [|exact Hinv3].
  eapply video_inv_ext; [|exact Hinv3]. reflexivity.
Qed.

Lemma video_inv_unzoom (projects : option (list Project)) (w : World) :
  video_inv projects w -> microtasksDone w -> video_inv projects (unzoom projects w).
Proof.
  intros Hinv Hmicro. unfold unzoom.
  match goal with
  | |- video_inv _ (setZoomedProject _ (setVideoState _ _ ?w0)) =>
      assert (H1 : video_inv projects (setVideoState projects None w0));
      [|revert H1; generalize (setVideoState projects None w0)]
  end.
  - apply video_inv_call.
    + eapply video_inv_ext; [|exact Hinv]. reflexivity.
    + eapply microtasksDone_ext; [|exact Hmicro]. reflexivity.
  - intros w1 H1. eapply video_inv_ext; [|exact H1]. reflexivity.
Qed.

Lemma video_inv_onPointerUp
    (projects : option (list Project)) (px py : R) (w w' : World) :
  video_inv projects w -> microtasksDone w ->
  onPointerUp projects px py w = Some w' -> video_inv projects w'.
Proof.
  intros Hinv Hmicro. unfold onPointerUp.
  destruct (plane (context w)) as [u0|]; [|now intros [= <-]].
  destruct (handleInteraction projects _ _ w) as [w1|] eqn:Hh; [|discriminate].
  intros [= <-]. apply (video_inv_ext projects w1); [reflexivity|].
  destruct (handleInteraction_kinds _ _ _ _ _ Hh)
    as [-> | (u & Hp & [(_ & [-> | (cell & ->)]) | (_ & ->)])]; clear Hh.
  - exact Hinv.
  - now apply video_inv_unzoom.
  - now apply video_inv_navigateToCell.
  - now apply video_inv_navigateToCell.
Qed.

Lemma video_inv_step (projects : option (list Project)) (w w' : World) :
  video_inv projects w -> step projects w w' -> video_inv projects w'.
Proof.
  intros Hinv Hstep.
  destruct Hstep as [w w' Hr | w Hm | w px py _ | w w' px py Hm Hup | w px py _
                     | w w' px py Hm Hleave | w dx dy mode iw ih _ | w cs ds _
                     | w cw ch _ | w _ | w _ Hv].
  - eapply video_inv_resume; eassumption.
  - now apply video_inv_animate.
  - unfold onPointerDown. destruct (plane (context w)); [|exact Hinv].
    eapply video_inv_ext; [|exact Hinv]. reflexivity.
  - eapply video_inv_onPointerUp; eassumption.
  - unfold onPointerMove. destruct (plane (context w)); [|exact Hinv].
    eapply video_inv_ext; [|exact Hinv]. reflexivity.
  - unfold onPointerLeave in Hleave. destruct (plane (context w)).
    + destruct (isDragging (context w)).
      * eapply video_inv_onPointerUp; eassumption.
      * now injection Hleave as <-.
    + now injection Hleave as <-.
  - unfold onWheel. destruct (plane (context w)); [|exact Hinv].
    destruct (isZoomed (context w)); [exact Hinv|].
    eapply video_inv_ext; [|exact Hinv].
    destruct mode as [|[|[|mode]]]; reflexivity.
  - eapply video_inv_ext; [|exact Hinv].
    unfold video_state, useUniforms. cbn [context on_context pending].
    destruct (plane (context w)) eqn:Hp; unfold on_plane; rewrite Hp; reflexivity.
  - eapply video_inv_ext; [|exact Hinv].
    unfold video_state, onResize. cbn [context on_context pending].
    destruct (plane (context w)) eqn:Hp; unfold on_plane; rewrite Hp; reflexivity.
  - unfold texturesReady. destruct projects as [[|p ps]|]; try exact Hinv.
    eapply video_inv_ext; [|exact Hinv].
    unfold video_state. cbn [context on_context pending].
    destruct (plane (context w)) eqn:Hp; unfold on_plane; rewrite Hp; reflexivity.
  - destruct Hinv as (Hp & Hwf & Hrest). rewrite Hv in Hrest.
    destruct Hrest as (Hpend & Hact).
    unfold video_inv, createVideo, nonces_wf, race_inv, isActive, hoveredUniform in *.
    cbn [context on_context pending plane videoRef set_videoRef videoNonce].
    rewrite Hpend. split; [exact Hp|]. split; [constructor|].
    exists None. split; [reflexivity|]. split; [reflexivity|]. split; [exact Hp|].
    split; [constructor|]. split; [intros H; congruence|].
    right. split; [constructor | exact Hact].
Qed.

Lemma reachable_video_inv (projects : option (list Project)) (w : World) :
  reachable projects w -> video_inv projects w.
Proof.
  induction 1 as [|w w' _ IH Hstep].
  - unfold video_inv, nonces_wf. cbn. repeat split; try discriminate. constructor.
  - eapply video_inv_step; eassumption.
Qed.

(** X13.  In every state the grid reaches, whatever the order in which frames,
    gestures and the settling of [load()] and [play()] interleave: no
    suspended call holds a nonce above [videoNonce], and whenever
    [uIsVideoActive] is true, [uHoveredCellId] is a cell whose project has a
    video and that video is the source of the video element. *)
Theorem active_video_is_of_hovered_cell (projects : option (list Project)) (w : World) :
  reachable projects w ->
  nonces_wf w /\
  (isActive w = true ->
   exists c p s,
     hoveredUniform w = Some c /\
     getProjectByCellId (Some c) projects = Found p /\
     video p = Some s /\
     videoSrc w = Some s).
Proof.
  intros Hreach.
  destruct (reachable_video_inv projects w Hreach) as (_ & Hwf & Hrest).
  split; [exact Hwf|]. intros Hon.
  destruct (videoRef (context w)) as [v|].
  - destruct Hrest as (cellB & Hrace).
    pose proof (race_inv_active _ _ _ _ _ Hrace Hon) as Hhov.
    destruct Hrace as (_ & _ & _ & _ & Hact & _).
    destruct (Hact Hon) as (c & p & s & HB & Hp & Hv & Hs).
    exists c, p, s. rewrite Hhov, HB in *. repeat split; assumption.
  - destruct Hrest as (_ & Hoff). congruence.
Qed.

Lemma active_video_is_of_hovered_cell_witness :
  reachable (Some DEFAULT_PROJECTS) tapLoaded /\
  pending tapLoaded = [requestA AwaitPlay] /\
  nonces_wf tapLoaded /\
  reachable (Some DEFAULT_PROJECTS) tapPlaying /\
  isActive tapPlaying = true /\
  exists p,
    hoveredUniform tapPlaying = Some cell00 /\
    getProjectByCellId (Some cell00) (Some DEFAULT_PROJECTS) = Found p /\
    video p = Some sintel /\
    videoSrc tapPlaying = Some sintel.
Proof.
  destruct tapLoaded_fields as (_ & _ & _ & Hpend).
  destruct tapPlaying_fields as (Hp & Hv & _).
  destruct (active_video_is_of_hovered_cell (Some DEFAULT_PROJECTS) tapLoaded
              tapLoaded_reachable) as (Hwf & _).
  destruct (active_video_is_of_hovered_cell (Some DEFAULT_PROJECTS) tapPlaying
              tapPlaying_reachable) as (_ & Hactive).
  assert (Hon : isActive tapPlaying = true) by (unfold isActive; now rewrite Hp).
  assert (Hhov : hoveredUniform tapPlaying = Some cell00)
    by (unfold hoveredUniform; now rewrite Hp).
  assert (Hsrc : videoSrc tapPlaying = Some sintel)
    by (unfold videoSrc; now rewrite Hv).
  destruct (Hactive Hon) as (c & p & s & Hc & Hproj & Hvid & Hs).
  assert (Ec : c = cell00) by congruence.
  assert (Es : s = sintel) by congruence.
  subst c s.
  split; [exact tapLoaded_reachable|]. split; [exact Hpend|]. split; [exact Hwf|].
  split; [exact tapPlaying_reachable|]. split; [exact Hon|].
  exists p. repeat split; assumption.
Defined.

(** ** A frame while zoomed *)

(** X14.  While zoomed, a frame neither pans (even during a drag) nor looks at
    the hovered cell nor calls [setVideoState], and a wheel event does
    nothing: the camera target moves only by a tap or a swipe. *)
Theorem zoomed_frame_is_quiet
    (projects : option (list Project)) (w : World)
    (deltaX deltaY innerWidth innerHeight : R) (deltaMode : nat) :
  isZoomed (context w) = true ->
  let w' := animate projects w in
  targetOffset (context w') = targetOffset (context w) /\
  previousMouse (context w') = previousMouse (context w) /\
  hoveredCellId (context w') = hoveredCellId (context w) /\
  video_state w' = video_state w /\
  zoomedProject w' = zoomedProject w /\
  onWheel deltaX deltaY deltaMode innerWidth innerHeight w = w.
Proof.
  intros Hz. cbv zeta.
  assert (Hwheel : onWheel deltaX deltaY deltaMode innerWidth innerHeight w = w).
  { unfold onWheel. rewrite Hz. now destruct (plane (context w)). }
  destruct w as [c zp cur pend warn].
  destruct c as [[u|] vr drag zoomed pm cs off toff vel mp tmp z tz dist tdist zprog
                 loff lz nonce hov zc]; cbn in Hz; subst zoomed.
  - destruct drag; repeat split; exact Hwheel.
  - repeat split; exact Hwheel.
Qed.

Lemma zoomed_frame_is_quiet_witness :
  let w := onPointerDown 10 10
             (navigateToCell (Some DEFAULT_PROJECTS) (vec2 2 3) true initialWorld) in
  isZoomed (context w) = true /\
  isDragging (context w) = true /\
  targetOffset (context (animate (Some DEFAULT_PROJECTS) w)) = targetOffset (context w).
Proof.
  cbv zeta. split; [reflexivity|]. split; [reflexivity|].
  destruct (zoomed_frame_is_quiet (Some DEFAULT_PROJECTS)
              (onPointerDown 10 10
                 (navigateToCell (Some DEFAULT_PROJECTS) (vec2 2 3) true initialWorld))
              0 120 800 600 0 eq_refl) as (Hto & _).
  exact Hto.
Defined.

(** ** The texture atlas *)

(** [Math.ceil(Math.sqrt(n))] is the integer square root rounded up: the side
    of the smallest square grid with at least [n] places. *)
Lemma ceil_sqrt (n : nat) : Zceil (sqrt (INR n)) = Z.sqrt_up (Z.of_nat n).
Proof.
  destruct n as [|n].
  - cbn [INR]. rewrite sqrt_0. change 0 with (IZR 0). unfold Zceil.
    rewrite <- opp_IZR, ZfloorZ. reflexivity.
  - set (m := Z.of_nat (S n)). assert (Hm : (0 < m)%Z) by (subst m; lia).
    pose proof (Z.sqrt_up_spec m Hm) as (Hlo & Hhi).
    pose proof (proj2 (Z.sqrt_up_pos m) Hm) as Hg.
    rewrite INR_IZR_INZ. fold m. set (g := Z.sqrt_up m) in *.
    apply Zceil_eq. split.
    + replace (IZR g - 1) with (sqrt (IZR (Z.pred g) * IZR (Z.pred g))).
      * apply sqrt_lt_1.
        -- apply Rmult_le_pos; apply IZR_le; lia.
        -- apply IZR_le; lia.
        -- rewrite <- mult_IZR. now apply IZR_lt.
      * rewrite sqrt_square by (apply IZR_le; lia).
        unfold Z.pred. rewrite plus_IZR. lra.
    + apply Rle_trans with (sqrt (IZR g * IZR g)).
      * apply sqrt_le_1.
        -- apply IZR_le; lia.
        -- apply Rmult_le_pos; apply IZR_le; lia.
        -- rewrite <- mult_IZR. now apply IZR_le.
      * rewrite sqrt_square by (apply IZR_le; lia). lra.
Qed.

(** [Math.floor(a / b)] on integers is the floored division. *)
Lemma Zfloor_div (a b : Z) : (0 < b)%Z -> Zfloor (IZR a / IZR b) = (a / b)%Z.
Proof.
  intros Hb. apply Zfloor_eq.
  pose proof (Z.div_mod a b ltac:(lia)) as Hdm.
  pose proof (Z.mod_pos_bound a b Hb) as (Hr0 & Hr1).
  apply IZR_le in Hr0. apply IZR_lt in Hr1. apply IZR_lt in Hb as Hb'.
  assert (Ha : IZR a = IZR b * IZR (a / b) + IZR (a mod b)).
  { rewrite <- mult_IZR, <- plus_IZR. now f_equal. }
  assert (Hx : IZR a / IZR b * IZR b = IZR a) by (field; lra).
  generalize dependent (IZR a / IZR b). intros x Hx.
  generalize dependent (IZR (a / b)). generalize dependent (IZR (a mod b)).
  intros r Hr0 Hr1 q Ha. split; nra.
Qed.

Lemma forEach_In {A B : Type} (callback : A -> nat -> list B) (index : nat)
    (array : list A) (b : B) :
  In b (TextureUtils.forEach callback index array) <->
  exists i a, nth_error array i = Some a /\ In b (callback a (index + i)%nat).
Proof.
  revert index. induction array as [|a0 rest IH]; intros index; cbn.
  - split; [easy|]. intros (i & a & Hn & _). now destruct i.
  - rewrite in_app_iff, IH. split.
    + intros [H | (i & a & Hn & Hb)].
      * exists 0%nat, a0. rewrite Nat.add_0_r. now split.
      * exists (S i), a. split; [exact Hn|]. now rewrite Nat.add_succ_r.
    + intros (i & a & Hn & Hb). destruct i as [|i].
      * cbn in Hn. injection Hn as ->. rewrite Nat.add_0_r in Hb. now left.
      * right. exists i, a. split; [exact Hn|]. now rewrite Nat.add_succ_r in Hb.
Qed.

Lemma drawnIndices_In {Image : Type} (index : nat) (textures : list (option Image))
    (i : nat) :
  In i (drawnIndices index textures) ->
  (index <= i < index + List.length textures)%nat.
Proof.
  unfold drawnIndices. rewrite forEach_In. intros (k & t & Hn & Hi).
  assert (Hk : (k < List.length textures)%nat) by (apply nth_error_Some; congruence).
  destruct t; cbn in Hi; [|easy]. destruct Hi as [<-|[]]. lia.
Qed.

Lemma drawnIndices_NoDup {Image : Type} (index : nat) (textures : list (option Image)) :
  NoDup (drawnIndices index textures).
Proof.
  revert index. induction textures as [|t rest IH]; intros index; [constructor|].
  unfold drawnIndices in *. cbn. destruct t; cbn; [|apply IH].
  constructor; [|apply IH]. intros Hin. apply (drawnIndices_In (S index) rest) in Hin. lia.
Qed.

Lemma tileCorner_inj (g size : Z) (i j : nat) :
  (0 < g)%Z -> (0 < size)%Z -> tileCorner g size i = tileCorner g size j -> i = j.
Proof.
  intros Hg Hs. unfold tileCorner. intros [= Hx Hy].
  apply Z.mul_cancel_r in Hx; [|lia]. apply Z.mul_cancel_r in Hy; [|lia].
  pose proof (Z.div_mod (Z.of_nat i) g ltac:(lia)).
  pose proof (Z.div_mod (Z.of_nat j) g ltac:(lia)). nia.
Qed.

Lemma textureSize_values (isText : bool) :
  (if isText then StyleConfig.textTextureHeight else StyleConfig.imageAtlasTextureSize)
  = if isText then 256%Z else 512%Z.
Proof. now destruct isText. Qed.

(** With a 2D context, the draw calls are those of the textures that have an
    image, each on the tile of its index. *)
Lemma drawn_createTextureAtlas {Image : Type}
    (ctx : TextureUtils.CanvasRenderingContext2D) (textures : list (option Image))
    (isText : bool) (d : TextureUtils.DrawCall Image) :
  let g := Z.sqrt_up (Z.of_nat (List.length textures)) in
  let size := if isText then 256%Z else 512%Z in
  In d (TextureUtils.drawn (TextureUtils.createTextureAtlas (Some ctx) textures isText))
  <-> exists i img,
        nth_error textures i = Some (Some img) /\
        d = TextureUtils.mkDrawCall img (Z.of_nat i mod g * size) (Z.of_nat i / g * size)
              size size.
Proof.
  cbv zeta. unfold TextureUtils.createTextureAtlas. cbv zeta.
  cbn [TextureUtils.drawn]. rewrite ceil_sqrt, textureSize_values, forEach_In.
  set (g := Z.sqrt_up (Z.of_nat (List.length textures))).
  assert (Hg : forall i t, nth_error textures i = Some t -> (0 < g)%Z).
  { intros i t Hn. subst g. apply Z.sqrt_up_pos.
    assert (i < List.length textures)%nat by (apply nth_error_Some; congruence). lia. }
  split.
  - intros (i & t & Hn & Hd). destruct t as [img|]; [|easy].
    destruct Hd as [<-|[]]. exists i, img. split; [exact Hn|].
    cbn [Nat.add]. rewrite Z.rem_mod_nonneg by (try lia; eapply Hg; eassumption).
    rewrite INR_IZR_INZ, Zfloor_div by (eapply Hg; eassumption). reflexivity.
  - intros (i & img & Hn & ->). exists i, (Some img). split; [exact Hn|].
    cbn [Nat.add]. rewrite Z.rem_mod_nonneg by (try lia; eapply Hg; eassumption).
    rewrite INR_IZR_INZ, Zfloor_div by (eapply Hg; eassumption). now left.
Qed.

(** The corners of the draw calls are the tile corners of the drawn
    indices. *)
Lemma corners_createTextureAtlas {Image : Type}
    (ctx : TextureUtils.CanvasRenderingContext2D) (textures : list (option Image))
    (isText : bool) :
  textures <> [] ->
  let g := Z.sqrt_up (Z.of_nat (List.length textures)) in
  let size := if isText then 256%Z else 512%Z in
  map corner
    (TextureUtils.drawn (TextureUtils.createTextureAtlas (Some ctx) textures isText))
  = map (tileCorner g size) (drawnIndices 0 textures).
Proof.
  intros Hne. cbv zeta. unfold TextureUtils.createTextureAtlas, drawnIndices. cbv zeta.
  cbn [TextureUtils.drawn]. rewrite ceil_sqrt, textureSize_values.
  assert (Hg : (0 < Z.sqrt_up (Z.of_nat (List.length textures)))%Z).
  { apply Z.sqrt_up_pos. destruct textures; [easy | cbn [List.length]; lia]. }
  revert Hg. generalize (Z.sqrt_up (Z.of_nat (List.length textures))). intros g Hg.
  generalize (if isText then 256%Z else 512%Z). intros size.
  generalize 0%nat. clear Hne.
  induction textures as [|t rest IH]; intros index; [reflexivity|].
  cbn [TextureUtils.forEach]. rewrite !map_app, IH. f_equal.
  destruct t; [|reflexivity]. cbn. unfold corner, tileCorner. cbn.
  rewrite Z.rem_mod_nonneg by lia.
  rewrite INR_IZR_INZ, Zfloor_div by exact Hg. reflexivity.
Qed.

(** X15.  The atlas is a square of [g * g] tiles, [g] the least number with
    [g * g >= textures.length].  With a 2D context every texture that has an
    image is drawn, texture [i] on the tile of column [i mod g] and row
    [i / g]; without one ([getContext] gives [null]) the canvas has that
    size and nothing is drawn.  In both cases every draw call lies inside the
    canvas and no two draw calls share a tile. *)
Theorem createTextureAtlas_layout {Image : Type}
    (getContext : option TextureUtils.CanvasRenderingContext2D)
    (textures : list (option Image)) (isText : bool) :
  let canvas := TextureUtils.createTextureAtlas getContext textures isText in
  let n := Z.of_nat (List.length textures) in
  let g := Z.sqrt_up n in
  let size := if isText then 256%Z else 512%Z in
  ((n <= g * g)%Z /\ forall g', (0 <= g')%Z -> (n <= g' * g')%Z -> (g <= g')%Z) /\
  TextureUtils.width canvas = (g * size)%Z /\
  TextureUtils.height canvas = (g * size)%Z /\
  (forall ctx, getContext = Some ctx ->
     forall i img,
       nth_error textures i = Some (Some img) ->
       In (TextureUtils.mkDrawCall img (Z.of_nat i mod g * size) (Z.of_nat i / g * size)
             size size)
          (TextureUtils.drawn canvas)) /\
  (getContext = None -> TextureUtils.drawn canvas = []) /\
  (forall d,
     In d (TextureUtils.drawn canvas) ->
     (0 <= TextureUtils.dx d /\
      TextureUtils.dx d + TextureUtils.dWidth d <= TextureUtils.width canvas /\
      0 <= TextureUtils.dy d /\
      TextureUtils.dy d + TextureUtils.dHeight d <= TextureUtils.height canvas)%Z) /\
  NoDup (map corner (TextureUtils.drawn canvas)).
Proof.
  cbv zeta.
  set (n := Z.of_nat (List.length textures)).
  set (g := Z.sqrt_up n).
  assert (Hsq : (n <= g * g)%Z).
  { destruct (Z.eq_dec n 0) as [H0|H0].
    - subst g. rewrite H0, Z.sqrt_up_0. lia.
    - apply (Z.sqrt_up_spec n). subst n. lia. }
  assert (Hmin : forall g', (0 <= g')%Z -> (n <= g' * g')%Z -> (g <= g')%Z).
  { intros g' Hg' Hn. subst g. apply Z.sqrt_up_le_square; [subst n; lia | lia | exact Hn]. }
  split; [split; [exact Hsq | exact Hmin]|].
  assert (Hspos : (0 < (if isText then 256 else 512))%Z) by (destruct isText; lia).
  assert (Hw : TextureUtils.width (TextureUtils.createTextureAtlas getContext textures isText)
               = (g * (if isText then 256 else 512))%Z /\
               TextureUtils.height
                 (TextureUtils.createTextureAtlas getContext textures isText)
               = (g * (if isText then 256 else 512))%Z).
  { unfold TextureUtils.createTextureAtlas. cbv zeta.
    destruct getContext; cbn [TextureUtils.width TextureUtils.height];
      rewrite ceil_sqrt, textureSize_values; now split. }
  destruct Hw as (Hwidth & Hheight). rewrite Hwidth, Hheight.
  split; [reflexivity|]. split; [reflexivity|].
  destruct getContext as [ctx|].
  - split; [|split; [discriminate|split]].
    + intros ctx' _ i img Hn.
      apply (drawn_createTextureAtlas ctx textures isText). now exists i, img.
    + intros d Hd. apply (drawn_createTextureAtlas ctx textures isText) in Hd.
      cbv zeta in Hd. fold n in Hd. fold g in Hd.
      destruct Hd as (i & img & Hn & ->).
      cbn [TextureUtils.dx TextureUtils.dy TextureUtils.dWidth TextureUtils.dHeight].
      assert (Hi : (i < List.length textures)%nat) by (apply nth_error_Some; congruence).
      assert (Hg : (0 < g)%Z) by (subst g; apply Z.sqrt_up_pos; subst n; lia).
      pose proof (Z.mod_pos_bound (Z.of_nat i) g Hg) as Hmod.
      assert (Hdiv : (0 <= Z.of_nat i / g < g)%Z).
      { split; [apply Z.div_pos; lia|]. apply Z.div_lt_upper_bound; [lia|]. subst n. lia. }
      revert Hspos. generalize (if isText then 256%Z else 512%Z). intros size Hspos.
      nia.
    + destruct textures as [|t rest] eqn:Etex; [constructor|].
      assert (Hne : textures <> []) by (rewrite Etex; discriminate).
      pose proof (corners_createTextureAtlas ctx textures isText Hne) as Hcorners.
      cbv zeta in Hcorners. rewrite Etex in Hcorners. fold n in Hcorners.
      fold g in Hcorners. rewrite Hcorners.
      apply NoDup_map_NoDup_ForallPairs; [|apply drawnIndices_NoDup].
      intros i j _ _. apply tileCorner_inj; [|exact Hspos].
      subst g. apply Z.sqrt_up_pos. subst n. cbn [List.length]. lia.
  - unfold TextureUtils.createTextureAtlas. cbv zeta. cbn [TextureUtils.drawn].
    split; [discriminate|]. split; [reflexivity|]. split; [intros d []|constructor].
Qed.

Lemma createTextureAtlas_layout_witness :
  let textures := [Some 7%nat; None; Some 9%nat; Some 4%nat; Some 1%nat] in
  let canvas :=
    TextureUtils.createTextureAtlas (Some TextureUtils.context2d) textures false in
  TextureUtils.width canvas = 1536%Z /\
  In (TextureUtils.mkDrawCall 1%nat 512 512 512 512) (TextureUtils.drawn canvas) /\
  In (TextureUtils.mkDrawCall 9%nat 1024 0 512 512) (TextureUtils.drawn canvas) /\
  TextureUtils.drawn
    (TextureUtils.createTextureAtlas None
       [Some 7%nat; None; Some 9%nat; Some 4%nat; Some 1%nat] false) = [].
Proof.
  cbv zeta.
  destruct (createTextureAtlas_layout (Some TextureUtils.context2d)
              [Some 7%nat; None; Some 9%nat; Some 4%nat; Some 1%nat] false)
    as (_ & Hw & _ & Hdrawn & _).
  destruct (createTextureAtlas_layout None
              [Some 7%nat; None; Some 9%nat; Some 4%nat; Some 1%nat] false)
    as (_ & _ & _ & _ & Hnone & _).
  split; [exact Hw|]. split; [|split].
  - exact (Hdrawn _ eq_refl 4%nat 1%nat eq_refl).
  - exact (Hdrawn _ eq_refl 2%nat 9%nat eq_refl).
  - exact (Hnone eq_refl).
Defined.

(** ** The tile the shader samples *)

Lemma shader_ceil (v : R) : Shader.ceil v = IZR (Zceil v).
Proof. unfold Shader.ceil, floor, Zceil. now rewrite opp_IZR. Qed.

(** GLSL's [mod] on integral values, with a positive modulus, is the floored
    remainder. *)
Lemma shader_mod (f n : Z) : (0 < n)%Z -> Shader.mod_ (IZR f) (IZR n) = IZR (f mod n).
Proof.
  intros Hn. unfold Shader.mod_, floor. rewrite Zfloor_div by exact Hn.
  rewrite Z.mod_eq by lia. rewrite minus_IZR, mult_IZR. reflexivity.
Qed.

Lemma atlasUV_tile (U : Shader.uniforms) (n : nat) (cellId uv : Vec2) :
  (0 < n)%nat -> Shader.uTextureCount U = INR n ->
  let i := ((Zfloor (Vector2.x cellId) + Zfloor (Vector2.y cellId) * 3)
            mod Z.of_nat n)%Z in
  let g := Z.sqrt_up (Z.of_nat n) in
  Shader.atlasUV U cellId uv
  = vec2 ((IZR (i mod g) + Vector2.x uv) / IZR g)
         ((IZR (i / g) + Vector2.y uv) / IZR g).
Proof.
  intros Hn HU. cbv zeta. unfold Shader.atlasUV. cbv zeta. rewrite HU.
  rewrite shader_ceil, ceil_sqrt, INR_IZR_INZ.
  assert (Hg : (0 < Z.sqrt_up (Z.of_nat n))%Z) by (apply Z.sqrt_up_pos; lia).
  unfold floor.
  replace (IZR (Zfloor (Vector2.x cellId)) + IZR (Zfloor (Vector2.y cellId)) * 3)
    with (IZR (Zfloor (Vector2.x cellId) + Zfloor (Vector2.y cellId) * 3))
    by (rewrite plus_IZR, mult_IZR; reflexivity).
  rewrite (shader_mod _ (Z.of_nat n)) by lia.
  rewrite (shader_mod _ (Z.sqrt_up (Z.of_nat n))) by exact Hg.
  rewrite Zfloor_div by exact Hg. reflexivity.
Qed.

(** X16.  For a non-empty project list and [uTextureCount] set to its length
    (as useTextureManager sets it), the tile the shader addresses for a cell
    is tile [i] of the atlas grid, column [i mod g] and row [i / g] with [g =
    ceil(sqrt(N))], where [i] is the index of the very project that
    [getProjectByCellId] returns for the cell; and a coordinate inside the
    unit square stays inside that tile and inside the texture. *)
Theorem shader_tile_is_lookup_index
    (U : Shader.uniforms) (projects : list Project) (cellId uv : Vec2) :
  projects <> [] ->
  Shader.uTextureCount U = INR (List.length projects) ->
  let N := Z.of_nat (List.length projects) in
  let i := ((Zfloor (Vector2.x cellId) + Zfloor (Vector2.y cellId) * 3) mod N)%Z in
  let g := Z.sqrt_up N in
  let column := (i mod g)%Z in
  let row := (i / g)%Z in
  (exists p, getProjectByCellId (Some cellId) (Some projects) = Found p /\
             nth_error projects (Z.to_nat i) = Some p) /\
  (0 <= column < g)%Z /\ (0 <= row < g)%Z /\
  Shader.atlasUV U cellId uv
  = vec2 ((IZR column + Vector2.x uv) / IZR g) ((IZR row + Vector2.y uv) / IZR g) /\
  (0 <= Vector2.x uv < 1 -> 0 <= Vector2.y uv < 1 ->
   let t := Shader.atlasUV U cellId uv in
   IZR column / IZR g <= Vector2.x t < (IZR column + 1) / IZR g /\
   IZR row / IZR g <= Vector2.y t < (IZR row + 1) / IZR g /\
   0 <= Vector2.x t < 1 /\ 0 <= Vector2.y t < 1).
Proof.
  intros Hne HU. cbv zeta.
  destruct (getProjectByCellId_index cellId projects Hne) as (Hi & p & Hnth & Hp).
  cbv zeta in Hi.
  set (N := Z.of_nat (List.length projects)) in *.
  set (i := ((Zfloor (Vector2.x cellId) + Zfloor (Vector2.y cellId) * 3) mod N)%Z) in *.
  assert (HN : (0 < List.length projects)%nat).
  { destruct projects; [easy | cbn [List.length]; lia]. }
  assert (Hg : (0 < Z.sqrt_up N)%Z) by (apply Z.sqrt_up_pos; subst N; lia).
  assert (Hsq : (N <= Z.sqrt_up N * Z.sqrt_up N)%Z)
    by (apply (Z.sqrt_up_spec N); subst N; lia).
  pose proof (Z.mod_pos_bound i (Z.sqrt_up N) Hg) as Hcol.
  assert (Hrow : (0 <= i / Z.sqrt_up N < Z.sqrt_up N)%Z).
  { split; [apply Z.div_pos; lia|]. apply Z.div_lt_upper_bound; lia. }
  split; [exists p; now split|]. split; [exact Hcol|]. split; [exact Hrow|].
  pose proof (atlasUV_tile U (List.length projects) cellId uv HN HU) as Huv.
  cbv zeta in Huv. fold N in Huv. fold i in Huv.
  split; [exact Huv|]. intros Hx Hy. rewrite Huv. cbn [Vector2.x Vector2.y].
  apply IZR_lt in Hg.
  destruct Hcol as (Hc0 & Hc1). destruct Hrow as (Hr0 & Hr1).
  apply IZR_le in Hc0, Hr0.
  assert (Hc1' : IZR (i mod Z.sqrt_up N) + 1 <= IZR (Z.sqrt_up N)).
  { rewrite <- (plus_IZR _ 1). apply IZR_le. lia. }
  assert (Hr1' : IZR (i / Z.sqrt_up N) + 1 <= IZR (Z.sqrt_up N)).
  { rewrite <- (plus_IZR _ 1). apply IZR_le. lia. }
  generalize dependent (IZR (i mod Z.sqrt_up N)).
  generalize dependent (IZR (i / Z.sqrt_up N)).
  generalize dependent (IZR (Z.sqrt_up N)).
  intros G HG r Hr0 Hr1' c Hc0 Hc1'.
  assert (HG' : 0 < / G) by now apply Rinv_0_lt_compat.
  unfold Rdiv.
  repeat split.
  - apply Rmult_le_compat_r; lra.
  - apply Rmult_lt_compat_r; lra.
  - apply Rmult_le_compat_r; lra.
  - apply Rmult_lt_compat_r; lra.
  - apply Rmult_le_pos; lra.
  - apply Rmult_lt_reg_r with G; [lra|]. rewrite Rmult_assoc, Rinv_l by lra. lra.
  - apply Rmult_le_pos; lra.
  - apply Rmult_lt_reg_r with G; [lra|]. rewrite Rmult_assoc, Rinv_l by lra. lra.
Qed.

Lemma shader_tile_is_lookup_index_witness :
  let U := bindUniforms initialContext
             (set_uTextureCount (INR (List.length DEFAULT_PROJECTS)) initialUniforms)
             (Shader.mk4 black 1) (Shader.mk4 black 1) (Shader.mk4 white 1)
             blackTexture blackTexture blackTexture false in
  DEFAULT_PROJECTS <> [] /\
  Shader.atlasUV U (vec2 (IZR (-1)) (IZR 0)) (vec2 (1 / 2) (1 / 2))
  = vec2 ((2 + 1 / 2) / 3) ((2 + 1 / 2) / 3).
Proof.
  cbv zeta.
  assert (Hne : DEFAULT_PROJECTS <> []) by discriminate.
  split; [exact Hne|].
  destruct (shader_tile_is_lookup_index
              (bindUniforms initialContext
                 (set_uTextureCount (INR (List.length DEFAULT_PROJECTS)) initialUniforms)
                 (Shader.mk4 black 1) (Shader.mk4 black 1) (Shader.mk4 white 1)
                 blackTexture blackTexture blackTexture false)
              DEFAULT_PROJECTS (vec2 (IZR (-1)) (IZR 0)) (vec2 (1 / 2) (1 / 2))
              Hne eq_refl) as (_ & _ & _ & Huv & _).
  rewrite Huv. cbn [Vector2.x Vector2.y]. rewrite !ZfloorZ.
  replace (List.length DEFAULT_PROJECTS) with 9%nat by reflexivity.
  replace (((-1 + 0 * 3) mod Z.of_nat 9) mod Z.sqrt_up (Z.of_nat 9))%Z with 2%Z
    by reflexivity.
  replace (((-1 + 0 * 3) mod Z.of_nat 9) / Z.sqrt_up (Z.of_nat 9))%Z with 2%Z
    by reflexivity.
  replace (Z.sqrt_up (Z.of_nat 9)) with 3%Z by reflexivity.
  reflexivity.
Defined.

(** ** The layout of a cell *)

Lemma smoothstep_range (edge0 edge1 v : R) : 0 <= Shader.smoothstep edge0 edge1 v <= 1.
Proof.
  unfold Shader.smoothstep, Shader.clamp.
  set (q := (v - edge0) / (edge1 - edge0)).
  assert (Ht : 0 <= Rmin (Rmax q 0) 1 <= 1).
  { split.
    - apply Rmin_glb; [apply Rmax_r | lra].
    - apply Rmin_r. }
  generalize dependent (Rmin (Rmax q 0) 1). intros t Ht. cbv zeta. split.
  - apply Rmult_le_pos; [apply Rmult_le_pos|]; lra.
  - assert (H : 0 <= (1 - t) * (1 - t) * (1 + 2 * t))
      by (apply Rmult_le_pos; [apply Rmult_le_pos|]; lra).
    lra.
Qed.

Lemma smoothstep_below (edge0 edge1 v : R) :
  (v - edge0) / (edge1 - edge0) <= 0 -> Shader.smoothstep edge0 edge1 v = 0.
Proof.
  intros H. unfold Shader.smoothstep, Shader.clamp.
  rewrite Rmax_right by lra. rewrite Rmin_left by lra. ring.
Qed.

(** X17.  The image and the title of a cell never overlap: below 0.185 of the
    cell's height [drawImage] leaves the colour as it is, whatever the hover
    scale, and from 0.13 upward [drawText] does; so at every point of a cell
    at most one of the two draws. The hover intensity is the square of a
    [smoothstep], as [getSceneColor] computes it. *)
Theorem image_and_text_do_not_overlap
    (U : Shader.uniforms) (color color' : Shader.vec3) (cellUV cellId : Vec2)
    (effectIntensity edge0 edge1 distToMouseHover : R) :
  let s := Shader.smoothstep edge0 edge1 distToMouseHover in
  let hoverIntensity := s * s in
  (Vector2.y cellUV <= 185 / 1000 ->
   Shader.drawImage U color cellUV cellId hoverIntensity effectIntensity = color) /\
  (13 / 100 <= Vector2.y cellUV ->
   Shader.drawText U color' cellUV cellId hoverIntensity = color') /\
  (Shader.drawImage U color cellUV cellId hoverIntensity effectIntensity = color \/
   Shader.drawText U color' cellUV cellId hoverIntensity = color').
Proof.
  cbv zeta.
  pose proof (smoothstep_range edge0 edge1 distToMouseHover) as Hs.
  generalize dependent (Shader.smoothstep edge0 edge1 distToMouseHover). intros s Hs.
  assert (Himage : Vector2.y cellUV <= 185 / 1000 ->
            Shader.drawImage U color cellUV cellId (s * s) effectIntensity = color).
  { intros Hy. unfold Shader.drawImage. cbv zeta. cbn [Vector2.x Vector2.y].
    unfold Shader.IMAGE_SIZE.
    assert (Hh : 1 <= 1 + s * s * (5 / 100) <= 105 / 100) by nra.
    generalize dependent (1 + s * s * (5 / 100)). intros h Hh.
    assert (Hq : (Vector2.y cellUV - (1 - 6 / 10 * h) * (1 / 2)) / (6 / 10 * h) <= 0).
    { unfold Rdiv at 1.
      assert (0 < / (6 / 10 * h)) by (apply Rinv_0_lt_compat; lra).
      assert (Vector2.y cellUV - (1 - 6 / 10 * h) * (1 / 2) <= 0) by lra.
      nra. }
    rewrite (smoothstep_below 0 (1 / 100)
               ((Vector2.y cellUV - (1 - 6 / 10 * h) * (1 / 2)) / (6 / 10 * h))).
    - rewrite Rmult_0_r, Rmult_0_l.
      replace (Rgtb 0 0) with false; [reflexivity|].
      unfold Rgtb, Rltb. destruct (Rlt_dec 0 0); [lra | reflexivity].
    - unfold Rdiv at 1. rewrite Rminus_0_r.
      assert (0 < / (1 / 100 - 0)) by (apply Rinv_0_lt_compat; lra). nra. }
  assert (Htext : 13 / 100 <= Vector2.y cellUV ->
            Shader.drawText U color' cellUV cellId (s * s) = color').
  { intros Hy. unfold Shader.drawText, Shader.TEXT_HEIGHT.
    replace (Rltb (Vector2.y cellUV) (5 / 100 + 8 / 100)) with false.
    - now rewrite Bool.andb_false_r.
    - unfold Rltb. destruct (Rlt_dec _ _); [lra | reflexivity]. }
  split; [exact Himage|]. split; [exact Htext|].
  destruct (Rle_or_lt (Vector2.y cellUV) (185 / 1000)) as [H|H].
  - left. now apply Himage.
  - right. apply Htext. lra.
Qed.

(** ** The texture count *)

Lemma textureCount_same_camera (w w' : World) :
  same_camera (context w) (context w') -> textureCount w' = textureCount w.
Proof.
  unfold same_camera, textureCount. intros H.
  repeat match goal with
  | H : _ /\ _ |- _ => destruct H
  end.
  unfold same_plane, same_scalar_uniforms in *.
  destruct (plane (context w)), (plane (context w')); try easy.
  repeat match goal with
  | H : _ /\ _ |- _ => destruct H
  end.
  cbn. congruence.
Qed.

Lemma textureCount_on_context (f : ThreeContext -> ThreeContext) (w : World) :
  plane (f (context w)) = plane (context w) ->
  textureCount (on_context f w) = textureCount w.
Proof. unfold textureCount. cbn [context on_context]. now intros ->. Qed.

Lemma textureCount_on_plane (f : Uniforms -> Uniforms) (w : World) :
  (forall u, uTextureCount (f u) = uTextureCount u) ->
  textureCount (on_context (on_plane f) w) = textureCount w.
Proof.
  intros Hf. unfold textureCount, on_plane. cbn [context on_context plane set_plane].
  destruct (plane (context w)); cbn; [now rewrite Hf | reflexivity].
Qed.

Lemma textureCount_setVideoState
    (projects : option (list Project)) (cell : option Vec2) (w : World) :
  textureCount (setVideoState projects cell w) = textureCount w.
Proof. apply textureCount_same_camera, setVideoState_camera. Qed.

Lemma textureCount_animate (projects : option (list Project)) (w : World) :
  textureCount (animate projects w) = textureCount w.
Proof.
  unfold animate. destruct (plane (context w)); [|reflexivity].
  unfold pushUniforms at 1.
  match goal with
  | |- textureCount (on_context (fun c => on_plane (@?f c) c) ?w3) = _ =>
      assert (H4 : textureCount (on_context (fun c => on_plane (f c) c) w3)
                   = textureCount w3)
  end.
  { match goal with |- textureCount (on_context _ ?w3) = _ => generalize w3 end.
    intros w3. unfold textureCount, on_plane. cbn [context on_context plane set_plane].
    destruct (plane (context w3)); reflexivity. }
  rewrite H4. clear H4.
  assert (H1 : textureCount (on_context lerpTowardTargets (on_context integrateOffset w))
               = textureCount w) by reflexivity.
  revert H1. generalize (on_context lerpTowardTargets (on_context integrateOffset w)).
  intros w1 H1. rewrite <- H1. clear H1.
  assert (H2 : textureCount match plane (context w1) with
                            | Some uniforms => detectHover projects uniforms w1
                            | None => w1
                            end = textureCount w1).
  { destruct (plane (context w1)); [|reflexivity].
    unfold detectHover. destruct (isZoomed (context w1)); [reflexivity|].
    match goal with |- context [if ?b then _ else _] => destruct b end; [|reflexivity].
    now rewrite textureCount_setVideoState. }
  revert H2.
  generalize (match plane (context w1) with
              | Some uniforms => detectHover projects uniforms w1
              | None => w1
              end).
  intros w2 H2. rewrite <- H2.
  destruct (plane (context w2)); [|reflexivity].
  apply textureCount_on_context. unfold dragPan. destruct (_ && _); reflexivity.
Qed.

Lemma textureCount_navigateToCell
    (projects : option (list Project)) (cell : Vec2) (init : bool) (w : World)
    (u : Uniforms) :
  plane (context w) = Some u ->
  textureCount (navigateToCell projects cell init w) = textureCount w.
Proof.
  intros Hp.
  destruct (navigateToCell_result projects cell init w u Hp)
    as (_ & _ & _ & _ & _ & (u' & Hp' & Hu')).
  destruct Hu' as (_ & _ & _ & _ & _ & _ & Htc & _).
  revert Hp'. generalize (navigateToCell projects cell init w). intros w' Hp'.
  unfold textureCount. rewrite Hp, Hp'. cbn [option_map]. now rewrite Htc.
Qed.

Lemma textureCount_unzoom (projects : option (list Project)) (w : World) :
  textureCount (unzoom projects w) = textureCount w.
Proof.
  unfold unzoom.
  match goal with
  | |- textureCount (setZoomedProject _ (setVideoState _ _ ?w0)) = _ =>
      pose proof (textureCount_setVideoState projects None w0) as H;
      assert (H0 : textureCount w0 = textureCount w) by reflexivity;
      revert H; generalize (setVideoState projects None w0)
  end.
  intros w2 H. transitivity (textureCount w2); [reflexivity | congruence].
Qed.

Lemma textureCount_gesture
    (projects : option (list Project)) (clickPos delta : Vec2) (w w1 : World) :
  handleInteraction projects clickPos delta w = Some w1 ->
  textureCount w1 = textureCount w.
Proof.
  intros Hh.
  destruct (handleInteraction_kinds _ _ _ _ _ Hh)
    as [-> | (u & Hp & [(_ & [-> | (cell & ->)]) | (_ & ->)])]; clear Hh.
  - reflexivity.
  - apply textureCount_unzoom.
  - exact (textureCount_navigateToCell projects cell false w u Hp).
  - exact (textureCount_navigateToCell projects _ true w u Hp).
Qed.

Lemma textureCount_step (projects : option (list Project)) (w w' : World) :
  step projects w w' ->
  textureCount w' = textureCount w \/
  exists l, projects = Some l /\ l <> [] /\
            textureCount w' = option_map (fun _ => INR (List.length l)) (textureCount w).
Proof.
  intros Hstep.
  destruct Hstep as [w w' Hr | w _ | w px py _ | w w' px py _ Hup | w px py _
                     | w w' px py _ Hleave | w dx dy mode iw ih _ | w cs ds _
                     | w cw ch _ | w _ | w _ _].
  - left. apply textureCount_same_camera.
    destruct Hr as [w0 before r after Hp Ha | w0 before r after Hp Ha
                    | w0 before r after name Hp Ha].
    + unfold loadResolved.
      pose proof (startPlayback_camera r (set_pending (before ++ after) w0)) as H.
      now rewrite context_set_pending in H.
    + unfold playResolved. destruct (_ =? _)%nat; [|apply same_camera_refl].
      rewrite context_on_context, context_set_pending. apply same_camera_uIsVideoActive.
    + unfold playRejected. destruct (String.eqb _ _); apply same_camera_refl.
  - left. apply textureCount_animate.
  - left. unfold onPointerDown. destruct (plane (context w)); reflexivity.
  - left. unfold onPointerUp in Hup. destruct (plane (context w)).
    + destruct (handleInteraction projects _ _ w) as [w1|] eqn:Hh; [|discriminate].
      injection Hup as <-. apply textureCount_gesture in Hh. rewrite <- Hh.
      generalize w1. reflexivity.
    + now injection Hup as <-.
  - left. unfold onPointerMove. destruct (plane (context w)); reflexivity.
  - left. unfold onPointerLeave, onPointerUp in Hleave. destruct (plane (context w)).
    + destruct (isDragging (context w)).
      * destruct (handleInteraction projects _ _ w) as [w1|] eqn:Hh; [|discriminate].
        injection Hleave as <-. apply textureCount_gesture in Hh. rewrite <- Hh.
        generalize w1. reflexivity.
      * now injection Hleave as <-.
    + now injection Hleave as <-.
  - left. unfold onWheel. destruct (plane (context w)); [|reflexivity].
    destruct (isZoomed (context w)); [reflexivity|].
    destruct mode as [|[|[|mode]]]; reflexivity.
  - left. unfold useUniforms. now apply textureCount_on_plane.
  - left. unfold onResize. now apply textureCount_on_plane.
  - unfold texturesReady. destruct projects as [[|p ps]|]; try (now left).
    right. exists (p :: ps). split; [reflexivity|]. split; [discriminate|].
    unfold textureCount, on_plane. cbn [context on_context plane set_plane].
    destruct (plane (context w)); reflexivity.
  - left. reflexivity.
Qed.

(** X18.  In every state the grid reaches, [uTextureCount] is either still 0
    (the atlases are not built yet, or the project list is empty or missing)
    or the length of the non-empty project list; no other hook writes it. *)
Theorem reachable_texture_count
    (projects : option (list Project)) (w : World) (u : Uniforms) :
  reachable projects w -> plane (context w) = Some u ->
  uTextureCount u = 0 \/
  exists l, projects = Some l /\ l <> [] /\ uTextureCount u = INR (List.length l).
Proof.
  intros Hreach.
  assert (Hinv : textureCount w = Some 0 \/
                 exists l, projects = Some l /\ l <> [] /\
                           textureCount w = Some (INR (List.length l))).
  { induction Hreach as [|w w' _ IH Hstep]; [now left|].
    destruct (textureCount_step projects w w' Hstep) as [-> | (l & Hl & Hne & ->)];
      [exact IH|].
    right. exists l. split; [exact Hl|]. split; [exact Hne|].
    destruct IH as [-> | (l' & _ & _ & ->)]; reflexivity. }
  intros Hp. unfold textureCount in Hinv. rewrite Hp in Hinv. cbn in Hinv.
  destruct Hinv as [[= ->] | (l & Hl & Hne & [= ->])]; [now left|].
  right. now exists l.
Qed.

Lemma reachable_texture_count_witness :
  let w := texturesReady (Some DEFAULT_PROJECTS) (onResize 800 600 initialWorld) in
  exists u,
    plane (context w) = Some u /\
    (uTextureCount u = 0 \/
     exists l, Some DEFAULT_PROJECTS = Some l /\ l <> [] /\
               uTextureCount u = INR (List.length l)).
Proof.
  cbv zeta. eexists. split; [reflexivity|].
  exact (reachable_texture_count (Some DEFAULT_PROJECTS)
           (texturesReady (Some DEFAULT_PROJECTS) (onResize 800 600 initialWorld)) _
           (reachable_step _ _ _
              (reachable_step _ _ _ (reachable_initial _)
                 (step_resize _ initialWorld 800 600 (Forall_nil _)))
              (step_textures _ (onResize 800 600 initialWorld) (Forall_nil _)))
           eq_refl).
Defined.

(** ** The camera over several frames *)

Lemma spring_state_same_camera (c c' : ThreeContext) :
  same_camera c c' -> spring_state c' = spring_state c.
Proof.
  intros H. pose proof (same_camera_zoom_targets c c' H) as (Ht & _).
  unfold zoom_targets in Ht. injection Ht as _ _ _ _ _ Hpl.
  unfold same_camera in H.
  repeat match goal with
  | H : _ /\ _ |- _ => destruct H
  end.
  unfold spring_state, axisX, axisY. congruence.
Qed.

Lemma spring_state_detectHover
    (projects : option (list Project)) (u : Uniforms) (w : World) :
  spring_state (context (detectHover projects u w)) = spring_state (context w).
Proof.
  unfold detectHover. destruct (isZoomed (context w)); [reflexivity|].
  match goal with |- context [if ?b then _ else _] => destruct b end; [|reflexivity].
  match goal with
  | |- context [setVideoState projects ?cell ?w1] =>
      rewrite (spring_state_same_camera _ _ (setVideoState_camera projects cell w1))
  end.
  reflexivity.
Qed.

Lemma spring_state_dragPan (u : Uniforms) (c : ThreeContext) :
  isDragging c && negb (isZoomed c) = false -> dragPan u c = c.
Proof. intros H. unfold dragPan. now rewrite H. Qed.

(** A frame in which no drag pans is one step of the spring on each axis,
    with the target left alone. *)
Lemma spring_state_animate (projects : option (list Project)) (w : World) :
  hasPlane (context w) = true ->
  isDragging (context w) && negb (isZoomed (context w)) = false ->
  spring_state (context (animate projects w))
  = (springAxis (axisX (context w)), springAxis (axisY (context w)),
     targetOffset (context w), false, true).
Proof.
  intros Hpl Hdrag. unfold animate.
  apply hasPlane_true in Hpl. destruct Hpl as (u & Hp). rewrite Hp.
  assert (H1 : spring_state (context (on_context lerpTowardTargets
                                        (on_context integrateOffset w)))
               = (springAxis (axisX (context w)), springAxis (axisY (context w)),
                  targetOffset (context w), false, true)).
  { unfold spring_state. rewrite !context_on_context.
    replace (axisX (lerpTowardTargets (integrateOffset (context w))))
      with (axisX (integrateOffset (context w))) by reflexivity.
    replace (axisY (lerpTowardTargets (integrateOffset (context w))))
      with (axisY (integrateOffset (context w))) by reflexivity.
    rewrite axisX_integrateOffset, axisY_integrateOffset.
    replace (isDragging (lerpTowardTargets (integrateOffset (context w))))
      with (isDragging (context w)) by reflexivity.
    replace (isZoomed (lerpTowardTargets (integrateOffset (context w))))
      with (isZoomed (context w)) by reflexivity.
    replace (hasPlane (lerpTowardTargets (integrateOffset (context w))))
      with (hasPlane (context w)) by reflexivity.
    rewrite Hdrag. unfold hasPlane. rewrite Hp. reflexivity. }
  revert H1. generalize (on_context lerpTowardTargets (on_context integrateOffset w)).
  generalize (springAxis (axisX (context w)), springAxis (axisY (context w)),
              targetOffset (context w)).
  intros T w1 H1.
  assert (H2 : spring_state (context match plane (context w1) with
                                     | Some uniforms => detectHover projects uniforms w1
                                     | None => w1
                                     end) = (T, false, true)).
  { destruct (plane (context w1)); [|exact H1].
    now rewrite spring_state_detectHover. }
  revert H2.
  generalize (match plane (context w1) with
              | Some uniforms => detectHover projects uniforms w1
              | None => w1
              end).
  clear H1. intros w2 H2.
  assert (H3 : spring_state (context match plane (context w2) with
                                     | Some uniforms => on_context (dragPan uniforms) w2
                                     | None => w2
                                     end) = (T, false, true)).
  { destruct (plane (context w2)); [|exact H2].
    rewrite context_on_context, spring_state_dragPan; [exact H2|].
    unfold spring_state in H2. now injection H2 as _ ->. }
  revert H3.
  generalize (match plane (context w2) with
              | Some uniforms => on_context (dragPan uniforms) w2
              | None => w2
              end).
  clear H2. intros w3 H3. rewrite <- H3. rewrite context_on_context.
  unfold spring_state, pushUniforms. rewrite hasPlane_on_plane. reflexivity.
Qed.

Lemma spring_state_frames (projects : option (list Project)) (n : nat) (w : World) :
  hasPlane (context w) = true ->
  isDragging (context w) && negb (isZoomed (context w)) = false ->
  spring_state (context (frames projects n w))
  = (Nat.iter n springAxis (axisX (context w)),
     Nat.iter n springAxis (axisY (context w)),
     targetOffset (context w), false, true).
Proof.
  intros Hpl Hdrag. induction n as [|n IH].
  - unfold spring_state. cbn [frames Nat.iter nat_rect]. now rewrite Hdrag, Hpl.
  - rewrite frames_succ.
    unfold spring_state in IH. injection IH as Hx Hy Ht Hd Hp.
    rewrite spring_state_animate by assumption.
    rewrite Hx, Hy, Ht, !Nat.iter_succ. reflexivity.
Qed.

Lemma energy_nonneg (ev : R * R) : 0 <= energy ev.
Proof. pose proof (energy_bounds_error ev). nra. Qed.

(** X19.  While no drag is panning (the pointer is up, or the grid is zoomed),
    frames leave [targetOffset] alone and the camera offset converges to it
    from any offset and any velocity: after [n] frames the squared distance is
    at most [50 * (3/4)^n] times the energy of the start, and so the offset is
    within any tolerance from some frame on. *)
Theorem camera_settles_on_target
    (projects : option (list Project)) (w : World) (u : Uniforms) :
  plane (context w) = Some u ->
  isDragging (context w) && negb (isZoomed (context w)) = false ->
  let V := energy (axisX (context w)) + energy (axisY (context w)) in
  (forall n,
     let c' := context (frames projects n w) in
     targetOffset c' = targetOffset (context w) /\
     distanceToTarget c' * distanceToTarget c' <= 50 * (3 / 4) ^ n * V) /\
  (forall tolerance, 0 < tolerance ->
     exists N, forall n, (N <= n)%nat ->
       distanceToTarget (context (frames projects n w)) <= tolerance).
Proof.
  intros Hp Hdrag. cbv zeta.
  pose proof (hasPlane_some _ _ Hp) as Hpl.
  assert (Hbound : forall n,
            targetOffset (context (frames projects n w)) = targetOffset (context w) /\
            distanceToTarget (context (frames projects n w))
            * distanceToTarget (context (frames projects n w))
            <= 50 * (3 / 4) ^ n
               * (energy (axisX (context w)) + energy (axisY (context w)))).
  { intros n. pose proof (spring_state_frames projects n w Hpl Hdrag) as Hs.
    unfold spring_state in Hs. injection Hs as Hx Hy Ht _ _.
    split; [exact Ht|]. rewrite distanceToTarget_squared, Hx, Hy.
    pose proof (energy_bounds_error (Nat.iter n springAxis (axisX (context w)))) as Bx.
    pose proof (energy_bounds_error (Nat.iter n springAxis (axisY (context w)))) as By.
    rewrite energy_iter in Bx, By. lra. }
  split; [exact Hbound|].
  intros tolerance Htol.
  set (V := energy (axisX (context w)) + energy (axisY (context w))) in *.
  assert (HV : 0 <= V).
  { subst V. pose proof (energy_nonneg (axisX (context w))).
    pose proof (energy_nonneg (axisY (context w))). lra. }
  destruct (pow_lt_1_zero (3 / 4)) with (y := tolerance * tolerance / (50 * V + 1))
    as [N HN].
  - rewrite Rabs_pos_eq; lra.
  - apply Rdiv_lt_0_compat; nra.
  - exists N. intros n Hn.
    pose proof (HN n Hn) as Hsmall.
    rewrite Rabs_pos_eq in Hsmall by (apply pow_le; lra).
    apply square_le; [apply length_nonneg | lra |].
    eapply Rle_trans; [apply Hbound|].
    assert (Hq : (3 / 4) ^ n * (50 * V + 1) < tolerance * tolerance).
    { apply (Rmult_lt_compat_r (50 * V + 1)) in Hsmall; [|lra].
      unfold Rdiv in Hsmall. rewrite Rmult_assoc, Rinv_l, Rmult_1_r in Hsmall by lra.
      exact Hsmall. }
    assert (Hpow : 0 <= (3 / 4) ^ n) by (apply pow_le; lra).
    nra.
Qed.

Lemma camera_settles_on_target_witness :
  let w := navigateToCell (Some DEFAULT_PROJECTS) (vec2 2 3) true initialWorld in
  plane (context w) = Some initialUniforms /\
  isDragging (context w) && negb (isZoomed (context w)) = false /\
  exists N, forall n, (N <= n)%nat ->
    distanceToTarget (context (frames (Some DEFAULT_PROJECTS) n w)) <= 1 / 1000.
Proof.
  cbv zeta. split; [reflexivity|]. split; [reflexivity|].
  destruct (camera_settles_on_target (Some DEFAULT_PROJECTS)
              (navigateToCell (Some DEFAULT_PROJECTS) (vec2 2 3) true initialWorld)
              initialUniforms eq_refl eq_refl) as (_ & Hconv).
  apply Hconv. lra.
Defined.

(** ** The hovered cell *)

Lemma videoNonce_startPlayback (r : VideoRequest) (w : World) :
  videoNonce (context (startPlayback r w)) = videoNonce (context w).
Proof. unfold startPlayback. destruct (cellId r); reflexivity. Qed.

(** Every call of [setVideoState] takes a new nonce. *)
Lemma videoNonce_setVideoState
    (projects : option (list Project)) (cell : option Vec2) (w : World) :
  videoNonce (context (setVideoState projects cell w)) = S (videoNonce (context w)).
Proof.
  unfold setVideoState.
  set (w1 := on_context (set_videoNonce (S (videoNonce (context w)))) w).
  assert (H1 : videoNonce (context w1) = S (videoNonce (context w))) by reflexivity.
  destruct (videoRef (context w1)) as [v|]; [|exact H1].
  destruct (plane (context w1)) as [u|]; [|exact H1].
  set (w2 := on_context (on_plane (set_uIsVideoActive false)) w1).
  set (w3 := if paused v then w2 else on_context (on_video pause) w2).
  assert (H3 : videoNonce (context w3) = S (videoNonce (context w))).
  { subst w3. destruct (paused v); exact H1. }
  destruct (video_of (getProjectByCellId cell projects)) as [s|]; [|exact H3].
  destruct (falsy_src (Some s)); [exact H3|].
  destruct (negb _); [exact H3|].
  destruct (String.eqb (src v) s).
  - now rewrite videoNonce_startPlayback.
  - exact H3.
Qed.

Lemma hovered_same_camera (c c' : ThreeContext) :
  same_camera c c' -> hoveredCellId c' = hoveredCellId c.
Proof.
  unfold same_camera. intros H.
  repeat match goal with
  | H : _ /\ _ |- _ => destruct H
  end.
  assumption.
Qed.

(** X20.  After a frame on a grid that is not zoomed, [hoveredCellId] is the
    cell under the pointer ([targetMousePos], through the camera of that
    frame), and [setVideoState] has been called exactly when that cell differs
    from the hovered cell of before: a pointer that stays in its cell never
    restarts the video. *)
Theorem frame_tracks_hovered_cell
    (projects : option (list Project)) (w : World) (u : Uniforms) :
  plane (context w) = Some u -> isZoomed (context w) = false ->
  let camera := lerpTowardTargets (integrateOffset (context w)) in
  let cell := cellIdAt (targetMousePos (context w)) camera u in
  let w' := animate projects w in
  hoveredCellId (context w') = Some cell /\
  (hoveredCellId (context w) = Some cell ->
   videoNonce (context w') = videoNonce (context w) /\ pending w' = pending w) /\
  (hoveredCellId (context w) <> Some cell ->
   videoNonce (context w') = S (videoNonce (context w))).
Proof.
  intros Hp Hz. cbv zeta. unfold animate. rewrite Hp.
  set (cell := cellIdAt (targetMousePos (context w))
                 (lerpTowardTargets (integrateOffset (context w))) u).
  assert (H1 : plane (context (on_context lerpTowardTargets
                                 (on_context integrateOffset w))) = Some u /\
               isZoomed (context (on_context lerpTowardTargets
                                    (on_context integrateOffset w))) = false /\
               hoveredCellId (context (on_context lerpTowardTargets
                                         (on_context integrateOffset w)))
               = hoveredCellId (context w) /\
               videoNonce (context (on_context lerpTowardTargets
                                      (on_context integrateOffset w)))
               = videoNonce (context w) /\
               pending (on_context lerpTowardTargets (on_context integrateOffset w))
               = pending w /\
               cellIdAt (targetMousePos (context (on_context lerpTowardTargets
                                                    (on_context integrateOffset w))))
                 (context (on_context lerpTowardTargets (on_context integrateOffset w)))
                 u = cell).
  { repeat split; assumption. }
  revert H1. generalize (on_context lerpTowardTargets (on_context integrateOffset w)).
  intros w1 (Hp1 & Hz1 & Hh1 & Hn1 & Hpend1 & Hcell1). rewrite Hp1.
  assert (H2 : hoveredCellId (context (detectHover projects u w1)) = Some cell /\
               (hoveredCellId (context w) = Some cell ->
                videoNonce (context (detectHover projects u w1))
                = videoNonce (context w) /\
                pending (detectHover projects u w1) = pending w) /\
               (hoveredCellId (context w) <> Some cell ->
                videoNonce (context (detectHover projects u w1))
                = S (videoNonce (context w)))).
  { unfold detectHover. rewrite Hz1, Hcell1, Hh1.
    destruct (hoveredCellId (context w)) as [h|] eqn:Hh.
    - destruct (Vector2.equals cell h) eqn:Heq; cbn [negb].
      + apply equals_spec in Heq. subst h.
        split; [now rewrite Hh1|]. split; [now split | congruence].
      + assert (Hne : cell <> h).
        { intros Hc. apply equals_spec in Hc. congruence. }
        rewrite videoNonce_setVideoState.
        rewrite (hovered_same_camera _ _ (setVideoState_camera projects (Some cell) _)).
        cbn [context on_context hoveredCellId set_hoveredCellId videoNonce].
        split; [reflexivity|]. split; [intros [= Hc]; now destruct Hne|].
        intros _. now rewrite Hn1.
    - rewrite videoNonce_setVideoState.
      rewrite (hovered_same_camera _ _ (setVideoState_camera projects (Some cell) _)).
      cbn [context on_context hoveredCellId set_hoveredCellId videoNonce].
      split; [reflexivity|]. split; [discriminate|].
      intros _. now rewrite Hn1. }
  revert H2. generalize (detectHover projects u w1). intros w2 H2.
  assert (H3 : forall w3 : World,
            hoveredCellId (context (on_context pushUniforms w3))
            = hoveredCellId (context w3) /\
            videoNonce (context (on_context pushUniforms w3)) = videoNonce (context w3) /\
            pending (on_context pushUniforms w3) = pending w3).
  { intros w3. repeat split. }
  destruct (plane (context w2)) as [u2|].
  - destruct (H3 (on_context (dragPan u2) w2)) as (-> & -> & ->).
    cbn [context on_context pending]. unfold dragPan.
    destruct (_ && _); exact H2.
  - destruct (H3 w2) as (-> & -> & ->). exact H2.
Qed.

Lemma frame_tracks_hovered_cell_witness :
  let w := onPointerMove 400 300 (onResize 800 600 initialWorld) in
  plane (context w) = Some (set_uResolution (vec2 800 600) initialUniforms) /\
  isZoomed (context w) = false /\
  hoveredCellId (context (animate (Some DEFAULT_PROJECTS) w))
  = Some (cellIdAt (vec2 400 300) (lerpTowardTargets (integrateOffset (context w)))
            (set_uResolution (vec2 800 600) initialUniforms)).
Proof.
  cbv zeta. split; [reflexivity|]. split; [reflexivity|].
  destruct (frame_tracks_hovered_cell (Some DEFAULT_PROJECTS)
              (onPointerMove 400 300 (onResize 800 600 initialWorld))
              (set_uResolution (vec2 800 600) initialUniforms) eq_refl eq_refl)
    as (Hh & _).
  exact Hh.
Defined.

(** ** The motion blur *)

(** A frame ends with the push of the uniforms. *)
Lemma animate_is_push (projects : option (list Project)) (w : World) (u : Uniforms) :
  plane (context w) = Some u ->
  exists w3,
    animate projects w = on_context pushUniforms w3 /\
    hasPlane (context w3) = true /\
    lerped (context w3) = lerped (lerpTowardTargets (context w)).
Proof.
  intros Hp. unfold animate. rewrite Hp.
  assert (H1 : hasPlane (context (on_context lerpTowardTargets
                                    (on_context integrateOffset w))) = true /\
               lerped (context (on_context lerpTowardTargets
                                  (on_context integrateOffset w)))
               = lerped (lerpTowardTargets (context w))).
  { split; [|reflexivity]. unfold hasPlane.
    replace (plane (context (on_context lerpTowardTargets
                               (on_context integrateOffset w))))
      with (plane (context w)) by reflexivity.
    now rewrite Hp. }
  revert H1. generalize (on_context lerpTowardTargets (on_context integrateOffset w)).
  generalize (lerped (lerpTowardTargets (context w))).
  intros L w1 (Hpl1 & Hl1).
  assert (H2 : hasPlane (context match plane (context w1) with
                                 | Some uniforms => detectHover projects uniforms w1
                                 | None => w1
                                 end) = true /\
               lerped (context match plane (context w1) with
                               | Some uniforms => detectHover projects uniforms w1
                               | None => w1
                               end) = L).
  { destruct (plane (context w1)) as [u1|]; [|now split].
    destruct (zoom_targets_detectHover projects u1 w1) as (Ht & Hl).
    unfold zoom_targets in Ht. injection Ht as _ _ _ _ _ Hpl.
    split; congruence. }
  revert H2.
  generalize (match plane (context w1) with
              | Some uniforms => detectHover projects uniforms w1
              | None => w1
              end).
  clear Hpl1 Hl1. intros w2 (Hpl2 & Hl2).
  destruct (plane (context w2)) as [u2|] eqn:Hp2.
  - exists (on_context (dragPan u2) w2). split; [reflexivity|].
    rewrite context_on_context.
    destruct (zoom_targets_dragPan u2 (context w2)) as (Ht & Hl).
    unfold zoom_targets in Ht. injection Ht as _ _ _ _ _ Hpl.
    split; congruence.
  - exists w2. now split.
Qed.

Lemma zoomProgress_frames (projects : option (list Project)) (n : nat) (w : World) :
  hasPlane (context w) = true -> isZoomed (context w) = false ->
  zoomProgress (context (frames projects n w))
  = (9 / 10) ^ n * zoomProgress (context w).
Proof.
  intros Hpl Hz. induction n as [|n IH].
  - cbn [frames Nat.iter nat_rect pow]. ring.
  - destruct (frames_targets projects n w Hpl) as (Ht & _).
    unfold zoom_targets in Ht. injection Ht as Hz' _ _ _ _ Hpl'.
    rewrite Hpl in Hpl'. rewrite Hz in Hz'.
    apply hasPlane_true in Hpl'. destruct Hpl' as (un & Hun).
    destruct (animate_targets projects _ un Hun) as (_ & Hl).
    rewrite frames_succ. rewrite lerped_lerpTowardTargets in Hl.
    unfold lerped in Hl. injection Hl as _ _ Hp.
    rewrite Hp, Hz', IH. unfold AnimationConfig.lerpFactor. cbn [pow]. field.
Qed.

Lemma pow_small (n : nat) : (56 <= n)%nat -> (9 / 10) ^ n <= 3 / 1000.
Proof.
  intros Hn. replace n with (56 + (n - 56))%nat by lia. rewrite pow_add.
  assert (H56 : (9 / 10) ^ 56 <= 3 / 1000) by (cbn [pow]; lra).
  assert (H0 : 0 <= (9 / 10) ^ 56) by (apply pow_le; lra).
  assert (Hk : 0 <= (9 / 10) ^ (n - 56) <= 1).
  { split; [apply pow_le; lra|].
    rewrite <- (pow1 (n - 56)). apply pow_incr. lra. }
  nra.
Qed.

(** With a zoom progress of at most 0.003 the shader takes one sample, with
    no effect intensity. *)
Lemma main_without_blur (U : Shader.uniforms) (vUv : Vec2) :
  0 <= Shader.uZoomProgress U <= 3 / 1000 ->
  Shader.main U vUv = Shader.getSceneColor U vUv 0.
Proof.
  intros (H0 & H1). unfold Shader.main. cbv zeta.
  replace (Rgtb (sin (Shader.uZoomProgress U * Shader.PI)) (1 / 100)) with false;
    [reflexivity|].
  symmetry. unfold Rgtb, Rltb.
  destruct (Rlt_dec (1 / 100) (sin (Shader.uZoomProgress U * Shader.PI))) as [Hlt|];
    [|reflexivity].
  exfalso. unfold Shader.PI in Hlt.
  destruct (Req_dec (Shader.uZoomProgress U) 0) as [Hz|Hz].
  - rewrite Hz, Rmult_0_l, sin_0 in Hlt. lra.
  - assert (Hpos : 0 < Shader.uZoomProgress U * (31415926535 / 10000000000)) by nra.
    pose proof (sin_lt_x _ Hpos). nra.
Qed.

(** X21.  Once the zoom has been left, the motion blur ends within 56 frames:
    from any state that is not zoomed, after at least 56 frames the uniform
    [uZoomProgress] that the frame pushed is at most 0.003, and with it the
    shader's [main] takes a single sample with no effect intensity, whatever
    the other uniforms are. *)
Theorem blur_ends_after_unzoom
    (projects : option (list Project)) (w : World) (u : Uniforms) (n : nat) :
  plane (context w) = Some u -> isZoomed (context w) = false ->
  0 <= zoomProgress (context w) <= 1 -> (56 <= n)%nat ->
  exists u',
    plane (context (frames projects n w)) = Some u' /\
    0 <= uZoomProgress u' <= 3 / 1000 /\
    forall border hover background imageAtlas textAtlas activeVideo isMobile vUv,
      let U := bindUniforms (context (frames projects n w)) u' border hover background
                            imageAtlas textAtlas activeVideo isMobile in
      Shader.main U vUv = Shader.getSceneColor U vUv 0.
Proof.
  intros Hp Hz Hprog Hn.
  pose proof (hasPlane_some _ _ Hp) as Hpl.
  pose proof (zoomProgress_frames projects n w Hpl Hz) as Hzp.
  destruct n as [|n]; [lia|].
  destruct (frames_targets projects n w Hpl) as (Ht & _).
  unfold zoom_targets in Ht. injection Ht as _ _ _ _ _ Hpl'. rewrite Hpl in Hpl'.
  apply hasPlane_true in Hpl'. destruct Hpl' as (un & Hun).
  destruct (animate_is_push projects _ un Hun) as (w3 & Hpush & Hpl3 & _).
  rewrite frames_succ in *. rewrite Hpush in *.
  apply hasPlane_true in Hpl3. destruct Hpl3 as (u3 & Hu3).
  assert (Hbound : 0 <= zoomProgress (context w3) <= 3 / 1000).
  { replace (zoomProgress (context (on_context pushUniforms w3)))
      with (zoomProgress (context w3)) in Hzp by reflexivity.
    rewrite Hzp. pose proof (pow_small (S n) Hn) as Hs.
    assert (H0 : 0 <= (9 / 10) ^ S n) by (apply pow_le; lra).
    split; nra. }
  eexists. split; [|split].
  - rewrite context_on_context. unfold pushUniforms, on_plane.
    cbn [plane set_plane]. rewrite Hu3. reflexivity.
  - exact Hbound.
  - intros border hover background imageAtlas textAtlas activeVideo isMobile vUv.
    cbv zeta. apply main_without_blur. exact Hbound.
Qed.

Lemma blur_ends_after_unzoom_witness :
  let w := on_context (set_zoomProgress 1) initialWorld in
  exists u',
    plane (context (frames (Some DEFAULT_PROJECTS) 60 w)) = Some u' /\
    0 <= uZoomProgress u' <= 3 / 1000.
Proof.
  cbv zeta.
  destruct (blur_ends_after_unzoom (Some DEFAULT_PROJECTS)
              (on_context (set_zoomProgress 1) initialWorld) initialUniforms 60
              eq_refl eq_refl ltac:(cbn; lra) ltac:(lia)) as (u' & Hp' & Hb & _).
  exists u'. split; [exact Hp' | exact Hb].
Defined.

(** ** Leaving the zoom stops the video *)

Lemma race_inv_ext
    (projects : option (list Project)) (cellB : option Vec2) (nB : nat)
    (srcB : option string) (w w' : World) :
  video_state w' = video_state w ->
  race_inv projects cellB nB srcB w -> race_inv projects cellB nB srcB w'.
Proof.
  intros Hs. apply video_state_fields in Hs.
  destruct Hs as (Hv & Hn & Hpend & Hact & Hhov & Hsrc & Hpl).
  unfold race_inv. rewrite Hn, Hpend, Hact, Hhov, Hsrc.
  intros (H1 & H2 & H3 & H4). split; [exact H1|]. split; [exact H2|].
  split; [now apply Hpl | exact H4].
Qed.

Lemma race_inv_no_media
    (projects : option (list Project)) (nB : nat) (srcB : option string) (w : World) :
  race_inv projects None nB srcB w -> isActive w = false.
Proof.
  intros (_ & _ & _ & _ & Hact & _).
  destruct (isActive w); [|reflexivity].
  destruct (Hact eq_refl) as (c & _ & _ & Hc & _). discriminate.
Qed.

Lemma resumes_nothing_pending (w w' : World) :
  resumes w w' -> pending w = [] -> w' = w.
Proof.
  induction 1 as [w | w w' w'' _ IH Hres]; intros Hpend; [reflexivity|].
  specialize (IH Hpend). subst w'.
  destruct Hres as [w0 before r after Hq _ | w0 before r after Hq _
                    | w0 before r after name Hq _];
    rewrite Hpend in Hq; now destruct before.
Qed.

(** X22.  Leaving the zoom stops the video for good: from a state the grid
    reaches, after [unzoom] no continuation of any suspended call, in any
    order, sets [uIsVideoActive] again. *)
Theorem unzoom_stops_video (projects : option (list Project)) (w w' : World) :
  reachable projects w -> microtasksDone w ->
  resumes (unzoom projects w) w' ->
  isActive w' = false.
Proof.
  intros Hreach Hmicro Hres.
  destruct (reachable_video_inv projects w Hreach) as (Hp & Hwf & Hrest).
  unfold unzoom in Hres.
  match type of Hres with
  | resumes (setZoomedProject _ (setVideoState _ _ ?w0)) _ =>
      assert (H0 : video_state w0 = video_state w) by reflexivity;
      set (wt := w0) in *
  end.
  clearbody wt.
  pose proof (video_state_fields _ _ H0) as (Hv0 & Hn0 & Hpend0 & Hact0 & _ & _ & Hpl0).
  destruct (videoRef (context w)) as [v|] eqn:Hv.
  - assert (Hm : mounted wt).
    { split; [rewrite Hv0; discriminate | now apply Hpl0]. }
    assert (Hwf0 : nonces_wf wt) by (unfold nonces_wf; now rewrite Hn0, Hpend0).
    assert (Hmicro0 : microtasksDone wt) by (unfold microtasksDone; now rewrite Hpend0).
    pose proof (race_inv_after_call projects None wt Hm Hwf0 Hmicro0) as Hrace.
    revert Hres Hrace. generalize (setVideoState projects None wt). intros w2 Hres Hrace.
    apply (race_inv_ext _ _ _ _ w2 (setZoomedProject Null w2) eq_refl) in Hrace.
    apply (race_inv_no_media projects (S (videoNonce (context wt))) (videoSrc w2) w').
    eapply race_inv_resumes; [exact Hrace | exact Hres].
  - destruct Hrest as (Hpend & Hact).
    rewrite (setVideoState_unmounted projects None wt) in Hres by congruence.
    apply resumes_nothing_pending in Hres; [|cbn; congruence].
    subst w'. unfold isActive in *. cbn [context setZoomedProject on_context plane
                                         set_videoNonce].
    exact (eq_trans Hact0 Hact).
Qed.

Lemma pending_setVideoState_null (projects : option (list Project)) (w : World) :
  pending (setVideoState projects None w) = pending w.
Proof.
  unfold setVideoState.
  destruct (videoRef (context (on_context _ w))) as [v|]; [|reflexivity].
  destruct (plane (context (on_context _ w))) as [u|]; [|reflexivity].
  cbn [getProjectByCellId video_of]. destruct (paused v); reflexivity.
Qed.

Lemma pending_unzoom (projects : option (list Project)) (w : World) :
  pending (unzoom projects w) = pending w.
Proof.
  unfold unzoom. cbv zeta.
  match goal with
  | |- context [setVideoState projects None ?w1] =>
      generalize (pending_setVideoState_null projects w1);
      generalize (setVideoState projects None w1)
  end.
  intros w2 Hw2. cbn [pending setZoomedProject]. rewrite Hw2. reflexivity.
Qed.

Lemma unzoom_stops_video_witness :
  let projects := Some DEFAULT_PROJECTS in
  let left_ := unzoom projects tapLoaded in
  let settled := playResolved (requestA AwaitPlay) (set_pending [] left_) in
  reachable projects tapLoaded /\ microtasksDone tapLoaded /\
  pending left_ = [requestA AwaitPlay] /\
  resumes left_ settled /\
  isActive settled = false /\
  reachable projects tapPlaying /\ microtasksDone tapPlaying /\
  isActive tapPlaying = true /\
  isActive (unzoom projects tapPlaying) = false.
Proof.
  cbv zeta.
  destruct tapLoaded_fields as (_ & _ & _ & Hpend).
  destruct tapPlaying_fields as (Hp & _ & Hpend').
  assert (Hmicro : microtasksDone tapLoaded).
  { unfold microtasksDone. rewrite Hpend. repeat constructor. }
  assert (Hmicro' : microtasksDone tapPlaying).
  { unfold microtasksDone. rewrite Hpend'. constructor. }
  assert (Hleft : pending (unzoom (Some DEFAULT_PROJECTS) tapLoaded)
                  = [requestA AwaitPlay])
    by (rewrite pending_unzoom; exact Hpend).
  assert (Hres : resumes (unzoom (Some DEFAULT_PROJECTS) tapLoaded)
                   (playResolved (requestA AwaitPlay)
                      (set_pending [] (unzoom (Some DEFAULT_PROJECTS) tapLoaded)))).
  { eapply resumes_step; [apply resumes_refl|].
    exact (resume_play (unzoom (Some DEFAULT_PROJECTS) tapLoaded) []
             (requestA AwaitPlay) [] Hleft eq_refl). }
  split; [exact tapLoaded_reachable|]. split; [exact Hmicro|].
  split; [exact Hleft|]. split; [exact Hres|].
  split; [exact (unzoom_stops_video (Some DEFAULT_PROJECTS) tapLoaded _
                   tapLoaded_reachable Hmicro Hres)|].
  split; [exact tapPlaying_reachable|]. split; [exact Hmicro'|].
  split; [unfold isActive; now rewrite Hp|].
  exact (unzoom_stops_video (Some DEFAULT_PROJECTS) tapPlaying _
           tapPlaying_reachable Hmicro' (resumes_refl _)).
Defined.
